(** * Hercules DJ Console driver (herculeslinux.cpp): event decoding

    A shallow embedding of the two event handlers of [HerculesLinux] and a
    verification of the properties stated for them:

    - [LibDjConsole.consoleEvent], the handler compiled under
      [__LIBDJCONSOLE__] (with [__THOMAS_HERC__], which the file defines);
    - [Evdev.getNextEvent_EV_ABS], the [EV_ABS] branch of [getNextEvent] in
      the original implementation (compiled when [__LIBDJCONSOLE__] is not
      defined), with the revised [Evdev.PitchChange].

    C++ [int] is a 32-bit two's complement integer, embedded in [Z] with the
    wrap-around written out ([to_int]).  A [double] is embedded as the
    rational number it holds: every [double] the properties below speak of is
    an integer or an integer plus or minus one half, divided by two, which
    binary64 computes without rounding.  The one expression that does round
    (the tone-control formula of [getNextEvent]) is marked where it is
    defined. *)

From Stdlib Require Import ZArith QArith List Bool Lia String.
Import ListNotations.
Local Open Scope Z_scope.

(** ** Machine integers *)

Definition int_min : Z := -2147483648.
Definition int_max : Z := 2147483647.

Definition in_int (z : Z) : Prop := int_min <= z <= int_max.

(** Reduction of an integer to the 32-bit signed range. *)
Definition to_int (z : Z) : Z := (z + 2147483648) mod 4294967296 - 2147483648.

Definition int_add (a b : Z) : Z := to_int (a + b).
Definition int_sub (a b : Z) : Z := to_int (a - b).
Definition int_mul (a b : Z) : Z := to_int (a * b).
Definition int_neg (a : Z) : Z := to_int (- a).
(** [a / b] on [int] truncates toward zero. *)
Definition int_div (a b : Z) : Z := to_int (Z.quot a b).

(** [double] values, see the header. *)
Definition double : Type := Q.
Definition double_of_int (z : Z) : double := inject_Z z.

(** Conversion of a [double] to [int], as the assignment to an [int]
    member does it: the value truncated toward zero when that is an [int].
    Out of the range the conversion is undefined in C++; the embedding
    takes what the conversion instruction of x86 gives there, the smallest
    [int]. *)
Definition int_of_double (x : double) : Z :=
  let z := Z.quot (Qnum x) (Zpos (Qden x)) in
  if (int_min <=? z) && (z <=? int_max) then z else int_min.

(** ** Control objects and the driver's outputs *)

(** The [m_pControlObject...] members the two handlers write to. *)
Inductive ControlObject : Type :=
| LeftVolume | RightVolume | Crossfade
| LeftTreble | LeftMiddle | LeftBass
| RightTreble | RightMiddle | RightBass
| LeftPitch | RightPitch
| LeftJog | RightJog
| LeftBtnPlay | RightBtnPlay
| LeftBtnCue | RightBtnCue
| LeftBtnCueAndStop | RightBtnCueAndStop
| LeftBtnPitchBendMinus | LeftBtnPitchBendPlus
| RightBtnPitchBendMinus | RightBtnPitchBendPlus
| LeftBtnTrackPrev | LeftBtnTrackNext
| RightBtnTrackPrev | RightBtnTrackNext
| LeftBtnMasterTempo | RightBtnMasterTempo
| LeftBtnHeadphone | RightBtnHeadphone
| LeftBtnAutobeat | RightBtnAutobeat.

(** What a handler does to the outside, in program order. *)
Inductive Output : Type :=
| SendEvent (v : double) (c : ControlObject)
| SendButtonEvent (pressed : bool) (c : ControlObject)
| LedsSetBit (led : Z) (on : bool)
| QDebug (format : string) (texts : list string) (numbers : list Z).

(** The continuous-sink and button-sink writes of a trace. *)
Definition is_sink_write (o : Output) : bool :=
  match o with
  | SendEvent _ _ | SendButtonEvent _ _ => true
  | LedsSetBit _ _ | QDebug _ _ _ => false
  end.

Definition sink_writes (out : list Output) : list Output :=
  filter is_sink_write out.

Definition is_qdebug (o : Output) : bool :=
  match o with
  | QDebug _ _ _ => true
  | _ => false
  end.

(** ** The rotary filter

    [rotary.h] is not among the sources; the handlers only call
    [setCalibration] and [filter] on the two [Rotary] objects, which are
    kept abstract. *)
Class RotaryOps (Rotary : Type) : Type := {
  Rotary_setCalibration : Rotary -> Z -> Rotary;
  Rotary_filter : Rotary -> double -> Rotary * double
}.

(** ** The members of [HerculesLinux] the handlers use

    The class is declared in [hercules.h] and [herculeslinux.h], which are
    not among the sources.  The [m_iJog...] and [m_dJog...Old] members only
    ever hold integers (raw values, sums of deltas, [-1]); they are embedded
    in [Z]. *)
Record HerculesLinux {Rotary : Type} : Type := mkHerculesLinux {
  m_iPitchLeft : Z;
  m_iPitchRight : Z;
  m_iPitchOffsetLeft : Z;
  m_iPitchOffsetRight : Z;
  m_iJogLeft : Z;
  m_iJogRight : Z;
  m_dJogLeftOld : Z;
  m_dJogRightOld : Z;
  m_dLeftVolumeOld : double;
  m_dRightVolumeOld : double;
  m_bHeadphoneLeft : bool;
  m_bHeadphoneRight : bool;
  m_bMasterTempoLeft : bool;
  m_bMasterTempoRight : bool;
  m_iHerculesHeadphonesSelection : Z;
  m_pRotaryLeft : Rotary;
  m_pRotaryRight : Rotary
}.
Arguments HerculesLinux : clear implicits.
Arguments mkHerculesLinux {Rotary}.

(** Assignment to one member. *)
Section Assign.
Context {Rotary : Type}.

Definition set_m_iPitchLeft (v : Z) (s : HerculesLinux Rotary)
  : HerculesLinux Rotary :=
  mkHerculesLinux v (m_iPitchRight s) (m_iPitchOffsetLeft s)
    (m_iPitchOffsetRight s) (m_iJogLeft s) (m_iJogRight s) (m_dJogLeftOld s)
    (m_dJogRightOld s) (m_dLeftVolumeOld s) (m_dRightVolumeOld s)
    (m_bHeadphoneLeft s) (m_bHeadphoneRight s) (m_bMasterTempoLeft s)
    (m_bMasterTempoRight s) (m_iHerculesHeadphonesSelection s)
    (m_pRotaryLeft s) (m_pRotaryRight s).

Definition set_m_iPitchRight (v : Z) (s : HerculesLinux Rotary)
  : HerculesLinux Rotary :=
  mkHerculesLinux (m_iPitchLeft s) v (m_iPitchOffsetLeft s)
    (m_iPitchOffsetRight s) (m_iJogLeft s) (m_iJogRight s) (m_dJogLeftOld s)
    (m_dJogRightOld s) (m_dLeftVolumeOld s) (m_dRightVolumeOld s)
    (m_bHeadphoneLeft s) (m_bHeadphoneRight s) (m_bMasterTempoLeft s)
    (m_bMasterTempoRight s) (m_iHerculesHeadphonesSelection s)
    (m_pRotaryLeft s) (m_pRotaryRight s).

Definition set_m_iPitchOffsetLeft (v : Z) (s : HerculesLinux Rotary)
  : HerculesLinux Rotary :=
  mkHerculesLinux (m_iPitchLeft s) (m_iPitchRight s) v
    (m_iPitchOffsetRight s) (m_iJogLeft s) (m_iJogRight s) (m_dJogLeftOld s)
    (m_dJogRightOld s) (m_dLeftVolumeOld s) (m_dRightVolumeOld s)
    (m_bHeadphoneLeft s) (m_bHeadphoneRight s) (m_bMasterTempoLeft s)
    (m_bMasterTempoRight s) (m_iHerculesHeadphonesSelection s)
    (m_pRotaryLeft s) (m_pRotaryRight s).

Definition set_m_iPitchOffsetRight (v : Z) (s : HerculesLinux Rotary)
  : HerculesLinux Rotary :=
  mkHerculesLinux (m_iPitchLeft s) (m_iPitchRight s) (m_iPitchOffsetLeft s)
    v (m_iJogLeft s) (m_iJogRight s) (m_dJogLeftOld s) (m_dJogRightOld s)
    (m_dLeftVolumeOld s) (m_dRightVolumeOld s) (m_bHeadphoneLeft s)
    (m_bHeadphoneRight s) (m_bMasterTempoLeft s) (m_bMasterTempoRight s)
    (m_iHerculesHeadphonesSelection s) (m_pRotaryLeft s) (m_pRotaryRight s).

Definition set_m_iJogLeft (v : Z) (s : HerculesLinux Rotary)
  : HerculesLinux Rotary :=
  mkHerculesLinux (m_iPitchLeft s) (m_iPitchRight s) (m_iPitchOffsetLeft s)
    (m_iPitchOffsetRight s) v (m_iJogRight s) (m_dJogLeftOld s)
    (m_dJogRightOld s) (m_dLeftVolumeOld s) (m_dRightVolumeOld s)
    (m_bHeadphoneLeft s) (m_bHeadphoneRight s) (m_bMasterTempoLeft s)
    (m_bMasterTempoRight s) (m_iHerculesHeadphonesSelection s)
    (m_pRotaryLeft s) (m_pRotaryRight s).

Definition set_m_iJogRight (v : Z) (s : HerculesLinux Rotary)
  : HerculesLinux Rotary :=
  mkHerculesLinux (m_iPitchLeft s) (m_iPitchRight s) (m_iPitchOffsetLeft s)
    (m_iPitchOffsetRight s) (m_iJogLeft s) v (m_dJogLeftOld s)
    (m_dJogRightOld s) (m_dLeftVolumeOld s) (m_dRightVolumeOld s)
    (m_bHeadphoneLeft s) (m_bHeadphoneRight s) (m_bMasterTempoLeft s)
    (m_bMasterTempoRight s) (m_iHerculesHeadphonesSelection s)
    (m_pRotaryLeft s) (m_pRotaryRight s).

Definition set_m_dJogLeftOld (v : Z) (s : HerculesLinux Rotary)
  : HerculesLinux Rotary :=
  mkHerculesLinux (m_iPitchLeft s) (m_iPitchRight s) (m_iPitchOffsetLeft s)
    (m_iPitchOffsetRight s) (m_iJogLeft s) (m_iJogRight s) v
    (m_dJogRightOld s) (m_dLeftVolumeOld s) (m_dRightVolumeOld s)
    (m_bHeadphoneLeft s) (m_bHeadphoneRight s) (m_bMasterTempoLeft s)
    (m_bMasterTempoRight s) (m_iHerculesHeadphonesSelection s)
    (m_pRotaryLeft s) (m_pRotaryRight s).

Definition set_m_dJogRightOld (v : Z) (s : HerculesLinux Rotary)
  : HerculesLinux Rotary :=
  mkHerculesLinux (m_iPitchLeft s) (m_iPitchRight s) (m_iPitchOffsetLeft s)
    (m_iPitchOffsetRight s) (m_iJogLeft s) (m_iJogRight s) (m_dJogLeftOld s)
    v (m_dLeftVolumeOld s) (m_dRightVolumeOld s) (m_bHeadphoneLeft s)
    (m_bHeadphoneRight s) (m_bMasterTempoLeft s) (m_bMasterTempoRight s)
    (m_iHerculesHeadphonesSelection s) (m_pRotaryLeft s) (m_pRotaryRight s).

Definition set_m_dLeftVolumeOld (v : double) (s : HerculesLinux Rotary)
  : HerculesLinux Rotary :=
  mkHerculesLinux (m_iPitchLeft s) (m_iPitchRight s) (m_iPitchOffsetLeft s)
    (m_iPitchOffsetRight s) (m_iJogLeft s) (m_iJogRight s) (m_dJogLeftOld s)
    (m_dJogRightOld s) v (m_dRightVolumeOld s) (m_bHeadphoneLeft s)
    (m_bHeadphoneRight s) (m_bMasterTempoLeft s) (m_bMasterTempoRight s)
    (m_iHerculesHeadphonesSelection s) (m_pRotaryLeft s) (m_pRotaryRight s).

Definition set_m_dRightVolumeOld (v : double) (s : HerculesLinux Rotary)
  : HerculesLinux Rotary :=
  mkHerculesLinux (m_iPitchLeft s) (m_iPitchRight s) (m_iPitchOffsetLeft s)
    (m_iPitchOffsetRight s) (m_iJogLeft s) (m_iJogRight s) (m_dJogLeftOld s)
    (m_dJogRightOld s) (m_dLeftVolumeOld s) v (m_bHeadphoneLeft s)
    (m_bHeadphoneRight s) (m_bMasterTempoLeft s) (m_bMasterTempoRight s)
    (m_iHerculesHeadphonesSelection s) (m_pRotaryLeft s) (m_pRotaryRight s).

Definition set_m_bHeadphoneLeft (v : bool) (s : HerculesLinux Rotary)
  : HerculesLinux Rotary :=
  mkHerculesLinux (m_iPitchLeft s) (m_iPitchRight s) (m_iPitchOffsetLeft s)
    (m_iPitchOffsetRight s) (m_iJogLeft s) (m_iJogRight s) (m_dJogLeftOld s)
    (m_dJogRightOld s) (m_dLeftVolumeOld s) (m_dRightVolumeOld s) v
    (m_bHeadphoneRight s) (m_bMasterTempoLeft s) (m_bMasterTempoRight s)
    (m_iHerculesHeadphonesSelection s) (m_pRotaryLeft s) (m_pRotaryRight s).

Definition set_m_bHeadphoneRight (v : bool) (s : HerculesLinux Rotary)
  : HerculesLinux Rotary :=
  mkHerculesLinux (m_iPitchLeft s) (m_iPitchRight s) (m_iPitchOffsetLeft s)
    (m_iPitchOffsetRight s) (m_iJogLeft s) (m_iJogRight s) (m_dJogLeftOld s)
    (m_dJogRightOld s) (m_dLeftVolumeOld s) (m_dRightVolumeOld s)
    (m_bHeadphoneLeft s) v (m_bMasterTempoLeft s) (m_bMasterTempoRight s)
    (m_iHerculesHeadphonesSelection s) (m_pRotaryLeft s) (m_pRotaryRight s).

Definition set_m_bMasterTempoLeft (v : bool) (s : HerculesLinux Rotary)
  : HerculesLinux Rotary :=
  mkHerculesLinux (m_iPitchLeft s) (m_iPitchRight s) (m_iPitchOffsetLeft s)
    (m_iPitchOffsetRight s) (m_iJogLeft s) (m_iJogRight s) (m_dJogLeftOld s)
    (m_dJogRightOld s) (m_dLeftVolumeOld s) (m_dRightVolumeOld s)
    (m_bHeadphoneLeft s) (m_bHeadphoneRight s) v (m_bMasterTempoRight s)
    (m_iHerculesHeadphonesSelection s) (m_pRotaryLeft s) (m_pRotaryRight s).

Definition set_m_bMasterTempoRight (v : bool) (s : HerculesLinux Rotary)
  : HerculesLinux Rotary :=
  mkHerculesLinux (m_iPitchLeft s) (m_iPitchRight s) (m_iPitchOffsetLeft s)
    (m_iPitchOffsetRight s) (m_iJogLeft s) (m_iJogRight s) (m_dJogLeftOld s)
    (m_dJogRightOld s) (m_dLeftVolumeOld s) (m_dRightVolumeOld s)
    (m_bHeadphoneLeft s) (m_bHeadphoneRight s) (m_bMasterTempoLeft s) v
    (m_iHerculesHeadphonesSelection s) (m_pRotaryLeft s) (m_pRotaryRight s).

Definition set_m_iHerculesHeadphonesSelection (v : Z) (s : HerculesLinux Rotary)
  : HerculesLinux Rotary :=
  mkHerculesLinux (m_iPitchLeft s) (m_iPitchRight s) (m_iPitchOffsetLeft s)
    (m_iPitchOffsetRight s) (m_iJogLeft s) (m_iJogRight s) (m_dJogLeftOld s)
    (m_dJogRightOld s) (m_dLeftVolumeOld s) (m_dRightVolumeOld s)
    (m_bHeadphoneLeft s) (m_bHeadphoneRight s) (m_bMasterTempoLeft s)
    (m_bMasterTempoRight s) v (m_pRotaryLeft s) (m_pRotaryRight s).

Definition set_m_pRotaryLeft (v : Rotary) (s : HerculesLinux Rotary)
  : HerculesLinux Rotary :=
  mkHerculesLinux (m_iPitchLeft s) (m_iPitchRight s) (m_iPitchOffsetLeft s)
    (m_iPitchOffsetRight s) (m_iJogLeft s) (m_iJogRight s) (m_dJogLeftOld s)
    (m_dJogRightOld s) (m_dLeftVolumeOld s) (m_dRightVolumeOld s)
    (m_bHeadphoneLeft s) (m_bHeadphoneRight s) (m_bMasterTempoLeft s)
    (m_bMasterTempoRight s) (m_iHerculesHeadphonesSelection s) v
    (m_pRotaryRight s).

Definition set_m_pRotaryRight (v : Rotary) (s : HerculesLinux Rotary)
  : HerculesLinux Rotary :=
  mkHerculesLinux (m_iPitchLeft s) (m_iPitchRight s) (m_iPitchOffsetLeft s)
    (m_iPitchOffsetRight s) (m_iJogLeft s) (m_iJogRight s) (m_dJogLeftOld s)
    (m_dJogRightOld s) (m_dLeftVolumeOld s) (m_dRightVolumeOld s)
    (m_bHeadphoneLeft s) (m_bHeadphoneRight s) (m_bMasterTempoLeft s)
    (m_bMasterTempoRight s) (m_iHerculesHeadphonesSelection s)
    (m_pRotaryLeft s) v.

End Assign.

(** ** Handlers as state transformers with an output trace *)

Section Handler.
Context {Rotary : Type}.

Definition M (A : Type) : Type :=
  HerculesLinux Rotary -> A * HerculesLinux Rotary * list Output.

Definition ret {A : Type} (a : A) : M A := fun s => (a, s, []).

Definition bind {A B : Type} (m : M A) (k : A -> M B) : M B :=
  fun s =>
    let '(a, s1, o1) := m s in
    let '(b, s2, o2) := k a s1 in
    (b, s2, o1 ++ o2).

(** Reading a member, assigning to the object, producing an output. *)
Definition get {A : Type} (f : HerculesLinux Rotary -> A) : M A :=
  fun s => (f s, s, []).
Definition assign (f : HerculesLinux Rotary -> HerculesLinux Rotary)
  : M unit :=
  fun s => (tt, f s, []).
Definition emit (o : Output) : M unit := fun s => (tt, s, [o]).

(** [if (b) { m }] *)
Definition when (b : bool) (m : M unit) : M unit :=
  if b then m else ret tt.

Definition sendEvent (v : double) (c : ControlObject) : M unit :=
  emit (SendEvent v c).
Definition sendButtonEvent (pressed : bool) (c : ControlObject) : M unit :=
  emit (SendButtonEvent pressed c).
Definition Leds_setBit (led : Z) (on : bool) : M unit :=
  emit (LedsSetBit led on).
Definition qDebug (format : string) (texts : list string)
  (numbers : list Z) : M unit :=
  emit (QDebug format texts numbers).

(** A call [PitchChange(side, ev, previous, offset)], whose last two
    arguments are members passed by reference. *)
Definition by_reference
  (f : Z -> Z -> double * Z * Z * list Output)
  (previous : HerculesLinux Rotary -> Z)
  (set_previous : Z -> HerculesLinux Rotary -> HerculesLinux Rotary)
  (offset : HerculesLinux Rotary -> Z)
  (set_offset : Z -> HerculesLinux Rotary -> HerculesLinux Rotary)
  : M double :=
  fun s =>
    let '(r, p, o, out) := f (previous s) (offset s) in
    (r, set_offset o (set_previous p s), out).

(** The final object and the trace of a handler run. *)
Definition state_after {A : Type} (r : A * HerculesLinux Rotary * list Output)
  : HerculesLinux Rotary := snd (fst r).
Definition trace_of {A : Type} (r : A * HerculesLinux Rotary * list Output)
  : list Output := snd r.
End Handler.

Declare Scope handler_scope.
Delimit Scope handler_scope with handler.
Notation "x <- m ;; k" := (bind m (fun x => k))
  (at level 61, m at next level, right associativity) : handler_scope.
Notation "m ;; k" := (bind m (fun _ => k))
  (at level 61, right associativity) : handler_scope.

(** A [switch] whose cases all end in [break]: the body of the first label
    equal to [x], or [default].  (C++ rejects a [switch] with two equal
    labels, so "first" only matters to this definition.) *)
Fixpoint switch {A : Type} (x : Z) (cases : list (Z * A)) (default : A) : A :=
  match cases with
  | [] => default
  | (label, body) :: rest =>
      if x =? label then body else switch x rest default
  end.

(** Pairwise distinct labels, as a test. *)
Fixpoint distinctb (l : list Z) : bool :=
  match l with
  | [] => true
  | x :: r => negb (existsb (Z.eqb x) r) && distinctb r
  end.

(** ** Jog wheels: the difference of two raw positions

    Both handlers compute [iDiff] with the same statements, once per side:
<<
    iDiff = 0;
    if (old >= 0) iDiff = value - old;
    if (iDiff < -200) iDiff += 256; else if (iDiff > 200) iDiff -= 256;
>> *)
Definition jog_raw_diff (old value : Z) : Z :=
  let iDiff := 0 in
  if 0 <=? old then int_sub value old else iDiff.

Definition jog_rollover (iDiff : Z) : Z :=
  if iDiff <? -200 then int_add iDiff 256
  else if 200 <? iDiff then int_sub iDiff 256
  else iDiff.

Definition jog_iDiff (old value : Z) : Z :=
  jog_rollover (jog_raw_diff old value).

(** ** The handler built on libdjconsole ([#ifdef __LIBDJCONSOLE__]) *)

Module LibDjConsole.

(** The control and LED codes of libdjconsole's header and the four
    [kiHerculesHeadphone...] constants of [hercules.h].  Neither header is
    among the sources, so the values are parameters of the handler. *)
Record Constants : Type := mkConstants {
  LEFT_PLAY : Z; LEFT_CUE : Z; LEFT_MASTER_TEMPO : Z; LEFT_AUTO_BEAT : Z;
  LEFT_MONITOR : Z;
  RIGHT_PLAY : Z; RIGHT_CUE : Z; RIGHT_MASTER_TEMPO : Z; RIGHT_AUTO_BEAT : Z;
  RIGHT_MONITOR : Z;
  LEFT_1 : Z; LEFT_2 : Z; LEFT_3 : Z;
  RIGHT_1 : Z; RIGHT_2 : Z; RIGHT_3 : Z;
  LEFT_FX : Z; LEFT_FX_CUE : Z; LEFT_LOOP : Z;
  RIGHT_FX : Z; RIGHT_FX_CUE : Z; RIGHT_LOOP : Z;
  LEFT_VOL : Z; RIGHT_VOL : Z; XFADER : Z;
  LEFT_PITCH_DOWN : Z; LEFT_PITCH_UP : Z;
  RIGHT_PITCH_DOWN : Z; RIGHT_PITCH_UP : Z;
  LEFT_SKIP_BACK : Z; LEFT_SKIP_FORWARD : Z;
  RIGHT_SKIP_BACK : Z; RIGHT_SKIP_FORWARD : Z;
  RIGHT_HIGH : Z; RIGHT_MID : Z; RIGHT_BASS : Z;
  LEFT_HIGH : Z; LEFT_MID : Z; LEFT_BASS : Z;
  LEFT_JOG : Z; RIGHT_JOG : Z;
  LEFT_PITCH : Z; RIGHT_PITCH : Z;
  kiHerculesHeadphoneSplit : Z; kiHerculesHeadphoneMix : Z;
  kiHerculesHeadphoneDeckA : Z; kiHerculesHeadphoneDeckB : Z
}.

(** The values of [m_pControlObjectLeftBtnPlayProxy->get()] and of its
    right counterpart when the event arrives. *)
Record Proxies : Type := mkProxies {
  LeftBtnPlayProxy : double;
  RightBtnPlayProxy : double
}.

(** [HerculesLinux::PitchChange], the variant of this implementation. *)
Definition PitchChange (ControlSide : string) (ev_value : Z)
  (m_iPitchPrevious m_iPitchOffset : Z) : double * Z * Z * list Output :=
  if m_iPitchPrevious <? 0 then
    (double_of_int 64, 64, ev_value, [])
  else
    let delta := int_sub ev_value m_iPitchOffset in
    let delta :=
      if 240 <=? delta then int_mul (int_sub 255 delta) (-1) else delta in
    let delta := if delta <=? -240 then int_add 255 delta else delta in
    let m_iPitchOffset := ev_value in
    let pitchAdjustStep := delta in
    let m_iPitchPrevious :=
      if ((0 <? pitchAdjustStep)
            && (int_add m_iPitchPrevious pitchAdjustStep <? 128))
         || ((pitchAdjustStep <? 0)
               && (0 <? int_add m_iPitchPrevious pitchAdjustStep))
      then int_add m_iPitchPrevious pitchAdjustStep
      else if 0 <? pitchAdjustStep then 127
      else if pitchAdjustStep <? 0 then 0
      else m_iPitchPrevious in
    (double_of_int m_iPitchPrevious, m_iPitchPrevious, m_iPitchOffset,
     [QDebug "%s PitchAdjust %i -> new Pitch %i" [ControlSide]
        [pitchAdjustStep; m_iPitchPrevious]]).

Section ConsoleEvent.
Context {Rotary : Type} {rotary : RotaryOps Rotary}.
Variable c : Constants.
Variable proxies : Proxies.

Local Open Scope handler_scope.

Definition m_pRotaryLeft_setCalibration (n : Z) : M (Rotary := Rotary) unit :=
  assign (fun s =>
    set_m_pRotaryLeft (Rotary_setCalibration (m_pRotaryLeft s) n) s).
Definition m_pRotaryRight_setCalibration (n : Z) : M (Rotary := Rotary) unit :=
  assign (fun s =>
    set_m_pRotaryRight (Rotary_setCalibration (m_pRotaryRight s) n) s).

(** [sendButtonEvent(true, m_pControlObjectRightBtnHeadphone);
     m_bHeadphoneRight = !m_bHeadphoneRight;] and the same on the left. *)
Definition toggle_HeadphoneRight : M (Rotary := Rotary) unit :=
  sendButtonEvent true RightBtnHeadphone ;;
  assign (fun s => set_m_bHeadphoneRight (negb (m_bHeadphoneRight s)) s).
Definition toggle_HeadphoneLeft : M (Rotary := Rotary) unit :=
  sendButtonEvent true LeftBtnHeadphone ;;
  assign (fun s => set_m_bHeadphoneLeft (negb (m_bHeadphoneLeft s)) s).

(** The first [switch] of [consoleEvent]: the value left in [led]. *)
Definition led_cases (first : Z) : list (Z * M (Rotary := Rotary) Z) :=
  [ (LEFT_PLAY c, ret first);
    (LEFT_CUE c, ret first);
    (LEFT_MASTER_TEMPO c, ret first);
    (LEFT_AUTO_BEAT c, ret first);
    (LEFT_MONITOR c, ret first);
    (RIGHT_PLAY c, ret first);
    (RIGHT_CUE c, ret first);
    (RIGHT_MASTER_TEMPO c, ret first);
    (RIGHT_AUTO_BEAT c, ret first);
    (RIGHT_MONITOR c, ret first);
    (LEFT_1 c,
      m_pRotaryLeft_setCalibration 512 ;;
      Leds_setBit (LEFT_FX c) true ;;
      Leds_setBit (LEFT_FX_CUE c) false ;;
      Leds_setBit (LEFT_LOOP c) false ;;
      ret 0);
    (LEFT_2 c,
      m_pRotaryLeft_setCalibration 256 ;;
      Leds_setBit (LEFT_FX c) false ;;
      Leds_setBit (LEFT_FX_CUE c) true ;;
      Leds_setBit (LEFT_LOOP c) false ;;
      ret 0);
    (LEFT_3 c,
      m_pRotaryLeft_setCalibration 64 ;;
      Leds_setBit (LEFT_FX c) false ;;
      Leds_setBit (LEFT_FX_CUE c) false ;;
      Leds_setBit (LEFT_LOOP c) true ;;
      ret 0);
    (RIGHT_1 c,
      m_pRotaryRight_setCalibration 512 ;;
      Leds_setBit (RIGHT_FX c) true ;;
      Leds_setBit (RIGHT_FX_CUE c) false ;;
      Leds_setBit (RIGHT_LOOP c) false ;;
      ret 0);
    (RIGHT_2 c,
      m_pRotaryRight_setCalibration 256 ;;
      Leds_setBit (RIGHT_FX c) false ;;
      Leds_setBit (RIGHT_FX_CUE c) true ;;
      Leds_setBit (RIGHT_LOOP c) false ;;
      ret 0);
    (RIGHT_3 c,
      m_pRotaryRight_setCalibration 64 ;;
      Leds_setBit (RIGHT_FX c) false ;;
      Leds_setBit (RIGHT_FX_CUE c) false ;;
      Leds_setBit (RIGHT_LOOP c) true ;;
      ret 0) ].

(** The bodies of the headphone selector cases 103, 102, 101, 100. *)
Definition case_103 (second : Z) : M (Rotary := Rotary) unit :=
  when (second =? 4)
    (assign (set_m_iHerculesHeadphonesSelection (kiHerculesHeadphoneSplit c)) ;;
     qDebug "Deck SPLIT (mute both)" [] [] ;;
     r <- get m_bHeadphoneRight ;;
     when r toggle_HeadphoneRight ;;
     l <- get m_bHeadphoneLeft ;;
     when l toggle_HeadphoneLeft).

Definition case_102 (second : Z) : M (Rotary := Rotary) unit :=
  when (second =? 8)
    (assign (set_m_iHerculesHeadphonesSelection (kiHerculesHeadphoneMix c)) ;;
     qDebug "Deck MIX" [] [] ;;
     r <- get m_bHeadphoneRight ;;
     when (negb r) toggle_HeadphoneRight ;;
     l <- get m_bHeadphoneLeft ;;
     when (negb l) toggle_HeadphoneLeft).

Definition case_101 (second : Z) : M (Rotary := Rotary) unit :=
  sel <- get m_iHerculesHeadphonesSelection ;;
  when ((second =? 2)
          && ((sel =? kiHerculesHeadphoneDeckA c)
                || (sel =? kiHerculesHeadphoneMix c)))
    (assign (set_m_iHerculesHeadphonesSelection (kiHerculesHeadphoneDeckB c)) ;;
     qDebug "Deck B" [] [] ;;
     r <- get m_bHeadphoneRight ;;
     when (negb r) toggle_HeadphoneRight ;;
     l <- get m_bHeadphoneLeft ;;
     when l toggle_HeadphoneLeft).

Definition case_100 (second : Z) : M (Rotary := Rotary) unit :=
  sel <- get m_iHerculesHeadphonesSelection ;;
  when ((second =? 1) && (sel =? kiHerculesHeadphoneDeckB c))
    (assign (set_m_iHerculesHeadphonesSelection (kiHerculesHeadphoneDeckA c)) ;;
     qDebug "Deck A" [] [] ;;
     r <- get m_bHeadphoneRight ;;
     when r toggle_HeadphoneRight ;;
     l <- get m_bHeadphoneLeft ;;
     when (negb l) toggle_HeadphoneLeft).

(** The bodies of [case LEFT_JOG] and [case RIGHT_JOG].  In
    [m_iJogLeft += (double)iDiff] the sum is taken in [double], where it is
    exact for two [int] values, and converted back to the [int] member. *)
Definition case_LEFT_JOG (second : Z) : M (Rotary := Rotary) unit :=
  old <- get m_dJogLeftOld ;;
  let iDiff := jog_iDiff old second in
  assign (set_m_dJogLeftOld second) ;;
  assign (fun s =>
    set_m_iJogLeft
      (int_of_double (double_of_int (m_iJogLeft s) + double_of_int iDiff)%Q) s).

Definition case_RIGHT_JOG (second : Z) : M (Rotary := Rotary) unit :=
  old <- get m_dJogRightOld ;;
  let iDiff := jog_iDiff old second in
  assign (set_m_dJogRightOld second) ;;
  assign (fun s =>
    set_m_iJogRight
      (int_of_double (double_of_int (m_iJogRight s) + double_of_int iDiff)%Q) s).

(** The second [switch] of [consoleEvent], in the order of the source. *)
Definition dispatch_cases (second : Z)
  : list (Z * M (Rotary := Rotary) unit) :=
  [ (LEFT_VOL c, sendEvent (double_of_int second / 2)%Q LeftVolume);
    (RIGHT_VOL c, sendEvent (double_of_int second / 2)%Q RightVolume);
    (LEFT_PLAY c, sendButtonEvent true LeftBtnPlay);
    (RIGHT_PLAY c, sendButtonEvent true RightBtnPlay);
    (XFADER c,
      sendEvent (double_of_int (int_add second 1) / 2)%Q Crossfade);
    (LEFT_PITCH_DOWN c, sendButtonEvent true LeftBtnPitchBendMinus);
    (LEFT_PITCH_UP c, sendButtonEvent true LeftBtnPitchBendPlus);
    (RIGHT_PITCH_DOWN c, sendButtonEvent true RightBtnPitchBendMinus);
    (RIGHT_PITCH_UP c, sendButtonEvent true RightBtnPitchBendPlus);
    (LEFT_SKIP_BACK c, sendButtonEvent true LeftBtnTrackPrev);
    (LEFT_SKIP_FORWARD c, sendButtonEvent true LeftBtnTrackNext);
    (RIGHT_SKIP_BACK c, sendButtonEvent true RightBtnTrackPrev);
    (RIGHT_SKIP_FORWARD c, sendButtonEvent true RightBtnTrackNext);
    (RIGHT_HIGH c, sendEvent (double_of_int (int_div second 2)) RightTreble);
    (RIGHT_MID c, sendEvent (double_of_int (int_div second 2)) RightMiddle);
    (RIGHT_BASS c, sendEvent (double_of_int (int_div second 2)) RightBass);
    (LEFT_HIGH c, sendEvent (double_of_int (int_div second 2)) LeftTreble);
    (LEFT_MID c, sendEvent (double_of_int (int_div second 2)) LeftMiddle);
    (LEFT_BASS c, sendEvent (double_of_int (int_div second 2)) LeftBass);
    (LEFT_CUE c,
      if negb (Qeq_bool (LeftBtnPlayProxy proxies) 0)
      then sendButtonEvent true LeftBtnCueAndStop
      else sendButtonEvent true LeftBtnCue);
    (RIGHT_CUE c,
      if negb (Qeq_bool (RightBtnPlayProxy proxies) 0)
      then sendButtonEvent true RightBtnCueAndStop
      else sendButtonEvent true RightBtnCue);
    (LEFT_MASTER_TEMPO c,
      sendEvent (double_of_int 0) LeftBtnMasterTempo ;;
      assign (fun s =>
        set_m_bMasterTempoLeft (negb (m_bMasterTempoLeft s)) s));
    (RIGHT_MASTER_TEMPO c,
      sendEvent (double_of_int 0) RightBtnMasterTempo ;;
      assign (fun s =>
        set_m_bMasterTempoRight (negb (m_bMasterTempoRight s)) s));
    (RIGHT_MONITOR c, toggle_HeadphoneRight);
    (LEFT_MONITOR c, toggle_HeadphoneLeft);
    (103, case_103 second);
    (102, case_102 second);
    (101, case_101 second);
    (100, case_100 second);
    (LEFT_JOG c, case_LEFT_JOG second);
    (RIGHT_JOG c, case_RIGHT_JOG second);
    (LEFT_PITCH c,
      v <- by_reference (PitchChange "Left" second)
             m_iPitchLeft set_m_iPitchLeft
             m_iPitchOffsetLeft set_m_iPitchOffsetLeft ;;
      sendEvent v LeftPitch);
    (RIGHT_PITCH c,
      v <- by_reference (PitchChange "Right" second)
             m_iPitchRight set_m_iPitchRight
             m_iPitchOffsetRight set_m_iPitchOffsetRight ;;
      sendEvent v RightPitch);
    (LEFT_AUTO_BEAT c, sendButtonEvent false LeftBtnAutobeat);
    (RIGHT_AUTO_BEAT c, sendButtonEvent false RightBtnAutobeat) ].

(** [HerculesLinux::consoleEvent(int first, int second)]. *)
Definition consoleEvent (first second : Z) : M (Rotary := Rotary) unit :=
  if second =? 0 then
    Leds_setBit first false
  else
    when (negb (first =? 0))
      (let ledIsOn := if second =? 0 then false else true in
       led <- switch first (led_cases first) (ret 0) ;;
       switch first (dispatch_cases second)
         (qDebug "Button %i = %i" [] [first; second]) ;;
       when (negb (led =? 0)) (Leds_setBit led ledIsOn)).

End ConsoleEvent.

(** The case labels of the two switches, in the order of the source. *)
Definition led_labels (c : Constants) : list Z :=
  [ LEFT_PLAY c; LEFT_CUE c; LEFT_MASTER_TEMPO c; LEFT_AUTO_BEAT c;
    LEFT_MONITOR c;
    RIGHT_PLAY c; RIGHT_CUE c; RIGHT_MASTER_TEMPO c; RIGHT_AUTO_BEAT c;
    RIGHT_MONITOR c;
    LEFT_1 c; LEFT_2 c; LEFT_3 c; RIGHT_1 c; RIGHT_2 c; RIGHT_3 c ].

Definition dispatch_labels (c : Constants) : list Z :=
  [ LEFT_VOL c; RIGHT_VOL c; LEFT_PLAY c; RIGHT_PLAY c; XFADER c;
    LEFT_PITCH_DOWN c; LEFT_PITCH_UP c; RIGHT_PITCH_DOWN c; RIGHT_PITCH_UP c;
    LEFT_SKIP_BACK c; LEFT_SKIP_FORWARD c;
    RIGHT_SKIP_BACK c; RIGHT_SKIP_FORWARD c;
    RIGHT_HIGH c; RIGHT_MID c; RIGHT_BASS c;
    LEFT_HIGH c; LEFT_MID c; LEFT_BASS c;
    LEFT_CUE c; RIGHT_CUE c; LEFT_MASTER_TEMPO c; RIGHT_MASTER_TEMPO c;
    RIGHT_MONITOR c; LEFT_MONITOR c;
    103; 102; 101; 100;
    LEFT_JOG c; RIGHT_JOG c; LEFT_PITCH c; RIGHT_PITCH c;
    LEFT_AUTO_BEAT c; RIGHT_AUTO_BEAT c ].

(** What C++ requires of the constants for [consoleEvent] to compile (no
    label twice in a [switch]), and that the four headphone selections
    are four different values. *)
Definition constants_ok (c : Constants) : bool :=
  distinctb (led_labels c)
  && distinctb (dispatch_labels c)
  && distinctb [kiHerculesHeadphoneSplit c; kiHerculesHeadphoneMix c;
                kiHerculesHeadphoneDeckA c; kiHerculesHeadphoneDeckB c].

(** The assignments of the constructor, applied to the object as the
    base-class constructor [Hercules()] left it. *)
Definition constructor {Rotary : Type} (base : HerculesLinux Rotary)
  : HerculesLinux Rotary :=
  set_m_iHerculesHeadphonesSelection 1
    (set_m_bHeadphoneRight false
      (set_m_bHeadphoneLeft false
        (set_m_dJogRightOld (-1)
          (set_m_dJogLeftOld (-1)
            (set_m_iJogRight 0
              (set_m_iJogLeft 0
                (set_m_iPitchRight (-1)
                  (set_m_iPitchLeft (-1) base)))))))).

End LibDjConsole.

(** ** The original implementation on [/dev/input/event*]
       ([#ifndef __LIBDJCONSOLE__]) *)

Module Evdev.

(** The [EV_ABS] event codes of [hercules.h], which is not among the
    sources: parameters of the handler. *)
Record Constants : Type := mkConstants {
  kiHerculesLeftTreble : Z; kiHerculesLeftMiddle : Z; kiHerculesLeftBass : Z;
  kiHerculesLeftVolume : Z; kiHerculesLeftPitch : Z; kiHerculesLeftJog : Z;
  kiHerculesRightTreble : Z; kiHerculesRightMiddle : Z;
  kiHerculesRightBass : Z;
  kiHerculesRightVolume : Z; kiHerculesRightPitch : Z;
  kiHerculesRightJog : Z;
  kiHerculesCrossfade : Z
}.

(** [HerculesLinux::PitchChange], the revised variant: the offset is
    initialised on the [-9999] mark, then at most one of four rollover
    corrections is applied, then the previous value is overwritten. *)
Definition PitchChange (ControlSide : string) (ev_value : Z)
  (m_iPitchPrevious m_iPitchOffset : Z) : double * Z * Z * list Output :=
  let m_iPitchOffset :=
    if m_iPitchOffset =? -9999 then int_sub 127 ev_value
    else m_iPitchOffset in
  let m_iPitchOffset :=
    if (int_add m_iPitchPrevious m_iPitchOffset =? 255)
       && (m_iPitchPrevious <? ev_value)
    then int_sub 255 ev_value
    else if (m_iPitchPrevious =? 255) && (ev_value =? 0)
    then int_add 255 m_iPitchOffset
    else if (ev_value =? 255) && (m_iPitchPrevious =? 0)
            && (0 <=? m_iPitchOffset)
    then int_sub m_iPitchOffset 255
    else if (ev_value <? m_iPitchPrevious)
            && (int_add m_iPitchPrevious m_iPitchOffset =? 0)
    then int_neg ev_value
    else m_iPitchOffset in
  let m_iPitchPrevious := ev_value in
  (((double_of_int (int_add m_iPitchPrevious m_iPitchOffset) - (1 # 2)) / 2)%Q,
   m_iPitchPrevious, m_iPitchOffset, []).

(** The local [v] of [getNextEvent] (the tone-control formula):
    [(ev.value+1)/(4.-((ev.value>((7/8.)*256))*((ev.value-((7/8.)*256))*1/16.)))].
    This is the exact quotient; the [double] of the source is its
    rounding to binary64 (and is infinite where the divisor is zero, at
    [ev.value = 288], where [Q] gives [0]). *)
Definition v_of (ev_value : Z) : double :=
  (double_of_int (int_add ev_value 1)
   / (4 - (if 224 <? ev_value then 1 else 0)
          * ((double_of_int ev_value - 224) * 1 / 16)))%Q.

Section GetNextEvent.
Context {Rotary : Type} {rotary : RotaryOps Rotary}.
Variable c : Constants.

Local Open Scope handler_scope.

Definition m_pRotaryLeft_filter (x : double) : M (Rotary := Rotary) double :=
  fun s =>
    let '(r, y) := Rotary_filter (m_pRotaryLeft s) x in
    (y, set_m_pRotaryLeft r s, []).
Definition m_pRotaryRight_filter (x : double) : M (Rotary := Rotary) double :=
  fun s =>
    let '(r, y) := Rotary_filter (m_pRotaryRight s) x in
    (y, set_m_pRotaryRight r s, []).

(** The bodies of [case kiHerculesLeftJog] and [case kiHerculesRightJog]. *)
Definition case_kiHerculesLeftJog (ev_value : Z) : M (Rotary := Rotary) unit :=
  old <- get m_iJogLeft ;;
  let iDiff := jog_iDiff old ev_value in
  dDiff <- m_pRotaryLeft_filter (double_of_int iDiff / 16)%Q ;;
  assign (set_m_iJogLeft ev_value) ;;
  sendEvent dDiff LeftJog.

Definition case_kiHerculesRightJog (ev_value : Z) : M (Rotary := Rotary) unit :=
  old <- get m_iJogRight ;;
  let iDiff := jog_iDiff old ev_value in
  dDiff <- m_pRotaryRight_filter (double_of_int iDiff / 16)%Q ;;
  assign (set_m_iJogRight ev_value) ;;
  sendEvent dDiff RightJog.

(** The [switch (ev.code)] under [case EV_ABS], in the order of the
    source.  It has no [default]. *)
Definition abs_cases (ev_value : Z) : list (Z * M (Rotary := Rotary) unit) :=
  let v := v_of ev_value in
  [ (kiHerculesLeftTreble c, sendEvent v LeftTreble);
    (kiHerculesLeftMiddle c, sendEvent v LeftMiddle);
    (kiHerculesLeftBass c, sendEvent v LeftBass);
    (kiHerculesLeftVolume c,
      assign (set_m_dLeftVolumeOld (double_of_int ev_value / 2)%Q) ;;
      sendEvent (double_of_int ev_value / 2)%Q LeftVolume);
    (kiHerculesLeftPitch c,
      p <- by_reference (PitchChange "Left" ev_value)
             m_iPitchLeft set_m_iPitchLeft
             m_iPitchOffsetLeft set_m_iPitchOffsetLeft ;;
      sendEvent p LeftPitch);
    (kiHerculesLeftJog c, case_kiHerculesLeftJog ev_value);
    (kiHerculesRightTreble c, sendEvent v RightTreble);
    (kiHerculesRightMiddle c, sendEvent v RightMiddle);
    (kiHerculesRightBass c, sendEvent v RightBass);
    (kiHerculesRightVolume c,
      assign (set_m_dRightVolumeOld (double_of_int ev_value / 2)%Q) ;;
      sendEvent (double_of_int ev_value / 2)%Q RightVolume);
    (kiHerculesRightPitch c,
      p <- by_reference (PitchChange "Right" ev_value)
             m_iPitchRight set_m_iPitchRight
             m_iPitchOffsetRight set_m_iPitchOffsetRight ;;
      sendEvent p RightPitch);
    (kiHerculesRightJog c, case_kiHerculesRightJog ev_value);
    (kiHerculesCrossfade c,
      sendEvent (double_of_int (int_add ev_value 1) / 2)%Q Crossfade) ].

(** [HerculesLinux::getNextEvent] from the point where an event of type
    [EV_ABS] with code [ev_code] and value [ev_value] has been read. *)
Definition getNextEvent_EV_ABS (ev_code ev_value : Z)
  : M (Rotary := Rotary) unit :=
  switch ev_code (abs_cases ev_value) (ret tt).
End GetNextEvent.

Definition abs_labels (c : Constants) : list Z :=
  [ kiHerculesLeftTreble c; kiHerculesLeftMiddle c; kiHerculesLeftBass c;
    kiHerculesLeftVolume c; kiHerculesLeftPitch c; kiHerculesLeftJog c;
    kiHerculesRightTreble c; kiHerculesRightMiddle c; kiHerculesRightBass c;
    kiHerculesRightVolume c; kiHerculesRightPitch c; kiHerculesRightJog c;
    kiHerculesCrossfade c ].

(** No label twice in the [switch]. *)
Definition constants_ok (c : Constants) : bool := distinctb (abs_labels c).

(** The assignments of the constructor, applied to the object as the
    base-class constructor [Hercules()] left it. *)
Definition constructor {Rotary : Type} (base : HerculesLinux Rotary)
  : HerculesLinux Rotary :=
  set_m_iPitchRight 127
    (set_m_iPitchLeft 127
      (set_m_iPitchOffsetRight (-9999)
        (set_m_iPitchOffsetLeft (-9999)
          (set_m_dJogRightOld 0
            (set_m_dJogLeftOld 0
              (set_m_iJogRight (-1)
                (set_m_iJogLeft (-1) base))))))).

End Evdev.

(** ** The specified components

    The definitions of this part follow the specification of the decoder
    (its sections 4.1, 4.3 and 4.4), on unbounded integers; the theorems
    below compare the handlers with them. *)

(** 4.1 DeltaUnwrapper: [unwrap(previous, current) = (delta, new_previous)]. *)
Definition DeltaUnwrapper_unwrap (previous : option Z) (current : Z) : Z * Z :=
  match previous with
  | None => (0, current)
  | Some p =>
      let raw_delta := current - p in
      let delta :=
        if raw_delta <? -200 then raw_delta + 256
        else if 200 <? raw_delta then raw_delta - 256
        else raw_delta in
      (delta, current)
  end.

(** The stored previous raw value: none while the member is negative. *)
Definition stored_previous (member : Z) : option Z :=
  if member <? 0 then None else Some member.

(** 4.3 PitchOffsetTracker: the four rollover rules, in the listed order. *)
Inductive RolloverRule : Type := Rule1 | Rule2 | Rule3 | Rule4.

Definition rule_condition (r : RolloverRule) (raw previous offset : Z) : bool :=
  match r with
  | Rule1 => (previous + offset =? 255) && (previous <? raw)
  | Rule2 => (previous =? 255) && (raw =? 0)
  | Rule3 => (raw =? 255) && (previous =? 0) && (0 <=? offset)
  | Rule4 => (raw <? previous) && (previous + offset =? 0)
  end.

Definition rule_offset (r : RolloverRule) (raw offset : Z) : Z :=
  match r with
  | Rule1 => 255 - raw
  | Rule2 => 255 + offset
  | Rule3 => offset - 255
  | Rule4 => - raw
  end.

(** The rule that fires: the first one in the list whose condition holds. *)
Definition fired_rule (raw previous offset : Z) : option RolloverRule :=
  find (fun r => rule_condition r raw previous offset)
    [Rule1; Rule2; Rule3; Rule4].

Definition uninitialized : Z := -9999.

(** The offset once the [-9999] mark has been consumed. *)
Definition initialized_offset (raw offset : Z) : Z :=
  if offset =? uninitialized then 127 - raw else offset.

(** [update(raw, {previous, offset}) = (pitchPercent, previous', offset')]. *)
Definition PitchOffsetTracker_update (raw previous offset : Z) : Q * Z * Z :=
  let offset := initialized_offset raw offset in
  let offset :=
    match fired_rule raw previous offset with
    | Some r => rule_offset r raw offset
    | None => offset
    end in
  let previous := raw in
  (((inject_Z (previous + offset) - (1 # 2)) / 2)%Q, previous, offset).

(** 4.4 HeadphoneDeckSelector. *)
Inductive HeadphoneSelectorState : Type := SPLIT | MIX | DECK_A | DECK_B.

(** The transition an event is accepted for in a state, if any. *)
Definition accepted_transition (state : HeadphoneSelectorState)
  (control_id value : Z) : option HeadphoneSelectorState :=
  if (control_id =? 103) && (value =? 4) then Some SPLIT
  else if (control_id =? 102) && (value =? 8) then Some MIX
  else if (control_id =? 101) && (value =? 2) then
    match state with
    | DECK_A | MIX => Some DECK_B
    | _ => None
    end
  else if (control_id =? 100) && (value =? 1) then
    match state with
    | DECK_B => Some DECK_A
    | _ => None
    end
  else None.

Definition HeadphoneDeckSelector (state : HeadphoneSelectorState)
  (control_id value : Z) : HeadphoneSelectorState :=
  match accepted_transition state control_id value with
  | Some target => target
  | None => state
  end.

(** The headphone-enable booleans a state requires, left then right. *)
Definition required_configuration (state : HeadphoneSelectorState)
  : bool * bool :=
  match state with
  | SPLIT => (false, false)
  | MIX => (true, true)
  | DECK_A => (true, false)
  | DECK_B => (false, true)
  end.

(** The value of [m_iHerculesHeadphonesSelection] that stands for a state. *)
Definition selection_of (c : LibDjConsole.Constants)
  (state : HeadphoneSelectorState) : Z :=
  match state with
  | SPLIT => LibDjConsole.kiHerculesHeadphoneSplit c
  | MIX => LibDjConsole.kiHerculesHeadphoneMix c
  | DECK_A => LibDjConsole.kiHerculesHeadphoneDeckA c
  | DECK_B => LibDjConsole.kiHerculesHeadphoneDeckB c
  end.

(** The button-edge write of a toggle of [m_bHeadphoneRight] when it differs
    from the required value, then the same for [m_bHeadphoneLeft]. *)
Definition toggle_writes (left right : bool) (target : HeadphoneSelectorState)
  : list Output :=
  (if Bool.eqb right (snd (required_configuration target)) then []
   else [SendButtonEvent true RightBtnHeadphone])
  ++ (if Bool.eqb left (fst (required_configuration target)) then []
      else [SendButtonEvent true LeftBtnHeadphone]).

(** The text [qDebug] prints when a selector case is taken. *)
Definition deck_message (target : HeadphoneSelectorState) : string :=
  match target with
  | SPLIT => "Deck SPLIT (mute both)"
  | MIX => "Deck MIX"
  | DECK_A => "Deck A"
  | DECK_B => "Deck B"
  end.

(** The run of an accepted transition to [target] from the object [s]: the
    selection is [target], the booleans are as [target] requires, and the
    trace is the debug text and the button events of the toggles. *)
Definition accepted_run {Rotary : Type} (c : LibDjConsole.Constants)
  (target : HeadphoneSelectorState) (s : HerculesLinux Rotary)
  : unit * HerculesLinux Rotary * list Output :=
  (tt,
   set_m_bHeadphoneLeft (fst (required_configuration target))
     (set_m_bHeadphoneRight (snd (required_configuration target))
        (set_m_iHerculesHeadphonesSelection (selection_of c target) s)),
   QDebug (deck_message target) [] []
     :: toggle_writes (m_bHeadphoneLeft s) (m_bHeadphoneRight s) target).

(** An event [consoleEvent] has no case for, in either [switch]. *)
Definition recognized (c : LibDjConsole.Constants) (first : Z) : bool :=
  existsb (Z.eqb first)
    (LibDjConsole.led_labels c ++ LibDjConsole.dispatch_labels c).

(** The decoder state: jog previous values and accumulators, pitch previous
    values and offsets, headphone selection and booleans. *)
Definition decoder_state {Rotary : Type} (s : HerculesLinux Rotary)
  : list Z * list bool :=
  ([ m_dJogLeftOld s; m_dJogRightOld s; m_iJogLeft s; m_iJogRight s;
     m_iPitchLeft s; m_iPitchRight s;
     m_iPitchOffsetLeft s; m_iPitchOffsetRight s;
     m_iHerculesHeadphonesSelection s ],
   [ m_bHeadphoneLeft s; m_bHeadphoneRight s ]).

(** ** Concrete parameters, to run the handlers

    The headers that define the codes are not among the sources; these are
    assignments that satisfy [constants_ok]. *)

Definition example_djc : LibDjConsole.Constants :=
  LibDjConsole.mkConstants
    1 2 3 4 5 6 7 8 9 10
    11 12 13 14 15 16
    17 18 19 20 21 22
    23 24 25
    26 27 28 29
    30 31 32 33
    34 35 36 37 38 39
    40 41 42 43
    0 1 2 3.

Definition example_evdev : Evdev.Constants :=
  Evdev.mkConstants 1 2 3 4 5 6 7 8 9 10 11 12 13.

Definition example_proxies : LibDjConsole.Proxies :=
  LibDjConsole.mkProxies 0%Q 1%Q.

(** Modelled from the spec: [rotary.h] and [rotary.cpp] are missing.  A
    filter of length one scaled by the calibration divisor (4.2), whose
    only state is the divisor. *)
#[export] Instance example_rotary : RotaryOps Z := {
  Rotary_setCalibration := fun _ n => n;
  Rotary_filter := fun r x => (r, (x / inject_Z r)%Q)
}.

(** An object for the examples: both variants start from it. *)
Definition example_base : HerculesLinux Z :=
  mkHerculesLinux 0 0 0 0 0 0 0 0 0%Q 0%Q false false false false 0 64 64.

(** * The rest of the driver

    The parts of [herculeslinux.cpp] around the two handlers: sequences of
    events, the timeout branch and the key events of [getNextEvent], the
    two [run] loops, and the registry of open devices. *)

(** ** Events in sequence *)

(** Handlers run one after the other, on the same object. *)
Fixpoint sequence {Rotary : Type} (handlers : list (M (Rotary := Rotary) unit))
  : M (Rotary := Rotary) unit :=
  match handlers with
  | [] => ret tt
  | h :: rest => bind h (fun _ => sequence rest)
  end.

(** The calls of [consoleEvent] for a list of events; each event comes with
    the values the play proxies have when it arrives. *)
Definition consoleEvents {Rotary : Type} {rotary : RotaryOps Rotary}
  (c : LibDjConsole.Constants) (events : list (LibDjConsole.Proxies * Z * Z))
  : M (Rotary := Rotary) unit :=
  sequence
    (map (fun e => LibDjConsole.consoleEvent c (fst (fst e)) (snd (fst e)) (snd e))
       events).

(** ** Closed forms used in the statements *)

(** The step [PitchChange] of the libdjconsole variant derives from the raw
    value and the one before: their difference, moved back by 255 when it
    is 240 or more away from zero. *)
Definition pitch_step (offset ev_value : Z) : Z :=
  let d := ev_value - offset in
  if 240 <=? d then d - 255
  else if d <=? -240 then d + 255
  else d.

Definition clamp (lo hi x : Z) : Z := Z.max lo (Z.min hi x).

(** Button events to the two headphone controls. *)
Definition is_left_headphone_event (o : Output) : bool :=
  match o with
  | SendButtonEvent _ LeftBtnHeadphone => true
  | _ => false
  end.

Definition is_right_headphone_event (o : Output) : bool :=
  match o with
  | SendButtonEvent _ RightBtnHeadphone => true
  | _ => false
  end.

(** Values sent to the two pitch controls. *)
Definition pitch_values (out : list Output) : list double :=
  flat_map
    (fun o =>
       match o with
       | SendEvent v LeftPitch | SendEvent v RightPitch => [v]
       | _ => []
       end) out.

(** The stored raw value of a jog wheel is a raw value, and the accumulator
    is [k] ahead of it modulo 256. *)
Definition jog_tracks (old acc k : Z) : Prop :=
  0 <= old <= 255 /\ (acc - old - k) mod 256 = 0.

(** Room for [n] more jog events: the accumulator is at least [200 n]
    away from both ends of [int], so no sum of the run leaves [int]. *)
Definition jog_room (acc : Z) (n : nat) : Prop :=
  int_min + 200 * Z.of_nat n <= acc <= int_max - 200 * Z.of_nat n.

(** The pitch members of one side in the libdjconsole variant: not yet
    initialised, or a pitch between 0 and 127 and a raw value. *)
Definition pitch_members_ok (previous offset : Z) : Prop :=
  previous < 0 \/ (0 <= previous <= 127 /\ 0 <= offset <= 255).

Definition in_pitch_range (v : double) : Prop := (0 <= v <= 127)%Q.

(** The pitch members of one side in the original implementation, once
    initialised: a raw value, and an offset that places it in [0, 255]. *)
Definition pitch_tracked (previous offset : Z) : Prop :=
  0 <= previous <= 255 /\ 0 <= previous + offset <= 255.

(** A raw value that is the one before, or next to it on the 8-bit
    counter. *)
Definition unit_step (previous raw : Z) : Prop :=
  0 <= raw <= 255
  /\ (raw = previous \/ raw = previous + 1 \/ raw = previous - 1
      \/ (previous = 255 /\ raw = 0) \/ (previous = 0 /\ raw = 255)).

(** The number of button events sent to each headphone control. *)
Definition left_headphone_events (out : list Output) : nat :=
  List.length (filter is_left_headphone_event out).

Definition right_headphone_events (out : list Output) : nat :=
  List.length (filter is_right_headphone_event out).

Definition is_leds_setBit (o : Output) : bool :=
  match o with
  | LedsSetBit _ _ => true
  | _ => false
  end.

(** ** The original implementation: the whole object

    [getNextEvent], [run], [opendev] and [closedev] of the original
    implementation use members, and act on the outside, beyond what the two
    handlers above need. *)

Module EvdevDriver.

(** [EV_KEY] and [EV_ABS] of [linux/input.h]. *)
Definition EV_KEY : Z := 1.
Definition EV_ABS : Z := 3.

(** The key codes, LED codes and device names of [hercules.h], which is not
    among the sources: parameters. *)
Record Constants : Type := mkConstants {
  abs_codes : Evdev.Constants;
  kiHerculesLeftBtnPitchBendMinus : Z; kiHerculesLeftBtnPitchBendPlus : Z;
  kiHerculesLeftBtnTrackNext : Z; kiHerculesLeftBtnTrackPrev : Z;
  kiHerculesLeftBtnCue : Z; kiHerculesLeftBtnPlay : Z;
  kiHerculesLeftBtnAutobeat : Z; kiHerculesLeftBtnMasterTempo : Z;
  kiHerculesLeftBtn1 : Z; kiHerculesLeftBtn2 : Z; kiHerculesLeftBtn3 : Z;
  kiHerculesLeftBtnFx : Z; kiHerculesLeftBtnHeadphone : Z;
  kiHerculesRightBtnPitchBendMinus : Z; kiHerculesRightBtnPitchBendPlus : Z;
  kiHerculesRightBtnTrackNext : Z; kiHerculesRightBtnTrackPrev : Z;
  kiHerculesRightBtnCue : Z; kiHerculesRightBtnPlay : Z;
  kiHerculesRightBtnAutobeat : Z; kiHerculesRightBtnMasterTempo : Z;
  kiHerculesRightBtn1 : Z; kiHerculesRightBtn2 : Z; kiHerculesRightBtn3 : Z;
  kiHerculesRightBtnFx : Z; kiHerculesRightBtnHeadphone : Z;
  kiHerculesLedLeftCueBtn : Z; kiHerculesLedRightCueBtn : Z;
  kiHerculesLedLeftPlay : Z; kiHerculesLedRightPlay : Z;
  kiHerculesLedLeftSync : Z; kiHerculesLedRightSync : Z;
  kiHerculesLedLeftHeadphone : Z; kiHerculesLedRightHeadphone : Z;
  kiHerculesNumEventDevices : Z;
  kqHerculesValidPrefix : list string
}.

(** The control objects of the buttons 1, 2, 3 and FX. *)
Inductive FxControl : Type :=
| LeftBtn1 | LeftBtn2 | LeftBtn3 | LeftBtnFx
| RightBtn1 | RightBtn2 | RightBtn3 | RightBtnFx.

(** What the object does to the outside, in program order. *)
Inductive Action : Type :=
| Out (o : Output)
| SendFxButtonEvent (pressed : bool) (c : FxControl)
| Write (fd code value : Z)
| Close (fd : Z)
| Start.

(** The members beyond those of the handlers. *)
Record Members : Type := mkMembers {
  m_iFd : Z;
  m_iId : Z;
  m_iInstNo : Z;
  m_bPlayLeft : bool;
  m_bPlayRight : bool;
  m_bLoopLeft : bool;
  m_bLoopRight : bool;
  m_bSyncLeft : bool;
  m_bSyncRight : bool;
  m_iLeftFxMode : Z;
  m_iRightFxMode : Z
}.

Definition set_m_iFd (v : Z) (m : Members) : Members :=
  mkMembers v (m_iId m) (m_iInstNo m) (m_bPlayLeft m) (m_bPlayRight m)
    (m_bLoopLeft m) (m_bLoopRight m) (m_bSyncLeft m) (m_bSyncRight m)
    (m_iLeftFxMode m) (m_iRightFxMode m).
Definition set_m_iId (v : Z) (m : Members) : Members :=
  mkMembers (m_iFd m) v (m_iInstNo m) (m_bPlayLeft m) (m_bPlayRight m)
    (m_bLoopLeft m) (m_bLoopRight m) (m_bSyncLeft m) (m_bSyncRight m)
    (m_iLeftFxMode m) (m_iRightFxMode m).
Definition set_m_iInstNo (v : Z) (m : Members) : Members :=
  mkMembers (m_iFd m) (m_iId m) v (m_bPlayLeft m) (m_bPlayRight m)
    (m_bLoopLeft m) (m_bLoopRight m) (m_bSyncLeft m) (m_bSyncRight m)
    (m_iLeftFxMode m) (m_iRightFxMode m).
Definition set_m_bPlayLeft (v : bool) (m : Members) : Members :=
  mkMembers (m_iFd m) (m_iId m) (m_iInstNo m) v (m_bPlayRight m)
    (m_bLoopLeft m) (m_bLoopRight m) (m_bSyncLeft m) (m_bSyncRight m)
    (m_iLeftFxMode m) (m_iRightFxMode m).
Definition set_m_bPlayRight (v : bool) (m : Members) : Members :=
  mkMembers (m_iFd m) (m_iId m) (m_iInstNo m) (m_bPlayLeft m) v
    (m_bLoopLeft m) (m_bLoopRight m) (m_bSyncLeft m) (m_bSyncRight m)
    (m_iLeftFxMode m) (m_iRightFxMode m).
Definition set_m_bLoopLeft (v : bool) (m : Members) : Members :=
  mkMembers (m_iFd m) (m_iId m) (m_iInstNo m) (m_bPlayLeft m) (m_bPlayRight m)
    v (m_bLoopRight m) (m_bSyncLeft m) (m_bSyncRight m)
    (m_iLeftFxMode m) (m_iRightFxMode m).
Definition set_m_bLoopRight (v : bool) (m : Members) : Members :=
  mkMembers (m_iFd m) (m_iId m) (m_iInstNo m) (m_bPlayLeft m) (m_bPlayRight m)
    (m_bLoopLeft m) v (m_bSyncLeft m) (m_bSyncRight m)
    (m_iLeftFxMode m) (m_iRightFxMode m).
Definition set_m_bSyncLeft (v : bool) (m : Members) : Members :=
  mkMembers (m_iFd m) (m_iId m) (m_iInstNo m) (m_bPlayLeft m) (m_bPlayRight m)
    (m_bLoopLeft m) (m_bLoopRight m) v (m_bSyncRight m)
    (m_iLeftFxMode m) (m_iRightFxMode m).
Definition set_m_bSyncRight (v : bool) (m : Members) : Members :=
  mkMembers (m_iFd m) (m_iId m) (m_iInstNo m) (m_bPlayLeft m) (m_bPlayRight m)
    (m_bLoopLeft m) (m_bLoopRight m) (m_bSyncLeft m) v
    (m_iLeftFxMode m) (m_iRightFxMode m).
Definition set_m_iLeftFxMode (v : Z) (m : Members) : Members :=
  mkMembers (m_iFd m) (m_iId m) (m_iInstNo m) (m_bPlayLeft m) (m_bPlayRight m)
    (m_bLoopLeft m) (m_bLoopRight m) (m_bSyncLeft m) (m_bSyncRight m)
    v (m_iRightFxMode m).
Definition set_m_iRightFxMode (v : Z) (m : Members) : Members :=
  mkMembers (m_iFd m) (m_iId m) (m_iInstNo m) (m_bPlayLeft m) (m_bPlayRight m)
    (m_bLoopLeft m) (m_bLoopRight m) (m_bSyncLeft m) (m_bSyncRight m)
    (m_iLeftFxMode m) v.

(** One [HerculesLinux] object, and the static list [sqlOpenDevs] that all
    objects share. *)
Record Object {Rotary : Type} : Type := mkObject {
  handler_members : HerculesLinux Rotary;
  members : Members;
  sqlOpenDevs : list Z
}.
Arguments Object : clear implicits.
Arguments mkObject {Rotary}.

Definition with_handler_members {Rotary : Type} (h : HerculesLinux Rotary)
  (o : Object Rotary) : Object Rotary :=
  mkObject h (members o) (sqlOpenDevs o).
Definition with_members {Rotary : Type} (m : Members) (o : Object Rotary)
  : Object Rotary :=
  mkObject (handler_members o) m (sqlOpenDevs o).
Definition with_sqlOpenDevs {Rotary : Type} (l : list Z) (o : Object Rotary)
  : Object Rotary :=
  mkObject (handler_members o) (members o) l.

(** Member functions as transformers of the object with a trace. *)
Definition D {Rotary : Type} (A : Type) : Type :=
  Object Rotary -> A * Object Rotary * list Action.

Definition pure {Rotary A : Type} (a : A) : D (Rotary := Rotary) A :=
  fun o => (a, o, []).

Definition and_then {Rotary A B : Type} (m : D (Rotary := Rotary) A)
  (k : A -> D (Rotary := Rotary) B) : D (Rotary := Rotary) B :=
  fun o =>
    let '(a, o1, t1) := m o in
    let '(b, o2, t2) := k a o1 in
    (b, o2, t1 ++ t2).

Definition read {Rotary A : Type} (f : Members -> A) : D (Rotary := Rotary) A :=
  fun o => (f (members o), o, []).
Definition update {Rotary : Type} (f : Members -> Members)
  : D (Rotary := Rotary) unit :=
  fun o => (tt, with_members (f (members o)) o, []).
Definition act {Rotary : Type} (a : Action) : D (Rotary := Rotary) unit :=
  fun o => (tt, o, [a]).
Definition if_then {Rotary : Type} (b : bool) (m : D (Rotary := Rotary) unit)
  : D (Rotary := Rotary) unit :=
  if b then m else pure tt.

(** A handler of the first part, run on the handler members. *)
Definition lift {Rotary A : Type} (m : M (Rotary := Rotary) A)
  : D (Rotary := Rotary) A :=
  fun o =>
    let '(a, h, out) := m (handler_members o) in
    (a, with_handler_members h o, map Out out).

Definition object_after {Rotary A : Type}
  (r : A * Object Rotary * list Action) : Object Rotary := snd (fst r).
Definition actions_of {Rotary A : Type}
  (r : A * Object Rotary * list Action) : list Action := snd r.
Definition returned {Rotary A : Type}
  (r : A * Object Rotary * list Action) : A := fst (fst r).

Declare Scope driver_scope.
Delimit Scope driver_scope with driver.
Notation "x <- m ;; k" := (and_then m (fun x => k))
  (at level 61, m at next level, right associativity) : driver_scope.
Notation "m ;; k" := (and_then m (fun _ => k))
  (at level 61, right associativity) : driver_scope.

(** What [open] and [ioctl(EVIOCGNAME)] give for [/dev/input/event<n>]:
    the descriptor (negative when [open] fails), [errno] after a failed
    [open], and the name, if [ioctl] succeeds. *)
Record Probe : Type := mkProbe {
  probe_fd : Z;
  probe_errno : Z;
  probe_name : option string
}.

(** The values of the four control proxies [run] reads. *)
Record RunProxies : Type := mkRunProxies {
  LeftBtnPlayProxy : double;
  RightBtnPlayProxy : double;
  LeftBtnLoopProxy : double;
  RightBtnLoopProxy : double
}.

(** [bool] compared with a [double]. *)
Definition double_of_bool (b : bool) : double := if b then 1%Q else 0%Q.

(** [Q3ValueList::find] followed by [remove] of the iterator. *)
Fixpoint remove_first (x : Z) (l : list Z) : list Z :=
  match l with
  | [] => []
  | y :: r => if x =? y then r else y :: remove_first x r
  end.

Section Driver.
Context {Rotary : Type} {rotary : RotaryOps Rotary}.
Variable c : Constants.
(** Whether [write] on a descriptor writes the whole event, and the text
    [strerror] gives when it does not. *)
Variable write_ok : Z -> Z -> Z -> bool.
Variable strerror : string.
(** [Hercules::changeJogMode], of the base class, which is not among the
    sources. *)
Variable changeJogMode : Z -> Z -> D (Rotary := Rotary) unit.
(** The devices [/dev/input/event<n>]. *)
Variable os : Z -> Probe.

Local Open Scope driver_scope.

Definition sendButtonEvent (pressed : bool) (ctl : ControlObject)
  : D (Rotary := Rotary) unit :=
  act (Out (SendButtonEvent pressed ctl)).
Definition sendFxButtonEvent (pressed : bool) (ctl : FxControl)
  : D (Rotary := Rotary) unit :=
  act (SendFxButtonEvent pressed ctl).
Definition qDebug (format : string) (texts : list string) (numbers : list Z)
  : D (Rotary := Rotary) unit :=
  act (Out (QDebug format texts numbers)).

(** [HerculesLinux::led_write(int iLed, bool bOn)]: an event of type 0 with
    the LED as code and 3 or 0 as value, written to the device. *)
Definition led_write (iLed : Z) (bOn : bool) : D (Rotary := Rotary) unit :=
  fd <- read m_iFd ;;
  let value := if bOn then 3 else 0 in
  act (Write fd iLed value) ;;
  if_then (negb (write_ok fd iLed value))
    (qDebug "Hercules: write(): %s" [strerror] []).

(** The branch of [getNextEvent] taken when [select] returns 0 or less. *)
Definition getNextEvent_timeout : M (Rotary := Rotary) unit :=
  (r <- Evdev.m_pRotaryLeft_filter 0%Q ;;
   old <- get m_dLeftVolumeOld ;;
   when (negb (Qeq_bool r 0) || negb (Qeq_bool r old))
     (sendEvent r LeftJog) ;;
   assign (set_m_dLeftVolumeOld r) ;;
   r <- Evdev.m_pRotaryRight_filter 0%Q ;;
   old <- get m_dRightVolumeOld ;;
   when (negb (Qeq_bool r 0) || negb (Qeq_bool r old))
     (sendEvent r RightJog) ;;
   assign (set_m_dRightVolumeOld r))%handler.

(** [changeJogMode(m_iLeftFxMode, m_iRightFxMode)]. *)
Definition call_changeJogMode : D (Rotary := Rotary) unit :=
  l <- read m_iLeftFxMode ;;
  r <- read m_iRightFxMode ;;
  changeJogMode l r.

(** The [switch (ev.code)] of a key event with [ev.value == 1], in the
    order of the source. *)
Definition key_press_cases : list (Z * D (Rotary := Rotary) unit) :=
  [ (kiHerculesLeftBtnPitchBendMinus c, sendButtonEvent true LeftBtnPitchBendMinus);
    (kiHerculesLeftBtnPitchBendPlus c, sendButtonEvent true LeftBtnPitchBendPlus);
    (kiHerculesLeftBtnTrackNext c, sendButtonEvent true LeftBtnTrackNext);
    (kiHerculesLeftBtnTrackPrev c, sendButtonEvent true LeftBtnTrackPrev);
    (kiHerculesLeftBtnCue c, sendButtonEvent true LeftBtnCue);
    (kiHerculesLeftBtnPlay c, sendButtonEvent true LeftBtnPlay);
    (kiHerculesLeftBtnAutobeat c,
       sendButtonEvent true LeftBtnAutobeat ;;
       b <- read m_bSyncLeft ;;
       update (set_m_bSyncLeft (negb b)));
    (kiHerculesLeftBtnMasterTempo c, pure tt);
    (kiHerculesLeftBtn1 c,
       update (set_m_iLeftFxMode 0) ;; call_changeJogMode ;;
       sendFxButtonEvent true LeftBtn1);
    (kiHerculesLeftBtn2 c,
       update (set_m_iLeftFxMode 1) ;; call_changeJogMode ;;
       sendFxButtonEvent true LeftBtn2);
    (kiHerculesLeftBtn3 c,
       update (set_m_iLeftFxMode 2) ;; call_changeJogMode ;;
       sendFxButtonEvent true LeftBtn3);
    (kiHerculesLeftBtnFx c, sendFxButtonEvent true LeftBtnFx);
    (kiHerculesLeftBtnHeadphone c,
       sendButtonEvent true LeftBtnHeadphone ;;
       b <- lift (get m_bHeadphoneLeft) ;;
       lift (assign (set_m_bHeadphoneLeft (negb b))) ;;
       b <- lift (get m_bHeadphoneLeft) ;;
       led_write (kiHerculesLedLeftHeadphone c) b);
    (kiHerculesRightBtnPitchBendMinus c, sendButtonEvent true RightBtnPitchBendMinus);
    (kiHerculesRightBtnPitchBendPlus c, sendButtonEvent true RightBtnPitchBendPlus);
    (kiHerculesRightBtnTrackNext c, sendButtonEvent true RightBtnTrackNext);
    (kiHerculesRightBtnTrackPrev c, sendButtonEvent true RightBtnTrackPrev);
    (kiHerculesRightBtnCue c, sendButtonEvent true RightBtnCue);
    (kiHerculesRightBtnPlay c, sendButtonEvent true RightBtnPlay);
    (kiHerculesRightBtnAutobeat c,
       sendButtonEvent true RightBtnAutobeat ;;
       b <- read m_bSyncRight ;;
       update (set_m_bSyncRight (negb b)));
    (kiHerculesRightBtnMasterTempo c, pure tt);
    (kiHerculesRightBtn1 c,
       update (set_m_iRightFxMode 0) ;; call_changeJogMode ;;
       sendFxButtonEvent true RightBtn1);
    (kiHerculesRightBtn2 c,
       update (set_m_iRightFxMode 1) ;; call_changeJogMode ;;
       sendFxButtonEvent true RightBtn2);
    (kiHerculesRightBtn3 c,
       update (set_m_iRightFxMode 2) ;; call_changeJogMode ;;
       sendFxButtonEvent true RightBtn3);
    (kiHerculesRightBtnFx c, sendFxButtonEvent true RightBtnFx);
    (kiHerculesRightBtnHeadphone c,
       sendButtonEvent true RightBtnHeadphone ;;
       b <- lift (get m_bHeadphoneRight) ;;
       lift (assign (set_m_bHeadphoneRight (negb b)))) ].

(** The [switch (ev.code)] of a key event with another [ev.value].  The body
    of [case kiHerculesLeftBtnHeadphone] has no [break] and runs on into
    that of [case kiHerculesRightBtnPitchBendMinus]. *)
Definition key_release_cases : list (Z * D (Rotary := Rotary) unit) :=
  [ (kiHerculesLeftBtnPitchBendMinus c, sendButtonEvent false LeftBtnPitchBendMinus);
    (kiHerculesLeftBtnPitchBendPlus c, sendButtonEvent false LeftBtnPitchBendPlus);
    (kiHerculesLeftBtnTrackNext c, pure tt);
    (kiHerculesLeftBtnTrackPrev c, pure tt);
    (kiHerculesLeftBtnCue c, sendButtonEvent false LeftBtnCue);
    (kiHerculesLeftBtnPlay c, sendButtonEvent false LeftBtnPlay);
    (kiHerculesLeftBtnAutobeat c, sendButtonEvent false LeftBtnAutobeat);
    (kiHerculesLeftBtnMasterTempo c, pure tt);
    (kiHerculesLeftBtn1 c,
       update (set_m_iLeftFxMode 0) ;; call_changeJogMode ;;
       sendFxButtonEvent false LeftBtn1);
    (kiHerculesLeftBtn2 c,
       update (set_m_iLeftFxMode 0) ;; call_changeJogMode ;;
       sendFxButtonEvent false LeftBtn2);
    (kiHerculesLeftBtn3 c,
       update (set_m_iLeftFxMode 0) ;; call_changeJogMode ;;
       sendFxButtonEvent false LeftBtn3);
    (kiHerculesLeftBtnFx c, sendFxButtonEvent false LeftBtnFx);
    (kiHerculesLeftBtnHeadphone c,
       sendButtonEvent false LeftBtnHeadphone ;;
       sendButtonEvent false RightBtnPitchBendMinus);
    (kiHerculesRightBtnPitchBendMinus c, sendButtonEvent false RightBtnPitchBendMinus);
    (kiHerculesRightBtnPitchBendPlus c, sendButtonEvent false RightBtnPitchBendPlus);
    (kiHerculesRightBtnTrackNext c, pure tt);
    (kiHerculesRightBtnTrackPrev c, pure tt);
    (kiHerculesRightBtnCue c, sendButtonEvent false RightBtnCue);
    (kiHerculesRightBtnPlay c, sendButtonEvent false RightBtnPlay);
    (kiHerculesRightBtnAutobeat c, sendButtonEvent false RightBtnAutobeat);
    (kiHerculesRightBtnMasterTempo c, pure tt);
    (kiHerculesRightBtn1 c,
       update (set_m_iRightFxMode 0) ;; call_changeJogMode ;;
       sendFxButtonEvent false RightBtn1);
    (kiHerculesRightBtn2 c,
       update (set_m_iRightFxMode 0) ;; call_changeJogMode ;;
       sendFxButtonEvent false RightBtn2);
    (kiHerculesRightBtn3 c,
       update (set_m_iRightFxMode 0) ;; call_changeJogMode ;;
       sendFxButtonEvent false RightBtn3);
    (kiHerculesRightBtnFx c, sendFxButtonEvent false RightBtnFx);
    (kiHerculesRightBtnHeadphone c, sendButtonEvent false RightBtnHeadphone) ].

(** [case EV_KEY] of [getNextEvent]. *)
Definition getNextEvent_EV_KEY (ev_code ev_value : Z) : D (Rotary := Rotary) unit :=
  if ev_value =? 1
  then switch ev_code key_press_cases (pure tt)
  else switch ev_code key_release_cases (pure tt).

(** [HerculesLinux::getNextEvent()].  [v] is what [select] returns; [ev]
    is the event [read] gives as type, code and value, or [None] when it
    reads another number of bytes. *)
Definition getNextEvent (v : Z) (ev : option (Z * Z * Z))
  : D (Rotary := Rotary) unit :=
  if v <=? 0 then lift getNextEvent_timeout
  else
    match ev with
    | Some (ev_type, ev_code, ev_value) =>
        switch ev_type
          [ (EV_ABS, lift (Evdev.getNextEvent_EV_ABS (abs_codes c) ev_code ev_value));
            (EV_KEY, getNextEvent_EV_KEY ev_code ev_value) ]
          (pure tt)
    | None => pure tt
    end.

(** The four comparisons of [run] after [getNextEvent]. *)
Definition sync_leds (p : RunProxies) : D (Rotary := Rotary) unit :=
  (b <- read m_bPlayLeft ;;
   if_then (negb (Qeq_bool (LeftBtnPlayProxy p) (double_of_bool b)))
     (update (set_m_bPlayLeft (negb b)) ;;
      b <- read m_bPlayLeft ;;
      led_write (kiHerculesLedLeftPlay c) b)) ;;
  (b <- read m_bPlayRight ;;
   if_then (negb (Qeq_bool (RightBtnPlayProxy p) (double_of_bool b)))
     (update (set_m_bPlayRight (negb b)) ;;
      b <- read m_bPlayRight ;;
      led_write (kiHerculesLedRightPlay c) b)) ;;
  (b <- read m_bLoopLeft ;;
   if_then (negb (Qeq_bool (LeftBtnLoopProxy p) (double_of_bool b)))
     (update (set_m_bLoopLeft (negb b)) ;;
      b <- read m_bLoopLeft ;;
      led_write (kiHerculesLedLeftCueBtn c) b)) ;;
  (b <- read m_bLoopRight ;;
   if_then (negb (Qeq_bool (RightBtnLoopProxy p) (double_of_bool b)))
     (update (set_m_bLoopRight (negb b)) ;;
      b <- read m_bLoopRight ;;
      led_write (kiHerculesLedRightCueBtn c) b)).

(** One comparison of [run], on the member read by [member] and written
    by [set_member]; [sync_leds] is four of them. *)
Definition sync_led (proxy : double) (member : Members -> bool)
  (set_member : bool -> Members -> Members) (iLed : Z)
  : D (Rotary := Rotary) unit :=
  b <- read member ;;
  if_then (negb (Qeq_bool proxy (double_of_bool b)))
    (update (set_member (negb b)) ;;
     b <- read member ;;
     led_write iLed b).

(** One turn of the loop of [HerculesLinux::run()]. *)
Definition run_turn (v : Z) (ev : option (Z * Z * Z)) (p : RunProxies)
  : D (Rotary := Rotary) unit :=
  getNextEvent v ev ;; sync_leds p.

(** The first turns of [run], which does not return. *)
Fixpoint run (turns : list (Z * option (Z * Z * Z) * RunProxies))
  : D (Rotary := Rotary) unit :=
  match turns with
  | [] => pure tt
  | (v, ev, p) :: rest => run_turn v ev p ;; run rest
  end.

Definition get_sqlOpenDevs : D (Rotary := Rotary) (list Z) :=
  fun o => (sqlOpenDevs o, o, []).
Definition set_sqlOpenDevs (l : list Z) : D (Rotary := Rotary) unit :=
  fun o => (tt, with_sqlOpenDevs l o, []).

(** The loop over [kqHerculesValidPrefix] of [opendev(int)], from index
    [i], with the [close] and [return -1] after it. *)
Fixpoint opendev_prefixes (prefixes : list string) (i iId iFd : Z)
  (rgcName : string) : D (Rotary := Rotary) Z :=
  match prefixes with
  | [] => act (Close iFd) ;; pure (-1)
  | prefix :: rest =>
      if String.eqb prefix rgcName then
        update (set_m_iId iId) ;;
        devs <- get_sqlOpenDevs ;;
        update (set_m_iInstNo (Z.of_nat (List.length devs))) ;;
        set_sqlOpenDevs (devs ++ [iId]) ;;
        qDebug "pm id %i" [] [iId] ;;
        pure iFd
      else
        qDebug "  %d. rgcName = [%s]" [rgcName] [i] ;;
        qDebug "  %d. kqHerculesValidPrefix[i] = [%s]" [prefix] [i] ;;
        opendev_prefixes rest (i + 1) iId iFd rgcName
  end.

(** [int HerculesLinux::opendev(int iId)]. *)
Definition opendev_id (iId : Z) : D (Rotary := Rotary) Z :=
  let iFd := probe_fd (os iId) in
  if iFd <? 0 then
    if_then (probe_errno (os iId) =? 13)
      (qDebug "If you have a Hercules device plugged into USB, you'll need to either execute 'sudo chmod o+rw- /dev/input/event?' or run mixxx as root." [] []) ;;
    pure (-1)
  else
    match probe_name (os iId) with
    | None =>
        qDebug "EVIOCGNAME got negative size at /dev/input/event%d" [] [iId] ;;
        act (Close iFd) ;;
        pure (-1)
    | Some rgcName =>
        opendev_prefixes (kqHerculesValidPrefix c) 0 iId iFd rgcName
    end.

(** The [for] loop of [opendev()] from [i], with [n] ids left below
    [kiHerculesNumEventDevices]. *)
Fixpoint opendev_loop (n : nat) (i : Z) : D (Rotary := Rotary) unit :=
  match n with
  | O => pure tt
  | S n' =>
      devs <- get_sqlOpenDevs ;;
      if negb (existsb (Z.eqb i) devs) then
        fd <- opendev_id i ;;
        update (set_m_iFd fd) ;;
        if 0 <=? fd then pure tt else opendev_loop n' (i + 1)
      else opendev_loop n' (i + 1)
  end.

(** [bool HerculesLinux::opendev()]. *)
Definition opendev : D (Rotary := Rotary) bool :=
  opendev_loop (Z.to_nat (kiHerculesNumEventDevices c)) 0 ;;
  fd <- read m_iFd ;;
  if 0 <? fd then
    qDebug "Hercules device @ %d" [] [fd] ;;
    act Start ;;
    led_write (kiHerculesLedLeftCueBtn c) false ;;
    led_write (kiHerculesLedRightCueBtn c) false ;;
    led_write (kiHerculesLedLeftPlay c) false ;;
    led_write (kiHerculesLedRightPlay c) false ;;
    led_write (kiHerculesLedLeftSync c) false ;;
    led_write (kiHerculesLedRightSync c) false ;;
    led_write (kiHerculesLedLeftHeadphone c) false ;;
    led_write (kiHerculesLedRightHeadphone c) false ;;
    pure true
  else
    qDebug "Hercules device (%d) not found!" [] [fd] ;;
    pure false.

(** [void HerculesLinux::closedev()]. *)
Definition closedev : D (Rotary := Rotary) unit :=
  fd <- read m_iFd ;;
  if_then (0 <? fd)
    (act (Close fd) ;;
     id <- read m_iId ;;
     devs <- get_sqlOpenDevs ;;
     set_sqlOpenDevs (remove_first id devs)) ;;
  update (set_m_iFd (-1)) ;;
  update (set_m_iId (-1)).
End Driver.

(** The constructor of the original implementation, on an object whose
    other members are those of [base]. *)
Definition constructor {Rotary : Type} (base : Object Rotary) : Object Rotary :=
  mkObject (Evdev.constructor (handler_members base))
    (set_m_iId (-1) (set_m_iFd (-1) (members base)))
    (sqlOpenDevs base).

(** No key code twice in the [switch]es. *)
Definition key_labels (c : Constants) : list Z :=
  [ kiHerculesLeftBtnPitchBendMinus c; kiHerculesLeftBtnPitchBendPlus c;
    kiHerculesLeftBtnTrackNext c; kiHerculesLeftBtnTrackPrev c;
    kiHerculesLeftBtnCue c; kiHerculesLeftBtnPlay c;
    kiHerculesLeftBtnAutobeat c; kiHerculesLeftBtnMasterTempo c;
    kiHerculesLeftBtn1 c; kiHerculesLeftBtn2 c; kiHerculesLeftBtn3 c;
    kiHerculesLeftBtnFx c; kiHerculesLeftBtnHeadphone c;
    kiHerculesRightBtnPitchBendMinus c; kiHerculesRightBtnPitchBendPlus c;
    kiHerculesRightBtnTrackNext c; kiHerculesRightBtnTrackPrev c;
    kiHerculesRightBtnCue c; kiHerculesRightBtnPlay c;
    kiHerculesRightBtnAutobeat c; kiHerculesRightBtnMasterTempo c;
    kiHerculesRightBtn1 c; kiHerculesRightBtn2 c; kiHerculesRightBtn3 c;
    kiHerculesRightBtnFx c; kiHerculesRightBtnHeadphone c ].

Definition constants_ok (c : Constants) : bool :=
  Evdev.constants_ok (abs_codes c) && distinctb (key_labels c).

End EvdevDriver.

(** ** The thread of the implementation over libdjconsole

    [HerculesLinux::run()] of the libdjconsole variant.  [consoleEvent]
    runs on libdjconsole's thread; a turn of the loop is taken without an
    event arriving in its middle. *)

Module LibDjConsoleRun.

(** The two further functions of [Rotary] that [run] calls. *)
Class RotaryBufferOps (Rotary : Type) : Type := {
  Rotary_setFilterLength : Rotary -> Z -> Rotary;
  Rotary_fillBuffer : Rotary -> double -> Rotary * double
}.

Section Run.
Context {Rotary : Type} {rotary : RotaryOps Rotary}
  {buffer : RotaryBufferOps Rotary}.
Variable c : LibDjConsole.Constants.

Local Open Scope handler_scope.

Definition m_pRotaryLeft_setFilterLength (n : Z) : M (Rotary := Rotary) unit :=
  assign (fun s =>
    set_m_pRotaryLeft (Rotary_setFilterLength (m_pRotaryLeft s) n) s).
Definition m_pRotaryRight_setFilterLength (n : Z) : M (Rotary := Rotary) unit :=
  assign (fun s =>
    set_m_pRotaryRight (Rotary_setFilterLength (m_pRotaryRight s) n) s).
Definition m_pRotaryLeft_fillBuffer (x : double) : M (Rotary := Rotary) double :=
  fun s =>
    let '(r, y) := Rotary_fillBuffer (m_pRotaryLeft s) x in
    (y, set_m_pRotaryLeft r s, []).
Definition m_pRotaryRight_fillBuffer (x : double) : M (Rotary := Rotary) double :=
  fun s =>
    let '(r, y) := Rotary_fillBuffer (m_pRotaryRight s) x in
    (y, set_m_pRotaryRight r s, []).

(** [run] before its loop. *)
Definition run_setup : M (Rotary := Rotary) unit :=
  m_pRotaryLeft_setFilterLength 4 ;;
  m_pRotaryRight_setFilterLength 4 ;;
  LibDjConsole.m_pRotaryLeft_setCalibration 64 ;;
  LibDjConsole.m_pRotaryRight_setCalibration 64 ;;
  Leds_setBit (LibDjConsole.LEFT_FX c) false ;;
  Leds_setBit (LibDjConsole.LEFT_FX_CUE c) false ;;
  Leds_setBit (LibDjConsole.LEFT_LOOP c) true ;;
  Leds_setBit (LibDjConsole.RIGHT_FX c) false ;;
  Leds_setBit (LibDjConsole.RIGHT_FX_CUE c) false ;;
  Leds_setBit (LibDjConsole.RIGHT_LOOP c) true.

(** One turn of the loop, on the locals [leftJogProcessing] and
    [rightJogProcessing], which it returns. *)
Definition run_turn (leftJogProcessing rightJogProcessing : bool)
  : M (Rotary := Rotary) (bool * bool) :=
  jog <- get m_iJogLeft ;;
  left <-
    (if negb (jog =? 0) then
       l <- m_pRotaryLeft_fillBuffer (double_of_int jog) ;;
       assign (set_m_iJogLeft 0) ;;
       ret (l, true)
     else
       l <- Evdev.m_pRotaryLeft_filter (double_of_int jog) ;;
       ret (l, leftJogProcessing)) ;;
  jog <- get m_iJogRight ;;
  right <-
    (if negb (jog =? 0) then
       r <- m_pRotaryRight_fillBuffer (double_of_int jog) ;;
       assign (set_m_iJogRight 0) ;;
       ret (r, true)
     else
       r <- Evdev.m_pRotaryRight_filter (double_of_int jog) ;;
       ret (r, rightJogProcessing)) ;;
  let '(l, leftJogProcessing) := left in
  let '(r, rightJogProcessing) := right in
  leftJogProcessing <-
    (if negb (Qeq_bool l 0) || leftJogProcessing then
       sendEvent l LeftJog ;;
       ret (if Qeq_bool l 0 then false else leftJogProcessing)
     else ret leftJogProcessing) ;;
  rightJogProcessing <-
    (if negb (Qeq_bool r 0) || rightJogProcessing then
       sendEvent r RightJog ;;
       ret (if Qeq_bool r 0 then false else rightJogProcessing)
     else ret rightJogProcessing) ;;
  ret (leftJogProcessing, rightJogProcessing).

(** The first [n] turns of the loop, which does not end. *)
Fixpoint run_turns (n : nat) (leftJogProcessing rightJogProcessing : bool)
  : M (Rotary := Rotary) (bool * bool) :=
  match n with
  | O => ret (leftJogProcessing, rightJogProcessing)
  | S n' =>
      flags <- run_turn leftJogProcessing rightJogProcessing ;;
      run_turns n' (fst flags) (snd flags)
  end.
End Run.

End LibDjConsoleRun.

(** The non-zero values of a sequence. *)
Definition nonzero (y : double) : bool := negb (Qeq_bool y 0).

(** A sequence up to its first zero, and the non-zero values after it. *)
Fixpoint until_zero (l : list double) : list double :=
  match l with
  | [] => []
  | y :: rest =>
      if Qeq_bool y 0 then y :: filter nonzero rest else y :: until_zero rest
  end.

(** Modelled from the spec: [rotary.h] and [rotary.cpp] are missing.  The
    filter of length one of [example_rotary], which keeps no buffer. *)
#[export] Instance example_buffer : LibDjConsoleRun.RotaryBufferOps Z := {
  LibDjConsoleRun.Rotary_setFilterLength := fun r _ => r;
  LibDjConsoleRun.Rotary_fillBuffer := fun r x => (r, (x / inject_Z r)%Q)
}.

(** ** Quantities the properties of the original implementation speak of *)

(** The values a trace sends to the jog controls. *)
Definition left_jog_values (out : list Output) : list double :=
  flat_map (fun o => match o with SendEvent v LeftJog => [v] | _ => [] end) out.
Definition right_jog_values (out : list Output) : list double :=
  flat_map (fun o => match o with SendEvent v RightJog => [v] | _ => [] end) out.

Definition is_jog_event (o : Output) : bool :=
  match o with
  | SendEvent _ LeftJog | SendEvent _ RightJog => true
  | _ => false
  end.

(** What a rotary gives when fed 0 [n] times in a row. *)
Fixpoint idle_outputs {Rotary : Type} {rotary : RotaryOps Rotary}
  (r : Rotary) (n : nat) : list double :=
  match n with
  | O => []
  | S n' =>
      let '(r', y) := Rotary_filter r 0%Q in
      y :: idle_outputs r' n'
  end.

(** A sequence of values without the zeros that follow a zero, [old] being
    the value before the first. *)
Fixpoint drop_repeated_zeros (old : double) (l : list double) : list double :=
  match l with
  | [] => []
  | y :: rest =>
      if Qeq_bool y 0 && Qeq_bool old 0
      then drop_repeated_zeros y rest
      else y :: drop_repeated_zeros y rest
  end.

(** A proxy value that is 0 or 1, as a [bool] compares equal to. *)
Definition is_switch (x : double) : bool := Qeq_bool x 0 || Qeq_bool x 1.

(** The event written when an LED goes from [old] to [new]. *)
Definition led_change (fd iLed : Z) (old new : bool) : list (Z * Z * Z) :=
  if Bool.eqb old new then [] else [(fd, iLed, if new then 3 else 0)].

(** The ids [opendev()] goes through: [n] ids from [i]. *)
Fixpoint ids_from (i : Z) (n : nat) : list Z :=
  match n with
  | O => []
  | S n' => i :: ids_from (i + 1) n'
  end.
Definition event_ids (c : EvdevDriver.Constants) : list Z :=
  ids_from 0 (Z.to_nat (EvdevDriver.kiHerculesNumEventDevices c)).

(** An id no object has registered. *)
Definition is_free (devs : list Z) (i : Z) : bool :=
  negb (existsb (Z.eqb i) devs).

(** A device that opens and whose name is one of the valid names. *)
Definition usable (c : EvdevDriver.Constants) (os : Z -> EvdevDriver.Probe)
  (i : Z) : bool :=
  (0 <=? EvdevDriver.probe_fd (os i))
  && match EvdevDriver.probe_name (os i) with
     | Some name =>
         existsb (fun prefix => String.eqb prefix name)
           (EvdevDriver.kqHerculesValidPrefix c)
     | None => false
     end.

(** The first free id with a usable device. *)
Definition first_usable (c : EvdevDriver.Constants)
  (os : Z -> EvdevDriver.Probe) (devs : list Z) : option Z :=
  find (usable c os) (filter (is_free devs) (event_ids c)).

(** The object when [opendev(int)] has registered [iId] and [opendev()]
    has stored the descriptor. *)
Definition registered {Rotary : Type} (os : Z -> EvdevDriver.Probe)
  (iId : Z) (o : EvdevDriver.Object Rotary) : EvdevDriver.Object Rotary :=
  EvdevDriver.mkObject (EvdevDriver.handler_members o)
    (EvdevDriver.set_m_iFd (EvdevDriver.probe_fd (os iId))
      (EvdevDriver.set_m_iInstNo
        (Z.of_nat (List.length (EvdevDriver.sqlOpenDevs o)))
        (EvdevDriver.set_m_iId iId (EvdevDriver.members o))))
    (EvdevDriver.sqlOpenDevs o ++ [iId]).

(** What [select] and [read] give is a key event. *)
Definition is_key_event (v : Z) (ev : option (Z * Z * Z)) : bool :=
  negb (v <=? 0)
  && match ev with
     | Some (ev_type, _, _) => ev_type =? EvdevDriver.EV_KEY
     | None => false
     end.

(** The LED members equal the proxies. *)
Definition leds_synced (p : EvdevDriver.RunProxies) (m : EvdevDriver.Members)
  : Prop :=
  EvdevDriver.m_bPlayLeft m = Qeq_bool (EvdevDriver.LeftBtnPlayProxy p) 1
  /\ EvdevDriver.m_bPlayRight m = Qeq_bool (EvdevDriver.RightBtnPlayProxy p) 1
  /\ EvdevDriver.m_bLoopLeft m = Qeq_bool (EvdevDriver.LeftBtnLoopProxy p) 1
  /\ EvdevDriver.m_bLoopRight m = Qeq_bool (EvdevDriver.RightBtnLoopProxy p) 1.

(** The outputs among the actions of a trace. *)
Definition outputs_of (actions : list EvdevDriver.Action) : list Output :=
  flat_map (fun a => match a with EvdevDriver.Out o => [o] | _ => [] end)
    actions.

(** The button events of a trace, as pressed or released. *)
Definition button_events (actions : list EvdevDriver.Action) : list bool :=
  flat_map (fun a =>
              match a with
              | EvdevDriver.Out (SendButtonEvent pressed _) => [pressed]
              | EvdevDriver.SendFxButtonEvent pressed _ => [pressed]
              | _ => []
              end) actions.

(** The events written to the device. *)
Definition device_writes (actions : list EvdevDriver.Action)
  : list (Z * Z * Z) :=
  flat_map (fun a =>
              match a with
              | EvdevDriver.Write fd code value => [(fd, code, value)]
              | _ => []
              end) actions.

(** ** An object of the original implementation for the examples

    The key codes, LED codes and device names are example values;
    [hercules.h] is not among the sources. *)
Definition example_keys : EvdevDriver.Constants :=
  EvdevDriver.mkConstants example_evdev
    256 257 258 259 260 261 262 263 264 265 266 267 268
    269 270 271 272 273 274 275 276 277 278 279 280 281
    1 2 3 4 5 6 7 8
    4
    ["Hercules DJ Console"; "Hercules DJ Console Mk2"]%string.

Definition example_members : EvdevDriver.Members :=
  EvdevDriver.mkMembers (-1) (-1) 0 false false false false false false 0 0.

Definition example_object : EvdevDriver.Object Z :=
  EvdevDriver.mkObject example_base example_members [].

(** Four event devices: a keyboard, one that may not be opened, a console,
    and one that does not exist. *)
Definition example_os (i : Z) : EvdevDriver.Probe :=
  if i =? 0 then EvdevDriver.mkProbe 3 0 (Some "AT keyboard"%string)
  else if i =? 1 then EvdevDriver.mkProbe (-1) 13 None
  else if i =? 2 then
    EvdevDriver.mkProbe 5 0 (Some "Hercules DJ Console Mk2"%string)
  else EvdevDriver.mkProbe (-1) 2 None.

Definition example_write_ok (fd code value : Z) : bool := true.

Definition example_changeJogMode (l r : Z) : EvdevDriver.D (Rotary := Z) unit :=
  EvdevDriver.pure tt.

(** * Properties *)

(** ** Machine integers *)

Lemma to_int_id (z : Z) : in_int z -> to_int z = z.
Proof.
  unfold in_int, int_min, int_max, to_int. intros H.
  rewrite Z.mod_small by lia. lia.
Qed.

(** The sum of two [int] values taken in [double] comes back as it is when
    it is an [int]. *)
Lemma int_of_double_sum (a b : Z) :
  in_int (a + b) ->
  int_of_double (double_of_int a + double_of_int b)%Q = a + b.
Proof.
  unfold in_int, int_of_double, double_of_int. intros H.
  cbn [Qplus inject_Z Qnum Qden Pos.mul].
  rewrite !Z.mul_1_r, Z.quot_1_r.
  destruct (Z.leb_spec int_min (a + b)); [|lia].
  destruct (Z.leb_spec (a + b) int_max); [reflexivity | lia].
Qed.

(** Replaces the 32-bit operations of the goal by the exact ones, given
    that [lia] can bound their arguments. *)
Ltac exact_ints :=
  unfold int_add, int_sub, int_neg, int_mul;
  repeat match goal with
    | |- context [to_int ?z] =>
        rewrite (to_int_id z) by (unfold in_int, int_min, int_max; lia)
    end.

(** ** Jog wheels *)

Lemma jog_raw_diff_exact (old value : Z) :
  in_int old -> 0 <= value <= 255 ->
  jog_raw_diff old value = if 0 <=? old then value - old else 0.
Proof.
  unfold jog_raw_diff, in_int, int_min, int_max. intros Ho Hv.
  destruct (Z.leb_spec 0 old); [exact_ints|]; reflexivity.
Qed.

Lemma jog_rollover_exact (iDiff : Z) :
  -2147483648 <= iDiff <= 255 ->
  jog_rollover iDiff =
    if iDiff <? -200 then iDiff + 256
    else if 200 <? iDiff then iDiff - 256 else iDiff.
Proof.
  unfold jog_rollover. intros H.
  destruct (Z.ltb_spec iDiff (-200)); [exact_ints; reflexivity|].
  destruct (Z.ltb_spec 200 iDiff); [exact_ints|]; reflexivity.
Qed.

(** The statements of the source compute the specified delta, for every
    stored value a 32-bit member can hold and every raw value. *)
Lemma jog_iDiff_unwrap (member value : Z) :
  in_int member -> 0 <= value <= 255 ->
  jog_iDiff member value
  = fst (DeltaUnwrapper_unwrap (stored_previous member) value).
Proof.
  intros Hm Hv. unfold jog_iDiff.
  rewrite jog_raw_diff_exact by assumption.
  unfold stored_previous, DeltaUnwrapper_unwrap.
  unfold in_int, int_min, int_max in Hm.
  destruct (Z.leb_spec 0 member) as [Hs|Hs];
    destruct (Z.ltb_spec member 0) as [Hs'|Hs']; try lia.
  - rewrite jog_rollover_exact by lia. reflexivity.
  - reflexivity.
Qed.

Lemma unwrap_new_previous (previous : option Z) (current : Z) :
  snd (DeltaUnwrapper_unwrap previous current) = current.
Proof. destruct previous; reflexivity. Qed.

(** ** [switch] *)

Lemma distinctb_cons (x : Z) (l : list Z) :
  distinctb (x :: l) = true -> ~ In x l /\ distinctb l = true.
Proof.
  simpl. rewrite andb_true_iff, negb_true_iff. intros [Hx Hl]. split; [|exact Hl].
  intros Hin. assert (existsb (Z.eqb x) l = true) as E.
  { apply existsb_exists. exists x. split; [exact Hin | apply Z.eqb_refl]. }
  congruence.
Qed.

(** With distinct labels, the label selects its body wherever it stands. *)
Lemma switch_hit {A : Type} (x : Z) (body : A) (cases : list (Z * A))
  (default : A) :
  distinctb (map fst cases) = true ->
  In (x, body) cases ->
  switch x cases default = body.
Proof.
  induction cases as [|[l b] rest IH]; simpl map; intros Hd Hin.
  - destruct Hin.
  - apply distinctb_cons in Hd. destruct Hd as [Hl Hrest].
    cbn [switch]. destruct Hin as [Heq|Hin].
    + inversion Heq. subst. now rewrite Z.eqb_refl.
    + destruct (Z.eqb_spec x l) as [->|_].
      * exfalso. apply Hl. change l with (fst (l, body)). now apply in_map.
      * now apply IH.
Qed.

Lemma switch_miss {A : Type} (x : Z) (cases : list (Z * A)) (default : A) :
  existsb (Z.eqb x) (map fst cases) = false ->
  switch x cases default = default.
Proof.
  induction cases as [|[l b] rest IH]; simpl; [reflexivity|].
  rewrite orb_false_iff. intros [-> H]. now apply IH.
Qed.

(** What holds of the default and of every body whose label is [x] holds of
    the selected one. *)
Lemma switch_elim {A : Type} (P : A -> Prop) (x : Z) (cases : list (Z * A))
  (default : A) :
  P default ->
  Forall (fun lb => x = fst lb -> P (snd lb)) cases ->
  P (switch x cases default).
Proof.
  intros Hd Hc. induction Hc as [|[l b] rest Hlb _ IH]; simpl; [exact Hd|].
  destruct (Z.eqb_spec x l) as [E|_]; [now apply Hlb | exact IH].
Qed.

Lemma existsb_app_false {A : Type} (f : A -> bool) (l1 l2 : list A) :
  existsb f (l1 ++ l2) = false ->
  existsb f l1 = false /\ existsb f l2 = false.
Proof. rewrite existsb_app. apply orb_false_iff. Qed.

(** ** Members

    Computes assignments to members and reads of members. *)
Ltac members :=
  cbv [set_m_iPitchLeft set_m_iPitchRight set_m_iPitchOffsetLeft
       set_m_iPitchOffsetRight set_m_iJogLeft set_m_iJogRight
       set_m_dJogLeftOld set_m_dJogRightOld set_m_dLeftVolumeOld
       set_m_dRightVolumeOld set_m_bHeadphoneLeft set_m_bHeadphoneRight
       set_m_bMasterTempoLeft set_m_bMasterTempoRight
       set_m_iHerculesHeadphonesSelection set_m_pRotaryLeft
       set_m_pRotaryRight
       m_iPitchLeft m_iPitchRight m_iPitchOffsetLeft m_iPitchOffsetRight
       m_iJogLeft m_iJogRight m_dJogLeftOld m_dJogRightOld m_dLeftVolumeOld
       m_dRightVolumeOld m_bHeadphoneLeft m_bHeadphoneRight
       m_bMasterTempoLeft m_bMasterTempoRight
       m_iHerculesHeadphonesSelection m_pRotaryLeft m_pRotaryRight].

(** ** The libdjconsole handler: structure of a run *)

Lemma LibDjConsole_PitchChange_trace (side : string) (ev previous offset : Z) :
  forallb is_qdebug (snd (LibDjConsole.PitchChange side ev previous offset))
  = true.
Proof.
  unfold LibDjConsole.PitchChange.
  destruct (previous <? 0); reflexivity.
Qed.

Lemma leds_no_sink_writes (leds : list Output) :
  forallb (fun o => negb (is_sink_write o) && negb (is_qdebug o)) leds = true ->
  sink_writes leds = [] /\ filter is_qdebug leds = [].
Proof.
  induction leds as [|o leds IH]; [split; reflexivity|].
  simpl. rewrite !andb_true_iff, !negb_true_iff.
  intros [[Hs Hq] H]. rewrite Hs, Hq. now apply IH.
Qed.

Lemma sink_writes_app (o1 o2 : list Output) :
  sink_writes (o1 ++ o2) = sink_writes o1 ++ sink_writes o2.
Proof. apply filter_app. Qed.

Section ConsoleEventFacts.
Context {Rotary : Type} {rotary : RotaryOps Rotary}.
Variable c : LibDjConsole.Constants.
Variable proxies : LibDjConsole.Proxies.

(** A call of [PitchChange] on two members followed by [sendEvent]. *)
Lemma pitch_call_run (f : Z -> Z -> double * Z * Z * list Output)
  (previous : HerculesLinux Rotary -> Z) set_previous
  (offset : HerculesLinux Rotary -> Z) set_offset
  (ctl : ControlObject) (s : HerculesLinux Rotary) :
  bind (by_reference f previous set_previous offset set_offset)
    (fun v => sendEvent v ctl) s
  = (tt,
     set_offset (snd (fst (f (previous s) (offset s))))
       (set_previous (snd (fst (fst (f (previous s) (offset s))))) s),
     snd (f (previous s) (offset s))
       ++ [SendEvent (fst (fst (fst (f (previous s) (offset s))))) ctl]).
Proof.
  unfold bind, by_reference.
  destruct (f (previous s) (offset s)) as [[[r p] o] out]. reflexivity.
Qed.

(** The four headphone selector cases: when the guard of the case holds
    the run is that of an accepted transition, otherwise nothing happens. *)
Lemma selector_cases_run (second : Z) (s : HerculesLinux Rotary) :
  LibDjConsole.case_103 c second s
  = (if second =? 4 then accepted_run c SPLIT s else (tt, s, []))
  /\ LibDjConsole.case_102 c second s
     = (if second =? 8 then accepted_run c MIX s else (tt, s, []))
  /\ LibDjConsole.case_101 c second s
     = (if (second =? 2)
           && ((m_iHerculesHeadphonesSelection s
                =? LibDjConsole.kiHerculesHeadphoneDeckA c)
               || (m_iHerculesHeadphonesSelection s
                   =? LibDjConsole.kiHerculesHeadphoneMix c))
        then accepted_run c DECK_B s else (tt, s, []))
  /\ LibDjConsole.case_100 c second s
     = (if (second =? 1)
           && (m_iHerculesHeadphonesSelection s
               =? LibDjConsole.kiHerculesHeadphoneDeckB c)
        then accepted_run c DECK_A s else (tt, s, [])).
Proof.
  unfold LibDjConsole.case_103, LibDjConsole.case_102,
    LibDjConsole.case_101, LibDjConsole.case_100, accepted_run.
  destruct s as [? ? ? ? ? ? ? ? ? ? l r ? ? sel ? ?]; cbn.
  repeat split;
    repeat match goal with
      | |- context [if ?b then _ else _] => destruct b; cbn
      end;
    destruct l, r; reflexivity.
Qed.

Lemma accepted_run_trace (target : HeadphoneSelectorState)
  (s : HerculesLinux Rotary) (ctl : ControlObject) :
  ~ In (SendButtonEvent false ctl) (trace_of (accepted_run c target s)).
Proof.
  unfold accepted_run, toggle_writes, trace_of. cbn [snd].
  destruct (Bool.eqb _ _), (Bool.eqb _ _); simpl;
    intuition discriminate.
Qed.

Lemma led_switch_run (first : Z) (st : HerculesLinux Rotary) :
  exists led rl rr leds,
    switch first (LibDjConsole.led_cases c first) (ret 0) st
    = (led, set_m_pRotaryRight rr (set_m_pRotaryLeft rl st), leds)
    /\ (led = 0 \/ led = first)
    /\ forallb (fun o => negb (is_sink_write o) && negb (is_qdebug o)) leds
       = true.
Proof.
  revert st. apply switch_elim.
  - intros st. destruct st; do 4 eexists; cbn; members.
    split; [reflexivity|]. auto.
  - unfold LibDjConsole.led_cases.
    repeat apply Forall_cons; try apply Forall_nil; intros _ st;
      destruct st; do 4 eexists; cbn; members;
      (split; [reflexivity|]); auto.
Qed.

(** An event with a value and a control code other than zero: the first
    [switch] may recalibrate a rotary and light LEDs, then the second
    [switch] runs, then the LED of the control is set. *)
Lemma consoleEvent_run (first second : Z) (st : HerculesLinux Rotary) :
  second <> 0 -> first <> 0 ->
  exists led rl rr leds,
    (led = 0 \/ led = first)
    /\ forallb (fun o => negb (is_sink_write o) && negb (is_qdebug o)) leds
       = true
    /\ let r := switch first (LibDjConsole.dispatch_cases c proxies second)
                  (qDebug "Button %i = %i" [] [first; second])
                  (set_m_pRotaryRight rr (set_m_pRotaryLeft rl st)) in
       LibDjConsole.consoleEvent c proxies first second st
       = (tt, state_after r,
          leds ++ trace_of r
            ++ (if led =? 0 then [] else [LedsSetBit led true])).
Proof.
  intros Hs Hf. unfold LibDjConsole.consoleEvent.
  apply Z.eqb_neq in Hs, Hf. rewrite Hs, Hf. cbn [negb when].
  destruct (led_switch_run first st)
    as (led & rl & rr & leds & E & Hled & Hleds).
  exists led, rl, rr, leds. split; [exact Hled|]. split; [exact Hleds|].
  cbv zeta. unfold bind at 1. rewrite E. unfold bind at 1.
  match goal with
  | |- context [switch first ?cs ?d ?s] =>
      destruct (switch first cs d s) as [[[] s2] o2]
  end.
  unfold state_after, trace_of. cbn [fst snd].
  destruct (led =? 0); cbn; rewrite ?app_nil_r; reflexivity.
Qed.

Lemma dispatch_keeps_selection (first second : Z) (s : HerculesLinux Rotary) :
  first <> 103 -> first <> 102 -> first <> 101 -> first <> 100 ->
  m_iHerculesHeadphonesSelection
    (state_after
       (switch first (LibDjConsole.dispatch_cases c proxies second)
          (qDebug "Button %i = %i" [] [first; second]) s))
  = m_iHerculesHeadphonesSelection s.
Proof.
  intros H3 H2 H1 H0. revert s. apply switch_elim.
  - reflexivity.
  - unfold LibDjConsole.dispatch_cases.
    repeat apply Forall_cons; try apply Forall_nil; cbn [fst snd];
      intros E s; try contradiction;
      rewrite ?pitch_call_run;
      try match goal with |- context [if ?b then _ else _] => destruct b end;
      reflexivity.
Qed.

(** No case sends a button release, except the two auto-beat cases. *)
Lemma dispatch_releases (first second : Z) (s : HerculesLinux Rotary)
  (ctl : ControlObject) :
  In (SendButtonEvent false ctl)
    (trace_of
       (switch first (LibDjConsole.dispatch_cases c proxies second)
          (qDebug "Button %i = %i" [] [first; second]) s)) ->
  ctl = LeftBtnAutobeat \/ ctl = RightBtnAutobeat.
Proof.
  revert s. apply switch_elim.
  - cbn. intros s [H|[]]. discriminate H.
  - pose proof selector_cases_run second as V.
    unfold LibDjConsole.dispatch_cases.
    repeat apply Forall_cons; try apply Forall_nil; cbn [fst snd];
      intros _ s; destruct (V s) as (V3 & V2 & V1 & V0).
    all: rewrite ?pitch_call_run, ?V3, ?V2, ?V1, ?V0.
    all: try (cbn;
              repeat match goal with
                | |- context [if ?b then _ else _] => destruct b; cbn
                end;
              intuition (try discriminate; congruence); fail).
    1-4: match goal with
         | |- context [if ?b then _ else _] => destruct b
         end;
         intros H; [now apply accepted_run_trace in H | destruct H].
    all: unfold trace_of; cbn [snd]; intros H; apply in_app_or in H;
      destruct H as [H|[H|[]]]; [|discriminate H];
      pose proof (LibDjConsole_PitchChange_trace) as T;
      match type of H with
      | In _ (snd (LibDjConsole.PitchChange ?a ?b ?p ?o)) =>
          specialize (T a b p o)
      end;
      rewrite forallb_forall in T; apply T in H; discriminate H.
Qed.
End ConsoleEventFacts.

(** ** The libdjconsole handler: the headphone selector *)

Section HeadphoneSelector.
Context {Rotary : Type} {rotary : RotaryOps Rotary}.
Variable c : LibDjConsole.Constants.
Variable proxies : LibDjConsole.Proxies.
Hypothesis c_ok : LibDjConsole.constants_ok c = true.

Lemma dispatch_hit (first second : Z) (body default : M (Rotary := Rotary) unit) :
  In (first, body) (LibDjConsole.dispatch_cases c proxies second) ->
  switch first (LibDjConsole.dispatch_cases c proxies second) default = body.
Proof.
  apply switch_hit.
  change (distinctb (LibDjConsole.dispatch_labels c) = true).
  unfold LibDjConsole.constants_ok in c_ok.
  apply andb_true_iff in c_ok. destruct c_ok as [H _].
  apply andb_true_iff in H. apply H.
Qed.

Lemma selections_distinct (s1 s2 : HeadphoneSelectorState) :
  (selection_of c s1 =? selection_of c s2) = true -> s1 = s2.
Proof.
  unfold LibDjConsole.constants_ok in c_ok.
  apply andb_true_iff in c_ok. destruct c_ok as [_ H].
  cbn in H. rewrite !orb_false_r in H.
  rewrite !andb_true_iff, !negb_true_iff, !orb_false_iff in H.
  rewrite !Z.eqb_neq in H. rewrite Z.eqb_eq.
  destruct s1, s2; cbn; intros E; try reflexivity; exfalso; intuition congruence.
Qed.

(** The selection after a selector event, in a state that stands for
    [state]. *)
Lemma selector_event_run (state : HeadphoneSelectorState) (first second : Z)
  (s : HerculesLinux Rotary) :
  In first [103; 102; 101; 100] ->
  m_iHerculesHeadphonesSelection s = selection_of c state ->
  switch first (LibDjConsole.dispatch_cases c proxies second)
    (qDebug "Button %i = %i" [] [first; second]) s
  = match accepted_transition state first second with
    | Some target => accepted_run c target s
    | None => (tt, s, [])
    end.
Proof.
  intros Hin Hsel.
  destruct (selector_cases_run c second s) as (V3 & V2 & V1 & V0).
  assert (forall t, (m_iHerculesHeadphonesSelection s =? selection_of c t)
                    = true -> state = t) as Inj.
  { intros t. rewrite Hsel. apply selections_distinct. }
  assert (forall t, state <> t ->
            (m_iHerculesHeadphonesSelection s =? selection_of c t) = false)
    as Neq.
  { intros t N.
    destruct (m_iHerculesHeadphonesSelection s =? selection_of c t) eqn:E;
      [|reflexivity].
    apply Inj in E. contradiction. }
  simpl in Hin. destruct Hin as [<-|[<-|[<-|[<-|[]]]]];
    (rewrite dispatch_hit with (body := _) by
       (unfold LibDjConsole.dispatch_cases; simpl; tauto)).
  - rewrite V3. unfold accepted_transition. cbn. now destruct (second =? 4).
  - rewrite V2. unfold accepted_transition. cbn. now destruct (second =? 8).
  - rewrite V1. unfold accepted_transition. cbn. destruct (second =? 2); [|reflexivity]. cbn.
    change (LibDjConsole.kiHerculesHeadphoneDeckA c)
      with (selection_of c DECK_A).
    change (LibDjConsole.kiHerculesHeadphoneMix c) with (selection_of c MIX).
    destruct state;
      rewrite ?(Neq DECK_A), ?(Neq MIX) by discriminate;
      rewrite ?Hsel, ?Z.eqb_refl, ?orb_true_r; reflexivity.
  - rewrite V0. unfold accepted_transition. cbn. destruct (second =? 1); [|reflexivity]. cbn.
    change (LibDjConsole.kiHerculesHeadphoneDeckB c)
      with (selection_of c DECK_B).
    destruct state;
      rewrite ?(Neq DECK_B) by discriminate;
      rewrite ?Hsel, ?Z.eqb_refl; reflexivity.
Qed.

Lemma accepted_transition_event (state target : HeadphoneSelectorState)
  (first second : Z) :
  accepted_transition state first second = Some target ->
  In first [103; 102; 101; 100] /\ second <> 0 /\ first <> 0.
Proof.
  unfold accepted_transition.
  repeat match goal with
    | |- context [(?a =? ?b) && (?x =? ?y)] =>
        destruct (Z.eqb_spec a b); destruct (Z.eqb_spec x y);
        cbn [andb]
    end;
    intros H; try discriminate H; subst; simpl; intuition lia.
Qed.

Lemma sink_writes_toggle (left right : bool)
  (target : HeadphoneSelectorState) :
  sink_writes (toggle_writes left right target)
  = toggle_writes left right target.
Proof.
  unfold toggle_writes.
  destruct (Bool.eqb _ _), (Bool.eqb _ _); reflexivity.
Qed.

(** C4. The headphone selector.  In an object whose selection stands for
    [state], an event [(first, second)] leaves the selection that the
    specified machine reaches from [state]: SPLIT on (103,4) and MIX on
    (102,8) from any state, DECK_B on (101,2) from DECK_A or MIX, DECK_A
    on (100,1) from DECK_B, and [state] itself on any other event.  An
    event on one of the four selector codes that is not accepted changes
    no decoder state and writes to no sink. *)
Theorem headphone_selector_transitions (state : HeadphoneSelectorState)
  (first second : Z) (st : HerculesLinux Rotary) :
  m_iHerculesHeadphonesSelection st = selection_of c state ->
  let r := LibDjConsole.consoleEvent c proxies first second st in
  m_iHerculesHeadphonesSelection (state_after r)
  = selection_of c (HeadphoneDeckSelector state first second)
  /\ (In first [103; 102; 101; 100] ->
      accepted_transition state first second = None ->
      decoder_state (state_after r) = decoder_state st
      /\ sink_writes (trace_of r) = []).
Proof.
  intros Hsel r. subst r.
  destruct (Z.eq_dec second 0) as [->|Hs].
  { (* value 0: the handler returns at once *)
    assert (accepted_transition state first 0 = None) as N.
    { unfold accepted_transition. cbn. rewrite !andb_false_r.
      reflexivity. }
    unfold HeadphoneDeckSelector. rewrite N. cbn. auto. }
  destruct (Z.eq_dec first 0) as [->|Hf].
  { unfold LibDjConsole.consoleEvent.
    apply Z.eqb_neq in Hs. rewrite Hs. cbn.
    split; [exact Hsel|]. intros [H|[H|[H|[H|[]]]]]; discriminate H. }
  destruct (consoleEvent_run c proxies first second st Hs Hf)
    as (led & rl & rr & leds & _ & Hleds & E).
  cbv zeta in E. rewrite E. clear E.
  apply leds_no_sink_writes in Hleds. destruct Hleds as [Hleds _].
  set (s := set_m_pRotaryRight rr (set_m_pRotaryLeft rl st)).
  assert (m_iHerculesHeadphonesSelection s = selection_of c state) as Hsel'.
  { rewrite <- Hsel. reflexivity. }
  assert (decoder_state s = decoder_state st) as Hdec by reflexivity.
  destruct (in_dec Z.eq_dec first [103; 102; 101; 100]) as [Hin|Hout].
  - rewrite (selector_event_run state first second s Hin Hsel').
    unfold HeadphoneDeckSelector.
    destruct (accepted_transition state first second) as [target|].
    + split; [reflexivity|]. intros _ H. discriminate H.
    + split; [exact Hsel'|]. intros _ _. split; [exact Hdec|].
      unfold trace_of. cbn [snd app].
      rewrite !sink_writes_app, Hleds. now destruct (led =? 0).
  - split; [|intros Hin; contradiction].
    unfold state_after at 1. cbn [fst snd].
    rewrite dispatch_keeps_selection
      by (intros ->; apply Hout; simpl; tauto).
    rewrite Hsel'. f_equal. unfold HeadphoneDeckSelector.
    assert (accepted_transition state first second = None) as N.
    { unfold accepted_transition.
      repeat match goal with
        | |- context [first =? ?k] =>
            destruct (Z.eqb_spec first k);
            [exfalso; apply Hout; subst; simpl; tauto|]
        end.
      reflexivity. }
    now rewrite N.
Qed.

(** C5. The headphone booleans.  After an accepted transition to
    [target], whatever the two booleans were, they have the values
    [target] requires (SPLIT: both false; MIX: both true; DECK_A: left
    only; DECK_B: right only), and the sink writes of the event are one
    button event for each boolean that had to change, and nothing else. *)
Theorem headphone_booleans_follow_target
  (state target : HeadphoneSelectorState) (first second : Z)
  (st : HerculesLinux Rotary) :
  m_iHerculesHeadphonesSelection st = selection_of c state ->
  accepted_transition state first second = Some target ->
  let r := LibDjConsole.consoleEvent c proxies first second st in
  (m_bHeadphoneLeft (state_after r), m_bHeadphoneRight (state_after r))
  = required_configuration target
  /\ sink_writes (trace_of r)
     = toggle_writes (m_bHeadphoneLeft st) (m_bHeadphoneRight st) target.
Proof.
  intros Hsel Hacc r. subst r.
  destruct (accepted_transition_event _ _ _ _ Hacc) as (Hin & Hs & Hf).
  destruct (consoleEvent_run c proxies first second st Hs Hf)
    as (led & rl & rr & leds & _ & Hleds & E).
  cbv zeta in E. rewrite E. clear E.
  apply leds_no_sink_writes in Hleds. destruct Hleds as [Hleds _].
  set (s := set_m_pRotaryRight rr (set_m_pRotaryLeft rl st)).
  assert (m_iHerculesHeadphonesSelection s = selection_of c state) as Hsel'.
  { rewrite <- Hsel. reflexivity. }
  rewrite (selector_event_run state first second s Hin Hsel'), Hacc.
  split.
  - unfold state_after, accepted_run. cbn [fst snd]. members.
    now destruct (required_configuration target).
  - unfold trace_of, accepted_run. cbn [snd].
    rewrite !sink_writes_app, Hleds. cbn [app].
    change (m_bHeadphoneLeft s) with (m_bHeadphoneLeft st).
    change (m_bHeadphoneRight s) with (m_bHeadphoneRight st).
    change (QDebug ?m ?a ?b :: ?l) with ([QDebug m a b] ++ l).
    rewrite sink_writes_app, sink_writes_toggle.
    cbn [sink_writes filter is_sink_write app].
    destruct (led =? 0); cbn; now rewrite app_nil_r.
Qed.
End HeadphoneSelector.

(** ** The libdjconsole handler: events it drops *)

Section DroppedEvents.
Context {Rotary : Type} {rotary : RotaryOps Rotary}.
Variable c : LibDjConsole.Constants.
Variable proxies : LibDjConsole.Proxies.

(** An event neither [switch] has a case for. *)
Lemma consoleEvent_unrecognized (first second : Z)
  (st : HerculesLinux Rotary) :
  recognized c first = false ->
  LibDjConsole.consoleEvent c proxies first second st
  = (tt, st,
     if second =? 0 then [LedsSetBit first false]
     else if first =? 0 then []
     else [QDebug "Button %i = %i" [] [first; second]]).
Proof.
  unfold recognized. intros H. apply existsb_app_false in H.
  destruct H as [Hled Hdis].
  unfold LibDjConsole.consoleEvent.
  destruct (second =? 0); [reflexivity|].
  destruct (first =? 0); [reflexivity|].
  cbn [negb when]. cbv zeta.
  rewrite (switch_miss first (LibDjConsole.led_cases c first)) by exact Hled.
  rewrite (switch_miss first (LibDjConsole.dispatch_cases c proxies second))
    by exact Hdis.
  reflexivity.
Qed.

(** C6, as the code has it.  An event whose control code has no case in
    [consoleEvent] leaves the whole object as it was (so the jog values and
    accumulators, the pitch values and offsets, the headphone selection and
    booleans) and writes to no sink, and the same event dispatched a second
    time does the same.  It is logged, by the one [qDebug] line of the
    [default] case, when its value and its code are both other than 0. *)
Theorem unrecognized_event_dropped (first second : Z)
  (st : HerculesLinux Rotary) :
  recognized c first = false ->
  let r := LibDjConsole.consoleEvent c proxies first second st in
  let r' := LibDjConsole.consoleEvent c proxies first second (state_after r) in
  state_after r = st
  /\ decoder_state (state_after r) = decoder_state st
  /\ sink_writes (trace_of r) = []
  /\ (second <> 0 -> first <> 0 ->
      trace_of r = [QDebug "Button %i = %i" [] [first; second]])
  /\ state_after r' = st
  /\ sink_writes (trace_of r') = [].
Proof.
  intros H r r'. subst r r'.
  rewrite !(consoleEvent_unrecognized first second) by exact H.
  unfold state_after, trace_of. cbn [fst snd].
  repeat split.
  - now destruct (second =? 0), (first =? 0).
  - intros Hs Hf. apply Z.eqb_neq in Hs, Hf. now rewrite Hs, Hf.
  - now destruct (second =? 0), (first =? 0).
Qed.

(** C6 as stated fails in its first part: an event with value 0 on a code
    without a case is not logged.  The handler switches the LED bit of the
    code off and returns. *)
Lemma unrecognized_event_logged_counterexample :
  recognized example_djc 999 = false
  /\ LibDjConsole.consoleEvent example_djc example_proxies 999 0
       (LibDjConsole.constructor example_base)
     = (tt, LibDjConsole.constructor example_base, [LedsSetBit 999 false])
  /\ filter is_qdebug
       (trace_of
          (LibDjConsole.consoleEvent example_djc example_proxies 999 0
             (LibDjConsole.constructor example_base)))
     = [].
Proof. repeat split. Qed.

(** C10. Events with value 0 and events with code 0.  On value 0 the
    handler sets the LED bit of the code off and returns; on code 0 (and
    another value) it does nothing at all.  Either way the object is
    unchanged and nothing is written to a sink.  Whatever the event, a
    button release is only ever sent to the two auto-beat controls. *)
Theorem zero_events_ignored (first second : Z) (st : HerculesLinux Rotary)
  (ctl : ControlObject) :
  LibDjConsole.consoleEvent c proxies first 0 st
  = (tt, st, [LedsSetBit first false])
  /\ LibDjConsole.consoleEvent c proxies 0 second st
     = (tt, st, if second =? 0 then [LedsSetBit 0 false] else [])
  /\ sink_writes
       (trace_of (LibDjConsole.consoleEvent c proxies first 0 st)) = []
  /\ sink_writes
       (trace_of (LibDjConsole.consoleEvent c proxies 0 second st)) = []
  /\ (In (SendButtonEvent false ctl)
        (trace_of (LibDjConsole.consoleEvent c proxies first second st)) ->
      ctl = LeftBtnAutobeat \/ ctl = RightBtnAutobeat).
Proof.
  assert (LibDjConsole.consoleEvent c proxies 0 second st
          = (tt, st, if second =? 0 then [LedsSetBit 0 false] else []))
    as Z0.
  { unfold LibDjConsole.consoleEvent. now destruct (second =? 0). }
  split; [reflexivity|]. split; [exact Z0|]. split; [reflexivity|].
  split; [rewrite Z0; now destruct (second =? 0)|].
  destruct (Z.eq_dec second 0) as [->|Hs].
  { cbn. intros [H|[]]. discriminate H. }
  destruct (Z.eq_dec first 0) as [->|Hf].
  { rewrite Z0. apply Z.eqb_neq in Hs. rewrite Hs. intros []. }
  destruct (consoleEvent_run c proxies first second st Hs Hf)
    as (led & rl & rr & leds & _ & Hleds & E).
  cbv zeta in E. rewrite E. clear E.
  unfold trace_of at 1. cbn [snd]. intros H.
  apply in_app_or in H. destruct H as [H|H].
  { rewrite forallb_forall in Hleds. apply Hleds in H. discriminate H. }
  apply in_app_or in H. destruct H as [H|H].
  { exact (dispatch_releases c proxies first second _ ctl H). }
  destruct (led =? 0); [destruct H|]. destruct H as [H|[]]. discriminate H.
Qed.

(** C9, at the raw value where it fails.  A volume or crossfader event
    with raw value 0 is taken by the guard on value 0: the handler sets
    an LED bit off and returns, so no value reaches the volume or the
    crossfade control. *)
Theorem volume_event_zero_dropped (st : HerculesLinux Rotary) :
  LibDjConsole.consoleEvent c proxies (LibDjConsole.LEFT_VOL c) 0 st
  = (tt, st, [LedsSetBit (LibDjConsole.LEFT_VOL c) false])
  /\ LibDjConsole.consoleEvent c proxies (LibDjConsole.RIGHT_VOL c) 0 st
     = (tt, st, [LedsSetBit (LibDjConsole.RIGHT_VOL c) false])
  /\ LibDjConsole.consoleEvent c proxies (LibDjConsole.XFADER c) 0 st
     = (tt, st, [LedsSetBit (LibDjConsole.XFADER c) false])
  /\ sink_writes
       (trace_of
          (LibDjConsole.consoleEvent c proxies (LibDjConsole.LEFT_VOL c) 0 st))
     = [].
Proof. repeat split. Qed.
End DroppedEvents.

(** ** The pitch knobs of the original implementation *)

(** On a raw value and on members whose sums stay within [int], the code
    and the specified tracker agree. *)
Lemma PitchChange_exact (side : string) (raw previous offset : Z) :
  0 <= raw <= 255 ->
  -1000000000 <= previous <= 1000000000 ->
  -1000000000 <= offset <= 1000000000 ->
  Evdev.PitchChange side raw previous offset
  = (PitchOffsetTracker_update raw previous offset, []).
Proof.
  intros Hr Hp Ho.
  unfold Evdev.PitchChange, PitchOffsetTracker_update, initialized_offset,
    uninitialized, fired_rule.
  assert (int_sub 127 raw = 127 - raw) as -> by (exact_ints; reflexivity).
  set (off1 := if offset =? -9999 then 127 - raw else offset).
  assert (-1000000000 <= off1 <= 1000000000) as Ho1
    by (subst off1; destruct (offset =? -9999); lia).
  clearbody off1.
  cbn [find rule_condition].
  assert (int_add previous off1 = previous + off1) as -> by (exact_ints; reflexivity).
  destruct ((previous + off1 =? 255) && (previous <? raw)).
  { cbn [rule_offset]. exact_ints. reflexivity. }
  destruct ((previous =? 255) && (raw =? 0)).
  { cbn [rule_offset]. exact_ints. reflexivity. }
  destruct ((raw =? 255) && (previous =? 0) && (0 <=? off1)).
  { cbn [rule_offset]. exact_ints. reflexivity. }
  destruct ((raw <? previous) && (previous + off1 =? 0)).
  { cbn [rule_offset]. exact_ints. reflexivity. }
  exact_ints. reflexivity.
Qed.

Lemma PitchChange_first_64 (side : string) (previous : Z) :
  in_int previous ->
  Evdev.PitchChange side 64 previous (-9999) = ((253 # 4)%Q, 64, 63, []).
Proof.
  unfold in_int, int_min, int_max. intros Hp.
  unfold Evdev.PitchChange. cbn [Z.eqb Pos.eqb Z.opp].
  change (int_sub 127 64) with 63.
  assert (int_add previous 63 = 255 -> previous = 192) as H255.
  { unfold int_add, to_int. intros E. Z.div_mod_to_equations. lia. }
  assert (int_add previous 63 = 0 -> previous = -63) as H0.
  { unfold int_add, to_int. intros E. Z.div_mod_to_equations. lia. }
  destruct (Z.eqb_spec (int_add previous 63) 255) as [E|_].
  { apply H255 in E. subst previous. reflexivity. }
  destruct (Z.eqb_spec (int_add previous 63) 0) as [E|_].
  { apply H0 in E. subst previous. reflexivity. }
  cbn [andb]. rewrite !andb_false_r.
  destruct (previous =? 255); reflexivity.
Qed.

(** C1. The revised pitch tracker.  For every raw value and every pair of
    members (far enough from the ends of [int] for the sums not to wrap),
    [PitchChange] returns what the specified update returns: the offset is
    first set to [127 - raw] if it holds [-9999]; then the first of the four
    rollover rules whose condition holds, in the listed order, and no other,
    rewrites the offset; then the previous value is [raw]; and the result is
    [((previous + offset) - 0.5) / 2] on the new values.  Nothing is
    printed or sent by the function itself. *)
Theorem PitchChange_as_specified (side : string) (raw previous offset : Z) :
  0 <= raw <= 255 ->
  -1000000000 <= previous <= 1000000000 ->
  -1000000000 <= offset <= 1000000000 ->
  let offset1 := initialized_offset raw offset in
  let offset' :=
    match fired_rule raw previous offset1 with
    | Some r => rule_offset r raw offset1
    | None => offset1
    end in
  Evdev.PitchChange side raw previous offset
  = (PitchOffsetTracker_update raw previous offset, [])
  /\ PitchOffsetTracker_update raw previous offset
     = (((inject_Z (raw + offset') - (1 # 2)) / 2)%Q, raw, offset')
  /\ (offset = -9999 -> offset1 = 127 - raw)
  /\ (offset <> -9999 -> offset1 = offset).
Proof.
  intros Hr Hp Ho offset1 offset'.
  split; [now apply PitchChange_exact|].
  split; [reflexivity|].
  subst offset1. unfold initialized_offset, uninitialized.
  split; intros E.
  - subst offset. reflexivity.
  - apply Z.eqb_neq in E. now rewrite E.
Qed.

(** C8. The first pitch event, with raw value 64.  While the offset holds
    [-9999], whatever the previous value, [PitchChange] sets the offset to
    [127 - 64 = 63], none of the four rules fires (none of their conditions
    holds), the previous value becomes 64 and the result is
    [((64 + 63) - 0.5) / 2 = 63.25]. *)
Theorem first_pitch_event_64 (side : string) (previous : Z) :
  in_int previous ->
  Evdev.PitchChange side 64 previous (-9999) = ((253 # 4)%Q, 64, 63, [])
  /\ initialized_offset 64 (-9999) = 63
  /\ fired_rule 64 previous 63 = None
  /\ (forall r, rule_condition r 64 previous 63 = false)
  /\ ((253 # 4) == 63.25)%Q.
Proof.
  intros Hp. split; [now apply PitchChange_first_64|].
  split; [reflexivity|].
  assert (forall r, rule_condition r 64 previous 63 = false) as N.
  { intros []; cbn [rule_condition].
    - destruct (Z.eqb_spec (previous + 63) 255) as [E|_]; [|reflexivity].
      assert (previous = 192) as -> by lia. reflexivity.
    - apply andb_false_r.
    - reflexivity.
    - destruct (Z.eqb_spec (previous + 63) 0) as [E|_];
        [|apply andb_false_r].
      assert (previous = -63) as -> by lia. reflexivity. }
  split; [|split; [exact N | reflexivity]].
  unfold fired_rule. cbn [find]. now rewrite !N.
Qed.

(** ** Jog wheels: examples and bounds of the difference *)

(** C7. Two rollovers.  From 5 to 250 the difference is 245, corrected to
    [245 - 256 = -11]; from 250 to 5 it is -245, corrected to
    [-245 + 256 = 11]; the handler adds the corrected difference to the
    accumulator, as long as the sum is an [int], and stores the new raw
    value. *)
Theorem jog_rollover_examples {Rotary : Type} (st : HerculesLinux Rotary) :
  jog_raw_diff 5 250 = 245
  /\ jog_iDiff 5 250 = -11
  /\ jog_raw_diff 250 5 = -245
  /\ jog_iDiff 250 5 = 11
  /\ DeltaUnwrapper_unwrap (Some 5) 250 = (-11, 250)
  /\ DeltaUnwrapper_unwrap (Some 250) 5 = (11, 5)
  /\ (in_int (m_iJogLeft st + -11) ->
      LibDjConsole.case_LEFT_JOG 250 (set_m_dJogLeftOld 5 st)
      = (tt,
         set_m_iJogLeft (m_iJogLeft st + -11)
           (set_m_dJogLeftOld 250 (set_m_dJogLeftOld 5 st)), []))
  /\ (in_int (m_iJogLeft st + 11) ->
      LibDjConsole.case_LEFT_JOG 5 (set_m_dJogLeftOld 250 st)
      = (tt,
         set_m_iJogLeft (m_iJogLeft st + 11)
           (set_m_dJogLeftOld 5 (set_m_dJogLeftOld 250 st)), [])).
Proof.
  repeat split; intros H; unfold LibDjConsole.case_LEFT_JOG;
    cbv [bind get assign]; members;
    [change (jog_iDiff 5 250) with (-11) | change (jog_iDiff 250 5) with 11];
    rewrite int_of_double_sum by exact H; reflexivity.
Qed.

(** C3, as the code has it.  For raw values in [0, 255] the corrected
    difference lies in the closed interval from -200 to 200. *)
Theorem jog_iDiff_bounds (previous current : Z) :
  0 <= previous <= 255 -> 0 <= current <= 255 ->
  -200 <= jog_iDiff previous current <= 200.
Proof.
  intros Hp Hc.
  rewrite jog_iDiff_unwrap
    by (unfold in_int, int_min, int_max; lia).
  unfold stored_previous.
  destruct (Z.ltb_spec previous 0); [lia|].
  unfold DeltaUnwrapper_unwrap. cbn [fst].
  destruct (Z.ltb_spec (current - previous) (-200)); [lia|].
  destruct (Z.ltb_spec 200 (current - previous)); lia.
Qed.

(** C3 as stated fails: from 201 to 1 the difference is -200, which the
    code does not correct; it is not above -200 and its absolute value is
    not at most 128. *)
Lemma jog_iDiff_bounds_counterexample :
  0 <= 201 <= 255 /\ 0 <= 1 <= 255
  /\ jog_iDiff 201 1 = -200
  /\ ~ (-200 < jog_iDiff 201 1 <= 200)
  /\ ~ (Z.abs (jog_iDiff 201 1) <= 128).
Proof.
  change (jog_iDiff 201 1) with (-200). cbn. lia.
Qed.

(** ** The [EV_ABS] events of the original implementation *)

Section GetNextEventFacts.
Context {Rotary : Type} {rotary : RotaryOps Rotary}.
Variable c : Evdev.Constants.
Hypothesis c_ok : Evdev.constants_ok c = true.

Lemma abs_hit (ev_code ev_value : Z) (body default : M (Rotary := Rotary) unit) :
  In (ev_code, body) (Evdev.abs_cases c ev_value) ->
  switch ev_code (Evdev.abs_cases c ev_value) default = body.
Proof. apply switch_hit. exact c_ok. Qed.

Ltac abs_case :=
  unfold Evdev.getNextEvent_EV_ABS;
  rewrite abs_hit with (body := _)
    by (unfold Evdev.abs_cases; simpl; tauto).

(** A volume event sends half the raw value, whatever the value; a
    crossfader event sends half of the raw value plus one. *)
Lemma volume_and_crossfade_events (ev_value : Z) (st : HerculesLinux Rotary) :
  0 <= ev_value <= 255 ->
  Evdev.getNextEvent_EV_ABS c (Evdev.kiHerculesLeftVolume c) ev_value st
  = (tt, set_m_dLeftVolumeOld (inject_Z ev_value / 2)%Q st,
     [SendEvent (inject_Z ev_value / 2)%Q LeftVolume])
  /\ Evdev.getNextEvent_EV_ABS c (Evdev.kiHerculesRightVolume c) ev_value st
     = (tt, set_m_dRightVolumeOld (inject_Z ev_value / 2)%Q st,
        [SendEvent (inject_Z ev_value / 2)%Q RightVolume])
  /\ Evdev.getNextEvent_EV_ABS c (Evdev.kiHerculesCrossfade c) ev_value st
     = (tt, st, [SendEvent (inject_Z (ev_value + 1) / 2)%Q Crossfade]).
Proof.
  intros Hv. repeat split; abs_case; try reflexivity.
  cbv [sendEvent emit]. exact_ints. reflexivity.
Qed.

(** A pitch event calls [PitchChange] on the two members of its side and
    sends the result. *)
Lemma pitch_events (ev_value : Z) (st : HerculesLinux Rotary) :
  let l := Evdev.PitchChange "Left" ev_value
             (m_iPitchLeft st) (m_iPitchOffsetLeft st) in
  let r := Evdev.PitchChange "Right" ev_value
             (m_iPitchRight st) (m_iPitchOffsetRight st) in
  Evdev.getNextEvent_EV_ABS c (Evdev.kiHerculesLeftPitch c) ev_value st
  = (tt,
     set_m_iPitchOffsetLeft (snd (fst l))
       (set_m_iPitchLeft (snd (fst (fst l))) st),
     snd l ++ [SendEvent (fst (fst (fst l))) LeftPitch])
  /\ Evdev.getNextEvent_EV_ABS c (Evdev.kiHerculesRightPitch c) ev_value st
     = (tt,
        set_m_iPitchOffsetRight (snd (fst r))
          (set_m_iPitchRight (snd (fst (fst r))) st),
        snd r ++ [SendEvent (fst (fst (fst r))) RightPitch]).
Proof.
  cbv zeta. split; abs_case; apply pitch_call_run.
Qed.

(** The first pitch event after construction, with raw value 64. *)
Lemma first_pitch_event_after_construction (base : HerculesLinux Rotary) :
  let r := Evdev.getNextEvent_EV_ABS c (Evdev.kiHerculesLeftPitch c) 64
             (Evdev.constructor base) in
  trace_of r = [SendEvent (253 # 4)%Q LeftPitch]
  /\ m_iPitchLeft (state_after r) = 64
  /\ m_iPitchOffsetLeft (state_after r) = 63.
Proof.
  cbv zeta. rewrite (proj1 (pitch_events 64 _)).
  repeat split.
Qed.

(** Jog wheels.  In each of the four case bodies that decode a jog event,
    the difference is the one the specified unwrapping gives for the
    stored previous value (none while the member is negative, as the
    constructor leaves it) and the raw value of the event, and the raw
    value is stored as the new previous value whatever the difference.
    The cases of [consoleEvent] add the difference to the accumulator of
    the side, as long as the sum is an [int]; [getNextEvent] passes a
    sixteenth of it to the rotary filter of the side and sends the
    result. *)
Lemma jog_cases_unwrap (value : Z) (st base : HerculesLinux Rotary) :
  0 <= value <= 255 ->
  in_int (m_dJogLeftOld st) -> in_int (m_dJogRightOld st) ->
  in_int (m_iJogLeft st) -> in_int (m_iJogRight st) ->
  let unwrap member :=
    DeltaUnwrapper_unwrap (stored_previous member) value in
  let left := Rotary_filter (m_pRotaryLeft st)
                (inject_Z (fst (unwrap (m_iJogLeft st))) / 16)%Q in
  let right := Rotary_filter (m_pRotaryRight st)
                 (inject_Z (fst (unwrap (m_iJogRight st))) / 16)%Q in
  (in_int (m_iJogLeft st + fst (unwrap (m_dJogLeftOld st))) ->
   LibDjConsole.case_LEFT_JOG value st
   = (tt,
      set_m_iJogLeft (m_iJogLeft st + fst (unwrap (m_dJogLeftOld st)))
        (set_m_dJogLeftOld (snd (unwrap (m_dJogLeftOld st))) st), []))
  /\ (in_int (m_iJogRight st + fst (unwrap (m_dJogRightOld st))) ->
      LibDjConsole.case_RIGHT_JOG value st
      = (tt,
         set_m_iJogRight (m_iJogRight st + fst (unwrap (m_dJogRightOld st)))
           (set_m_dJogRightOld (snd (unwrap (m_dJogRightOld st))) st), []))
  /\ Evdev.getNextEvent_EV_ABS c (Evdev.kiHerculesLeftJog c) value st
     = (tt,
        set_m_iJogLeft (snd (unwrap (m_iJogLeft st)))
          (set_m_pRotaryLeft (fst left) st),
        [SendEvent (snd left) LeftJog])
  /\ Evdev.getNextEvent_EV_ABS c (Evdev.kiHerculesRightJog c) value st
     = (tt,
        set_m_iJogRight (snd (unwrap (m_iJogRight st)))
          (set_m_pRotaryRight (fst right) st),
        [SendEvent (snd right) RightJog])
  /\ (forall member, snd (unwrap member) = value)
  /\ stored_previous (m_dJogLeftOld (LibDjConsole.constructor base)) = None
  /\ stored_previous (m_dJogRightOld (LibDjConsole.constructor base)) = None
  /\ stored_previous (m_iJogLeft (Evdev.constructor base)) = None
  /\ stored_previous (m_iJogRight (Evdev.constructor base)) = None.
Proof.
  intros Hv HLo HRo HL HR unwrap left right. subst unwrap left right.
  cbv beta. rewrite !unwrap_new_previous.
  rewrite <- !jog_iDiff_unwrap by assumption.
  repeat split; try (intros; apply unwrap_new_previous).
  - intros H. unfold LibDjConsole.case_LEFT_JOG. cbv [bind get assign].
    members. now rewrite int_of_double_sum.
  - intros H. unfold LibDjConsole.case_RIGHT_JOG. cbv [bind get assign].
    members. now rewrite int_of_double_sum.
  - abs_case. unfold Evdev.case_kiHerculesLeftJog, Evdev.m_pRotaryLeft_filter.
    cbv [bind get assign sendEvent emit].
    destruct (Rotary_filter _ _) as [r y]. reflexivity.
  - abs_case. unfold Evdev.case_kiHerculesRightJog, Evdev.m_pRotaryRight_filter.
    cbv [bind get assign sendEvent emit].
    destruct (Rotary_filter _ _) as [r y]. reflexivity.
Qed.
End GetNextEventFacts.

(** ** The libdjconsole handler: continuous controls and jog wheels that
       reach the second [switch] *)

Section ConsoleEventControls.
Context {Rotary : Type} {rotary : RotaryOps Rotary}.
Variable c : LibDjConsole.Constants.
Variable proxies : LibDjConsole.Proxies.
Hypothesis c_ok : LibDjConsole.constants_ok c = true.

(** The object and the sink writes of an event whose code has the case
    [body] in the second [switch]. *)
Lemma consoleEvent_case (first second : Z) (body : M (Rotary := Rotary) unit)
  (st : HerculesLinux Rotary) :
  second <> 0 -> first <> 0 ->
  In (first, body) (LibDjConsole.dispatch_cases c proxies second) ->
  exists rl rr,
    let s := set_m_pRotaryRight rr (set_m_pRotaryLeft rl st) in
    state_after (LibDjConsole.consoleEvent c proxies first second st)
    = state_after (body s)
    /\ sink_writes
         (trace_of (LibDjConsole.consoleEvent c proxies first second st))
       = sink_writes (trace_of (body s)).
Proof.
  intros Hs Hf Hin.
  destruct (consoleEvent_run c proxies first second st Hs Hf)
    as (led & rl & rr & leds & _ & Hleds & E).
  exists rl, rr. cbv zeta in *. rewrite E. clear E.
  rewrite (dispatch_hit c proxies c_ok first second body) by exact Hin.
  apply leds_no_sink_writes in Hleds. destruct Hleds as [Hleds _].
  split; [reflexivity|].
  unfold trace_of at 1. cbn [snd].
  rewrite !sink_writes_app, Hleds.
  destruct (led =? 0); cbn; now rewrite app_nil_r.
Qed.

(** Volume and crossfader events with a raw value other than 0 send one
    value: half the raw value, or half of the raw value plus one. *)
Lemma volume_and_crossfade_nonzero (second : Z) (st : HerculesLinux Rotary) :
  1 <= second <= 255 ->
  LibDjConsole.LEFT_VOL c <> 0 -> LibDjConsole.RIGHT_VOL c <> 0 ->
  LibDjConsole.XFADER c <> 0 ->
  sink_writes
    (trace_of
       (LibDjConsole.consoleEvent c proxies (LibDjConsole.LEFT_VOL c) second st))
  = [SendEvent (inject_Z second / 2)%Q LeftVolume]
  /\ sink_writes
       (trace_of
          (LibDjConsole.consoleEvent c proxies (LibDjConsole.RIGHT_VOL c) second st))
     = [SendEvent (inject_Z second / 2)%Q RightVolume]
  /\ sink_writes
       (trace_of
          (LibDjConsole.consoleEvent c proxies (LibDjConsole.XFADER c) second st))
     = [SendEvent (inject_Z (second + 1) / 2)%Q Crossfade].
Proof.
  intros Hv HL HR HX.
  assert (second <> 0) as Hs by lia.
  repeat split.
  - destruct (consoleEvent_case (LibDjConsole.LEFT_VOL c) second _ st Hs HL
                ltac:(unfold LibDjConsole.dispatch_cases; simpl; tauto))
      as (rl & rr & _ & ->). reflexivity.
  - destruct (consoleEvent_case (LibDjConsole.RIGHT_VOL c) second _ st Hs HR
                ltac:(unfold LibDjConsole.dispatch_cases; simpl; tauto))
      as (rl & rr & _ & ->). reflexivity.
  - destruct (consoleEvent_case (LibDjConsole.XFADER c) second _ st Hs HX
                ltac:(unfold LibDjConsole.dispatch_cases; simpl; tauto))
      as (rl & rr & _ & ->).
    cbv [sendEvent emit trace_of snd sink_writes filter is_sink_write].
    exact_ints. reflexivity.
Qed.

(** A jog event with a raw value other than 0 runs the jog case. *)
Lemma jog_event_nonzero (second : Z) (st : HerculesLinux Rotary) :
  1 <= second <= 255 ->
  LibDjConsole.LEFT_JOG c <> 0 ->
  in_int (m_dJogLeftOld st) ->
  let r := LibDjConsole.consoleEvent c proxies (LibDjConsole.LEFT_JOG c)
             second st in
  let u := DeltaUnwrapper_unwrap (stored_previous (m_dJogLeftOld st))
             second in
  in_int (m_iJogLeft st + fst u) ->
  m_dJogLeftOld (state_after r) = snd u
  /\ m_iJogLeft (state_after r) = m_iJogLeft st + fst u
  /\ sink_writes (trace_of r) = [].
Proof.
  intros Hv HJ Hold. cbv zeta.
  assert (second <> 0) as Hs by lia.
  destruct (consoleEvent_case (LibDjConsole.LEFT_JOG c) second _ st Hs HJ
              ltac:(unfold LibDjConsole.dispatch_cases; simpl; tauto))
    as (rl & rr & -> & ->).
  rewrite unwrap_new_previous, <- jog_iDiff_unwrap by (assumption || lia).
  intros Hsum. unfold LibDjConsole.case_LEFT_JOG. cbv [bind get assign].
  unfold state_after, trace_of. cbn [fst snd]. members.
  rewrite int_of_double_sum by exact Hsum. repeat split.
Qed.

(** C2, at the raw value where it fails.  A jog event with raw value 0 is
    taken by the guard on value 0 of [consoleEvent]: the handler sets an
    LED bit off and returns.  The stored raw value stays as it was, where
    the specified unwrapping sets it to 0, and the accumulator does not
    move, where the specified difference is not 0.  The next jog event is
    then measured from the raw value before the dropped one. *)
Theorem jog_event_zero_dropped (previous next : Z) (st : HerculesLinux Rotary) :
  LibDjConsole.LEFT_JOG c <> 0 ->
  1 <= previous <= 255 -> 1 <= next <= 255 ->
  m_dJogLeftOld st = previous ->
  in_int (m_iJogLeft st
          + fst (DeltaUnwrapper_unwrap (Some previous) next)) ->
  let r := LibDjConsole.consoleEvent c proxies (LibDjConsole.LEFT_JOG c)
             0 st in
  let r2 := LibDjConsole.consoleEvent c proxies (LibDjConsole.LEFT_JOG c)
              next (state_after r) in
  let u := DeltaUnwrapper_unwrap (stored_previous previous) 0 in
  r = (tt, st, [LedsSetBit (LibDjConsole.LEFT_JOG c) false])
  /\ LibDjConsole.consoleEvent c proxies (LibDjConsole.RIGHT_JOG c) 0 st
     = (tt, st, [LedsSetBit (LibDjConsole.RIGHT_JOG c) false])
  /\ snd u = 0
  /\ m_dJogLeftOld (state_after r) = previous
  /\ fst u <> 0
  /\ m_iJogLeft (state_after r) = m_iJogLeft st
  /\ m_dJogLeftOld (state_after r2) = next
  /\ m_iJogLeft (state_after r2)
     = m_iJogLeft st + fst (DeltaUnwrapper_unwrap (Some previous) next).
Proof.
  intros HJ Hp Hn Hold Hsum. cbv zeta.
  split; [reflexivity|]. split; [reflexivity|].
  split; [apply unwrap_new_previous|]. split; [exact Hold|].
  split.
  { unfold stored_previous. destruct (Z.ltb_spec previous 0); [lia|].
    unfold DeltaUnwrapper_unwrap. cbn [fst].
    destruct (Z.ltb_spec (0 - previous) (-200));
      [|destruct (Z.ltb_spec 200 (0 - previous))]; lia. }
  split; [reflexivity|].
  change (state_after
            (LibDjConsole.consoleEvent c proxies (LibDjConsole.LEFT_JOG c) 0 st))
    with st.
  assert (stored_previous (m_dJogLeftOld st) = Some previous) as S.
  { rewrite Hold. unfold stored_previous.
    destruct (Z.ltb_spec previous 0); [lia | reflexivity]. }
  pose proof (jog_event_nonzero next st Hn HJ) as N. cbv zeta in N.
  rewrite S in N.
  destruct N as (N1 & N2 & _);
    [rewrite Hold; unfold in_int, int_min, int_max; lia | exact Hsum |].
  split; [|exact N2]. rewrite N1. apply (unwrap_new_previous (Some previous)).
Qed.
End ConsoleEventControls.

(** * The theorems at concrete events *)

(** C1 at an event where the conditions of rules 2 and 4 both hold: rule 2
    comes first and is the one applied. *)
Lemma PitchChange_as_specified_witness :
  fired_rule 0 255 (-255) = Some Rule2
  /\ rule_condition Rule4 0 255 (-255) = true
  /\ Evdev.PitchChange "Left" 0 255 (-255) = ((- (1 # 4))%Q, 0, 0, []).
Proof.
  split; [reflexivity|]. split; [reflexivity|].
  apply (PitchChange_as_specified "Left" 0 255 (-255)); lia.
Defined.

(** C2 on a wheel that goes from 250 over 0 to 100: the event with raw
    value 0 is dropped, and the handler accumulates [100 - 250 = -150]
    where the specified unwrapping gives [6 + 100 = 106]. *)
Lemma jog_event_zero_dropped_witness :
  let st := set_m_dJogLeftOld 250 (LibDjConsole.constructor example_base) in
  let r := LibDjConsole.consoleEvent example_djc example_proxies 40 0 st in
  let r2 := LibDjConsole.consoleEvent example_djc example_proxies 40 100
              (state_after r) in
  m_dJogLeftOld (state_after r) = 250
  /\ m_iJogLeft (state_after r2) = -150
  /\ fst (DeltaUnwrapper_unwrap (Some 250) 0)
     + fst (DeltaUnwrapper_unwrap (Some 0) 100) = 106.
Proof.
  cbv zeta.
  assert (LibDjConsole.LEFT_JOG example_djc <> 0) as HJ by discriminate.
  assert (in_int
            (m_iJogLeft
               (set_m_dJogLeftOld 250 (LibDjConsole.constructor example_base))
             + fst (DeltaUnwrapper_unwrap (Some 250) 100))) as Hsum
    by (unfold in_int, int_min, int_max; simpl; lia).
  pose proof (jog_event_zero_dropped example_djc example_proxies eq_refl
                250 100
                (set_m_dJogLeftOld 250 (LibDjConsole.constructor example_base))
                HJ ltac:(lia) ltac:(lia) eq_refl Hsum) as H.
  cbv zeta in H. destruct H as (_ & _ & _ & H4 & _ & _ & _ & H8).
  split; [exact H4|]. split; [exact H8 | reflexivity].
Defined.

(** C7 on the constructed object, whose accumulator is 0. *)
Lemma jog_rollover_examples_witness :
  LibDjConsole.case_LEFT_JOG 250
    (set_m_dJogLeftOld 5 (LibDjConsole.constructor example_base))
  = (tt,
     set_m_iJogLeft (0 + -11)
       (set_m_dJogLeftOld 250
          (set_m_dJogLeftOld 5 (LibDjConsole.constructor example_base))), []).
Proof.
  apply (jog_rollover_examples (LibDjConsole.constructor example_base)).
  unfold in_int, int_min, int_max. simpl. lia.
Defined.

(** C3 (amended) at the two ends of the interval. *)
Lemma jog_iDiff_bounds_witness :
  -200 <= jog_iDiff 201 1 <= 200 /\ jog_iDiff 201 1 = -200
  /\ jog_iDiff 1 201 = 200.
Proof.
  split; [apply (jog_iDiff_bounds 201 1); lia|]. split; reflexivity.
Defined.

(** C4 at the event (100,1) received in state MIX: nothing changes. *)
Lemma headphone_selector_transitions_witness :
  let st := set_m_iHerculesHeadphonesSelection (selection_of example_djc MIX)
              (LibDjConsole.constructor example_base) in
  let r := LibDjConsole.consoleEvent example_djc example_proxies 100 1 st in
  LibDjConsole.constants_ok example_djc = true
  /\ HeadphoneDeckSelector MIX 100 1 = MIX
  /\ m_iHerculesHeadphonesSelection (state_after r)
     = selection_of example_djc MIX
  /\ decoder_state (state_after r) = decoder_state st
  /\ sink_writes (trace_of r) = [].
Proof.
  cbv zeta. split; [reflexivity|]. split; [reflexivity|].
  pose proof (headphone_selector_transitions example_djc example_proxies
                eq_refl MIX 100 1
                (set_m_iHerculesHeadphonesSelection
                   (selection_of example_djc MIX)
                   (LibDjConsole.constructor example_base)) eq_refl) as H.
  cbv zeta in H. destruct H as [H1 H2]. split; [exact H1|].
  apply H2; [simpl; tauto | reflexivity].
Defined.

(** C5 at the event (101,2) received in state DECK_A with the left
    headphone on and the right one off: both are toggled. *)
Lemma headphone_booleans_follow_target_witness :
  let st := set_m_bHeadphoneLeft true
              (set_m_iHerculesHeadphonesSelection
                 (selection_of example_djc DECK_A)
                 (LibDjConsole.constructor example_base)) in
  let r := LibDjConsole.consoleEvent example_djc example_proxies 101 2 st in
  accepted_transition DECK_A 101 2 = Some DECK_B
  /\ (m_bHeadphoneLeft (state_after r), m_bHeadphoneRight (state_after r))
     = (false, true)
  /\ sink_writes (trace_of r)
     = [SendButtonEvent true RightBtnHeadphone;
        SendButtonEvent true LeftBtnHeadphone].
Proof.
  cbv zeta. split; [reflexivity|].
  apply (headphone_booleans_follow_target example_djc example_proxies
           eq_refl DECK_A DECK_B 101 2
           (set_m_bHeadphoneLeft true
              (set_m_iHerculesHeadphonesSelection
                 (selection_of example_djc DECK_A)
                 (LibDjConsole.constructor example_base))));
    reflexivity.
Defined.

(** C6 at the event (999, 7). *)
Lemma unrecognized_event_dropped_witness :
  let st := LibDjConsole.constructor example_base in
  let r := LibDjConsole.consoleEvent example_djc example_proxies 999 7 st in
  recognized example_djc 999 = false
  /\ state_after r = st
  /\ sink_writes (trace_of r) = []
  /\ trace_of r = [QDebug "Button %i = %i" [] [999; 7]].
Proof.
  cbv zeta. split; [reflexivity|].
  pose proof (unrecognized_event_dropped example_djc example_proxies 999 7
                (LibDjConsole.constructor example_base) eq_refl) as H.
  cbv zeta in H. destruct H as (H1 & _ & H3 & H4 & _).
  split; [exact H1|]. split; [exact H3|]. apply H4; discriminate.
Defined.

(** C8 at the previous value the constructor sets. *)
Lemma first_pitch_event_64_witness :
  m_iPitchLeft (Evdev.constructor example_base) = 127
  /\ m_iPitchOffsetLeft (Evdev.constructor example_base) = -9999
  /\ Evdev.PitchChange "Left" 64 127 (-9999) = ((253 # 4)%Q, 64, 63, []).
Proof.
  split; [reflexivity|]. split; [reflexivity|].
  apply (first_pitch_event_64 "Left" 127).
  unfold in_int, int_min, int_max. lia.
Defined.

(** * Further properties of the driver *)

(** ** Runs of [consoleEvent], case by case *)

Lemma switch_in {A : Type} (x : Z) (cases : list (Z * A)) (default : A) :
  switch x cases default = default
  \/ In (x, switch x cases default) cases.
Proof.
  induction cases as [|[l b] rest IH]; simpl; [now left|].
  destruct (Z.eqb_spec x l) as [->|_]; [right; now left|].
  destruct IH as [IH|IH]; [now left | right; now right].
Qed.

(** Every run of [consoleEvent] is one of: the return on value 0; nothing
    at all on code 0; or LED writes of the first [switch], then one body of
    the second [switch] (or its [default]) on an object that differs by the
    rotaries at most, then the LED of the control. *)
Lemma consoleEvent_cases {Rotary : Type} {rotary : RotaryOps Rotary}
  (c : LibDjConsole.Constants) (proxies : LibDjConsole.Proxies)
  (first second : Z) (st : HerculesLinux Rotary) :
  (second = 0
   /\ LibDjConsole.consoleEvent c proxies first second st
      = (tt, st, [LedsSetBit first false]))
  \/ (second <> 0 /\ first = 0
      /\ LibDjConsole.consoleEvent c proxies first second st = (tt, st, []))
  \/ (second <> 0 /\ first <> 0
      /\ exists led rl rr leds body,
           (led = 0 \/ led = first)
           /\ forallb (fun o => negb (is_sink_write o) && negb (is_qdebug o))
                leds = true
           /\ (body = qDebug "Button %i = %i" [] [first; second]
               \/ In (first, body)
                    (LibDjConsole.dispatch_cases c proxies second))
           /\ LibDjConsole.consoleEvent c proxies first second st
              = (tt,
                 state_after
                   (body (set_m_pRotaryRight rr (set_m_pRotaryLeft rl st))),
                 leds
                 ++ trace_of
                      (body (set_m_pRotaryRight rr (set_m_pRotaryLeft rl st)))
                 ++ (if led =? 0 then [] else [LedsSetBit led true]))).
Proof.
  destruct (Z.eq_dec second 0) as [->|Hs]; [left; now split|].
  destruct (Z.eq_dec first 0) as [->|Hf].
  { right; left. split; [exact Hs|]. split; [reflexivity|].
    unfold LibDjConsole.consoleEvent. apply Z.eqb_neq in Hs. now rewrite Hs. }
  right; right. split; [exact Hs|]. split; [exact Hf|].
  destruct (consoleEvent_run c proxies first second st Hs Hf)
    as (led & rl & rr & leds & Hled & Hleds & E).
  exists led, rl, rr, leds, 
    (switch first (LibDjConsole.dispatch_cases c proxies second)
       (qDebug "Button %i = %i" [] [first; second])).
  split; [exact Hled|]. split; [exact Hleds|]. split; [|exact E].
  apply switch_in.
Qed.

Lemma sequence_run {Rotary : Type} (P : HerculesLinux Rotary -> Prop)
  (T : Output -> Prop) (handlers : list (M (Rotary := Rotary) unit)) :
  Forall (fun h => forall s, P s ->
            P (state_after (h s)) /\ Forall T (trace_of (h s))) handlers ->
  forall s, P s ->
    P (state_after (sequence handlers s))
    /\ Forall T (trace_of (sequence handlers s)).
Proof.
  induction 1 as [|h rest Hh _ IH]; intros s Hs.
  - split; [exact Hs | constructor].
  - cbn [sequence]. unfold bind.
    destruct (Hh s Hs) as [H1 H2].
    destruct (h s) as [[[] s1] o1]. unfold state_after, trace_of in H1, H2.
    cbn [fst snd] in H1, H2.
    destruct (IH s1 H1) as [H3 H4].
    destruct (sequence rest s1) as [[[] s2] o2].
    unfold state_after, trace_of in *. cbn [fst snd] in *.
    split; [exact H3|]. apply Forall_app. now split.
Qed.

(** Splits a hypothesis [In (first, body) (dispatch_cases ...)] into the
    cases of the [switch]. *)
Ltac dispatch_bodies H :=
  unfold LibDjConsole.dispatch_cases in H; simpl In in H;
  repeat (destruct H as [H|H]; [inversion H; subst; clear H|]);
  [..|destruct H].

Lemma jog_iDiff_congruent (old value : Z) :
  0 <= old <= 255 -> 0 <= value <= 255 ->
  (jog_iDiff old value - (value - old)) mod 256 = 0.
Proof.
  intros Ho Hv.
  rewrite jog_iDiff_unwrap by (unfold in_int, int_min, int_max; lia).
  unfold stored_previous. destruct (Z.ltb_spec old 0); [lia|].
  unfold DeltaUnwrapper_unwrap. cbn [fst].
  destruct (Z.ltb_spec (value - old) (-200)).
  { replace (value - old + 256 - (value - old)) with 256 by lia. reflexivity. }
  destruct (Z.ltb_spec 200 (value - old)).
  { replace (value - old - 256 - (value - old)) with (-256) by lia. reflexivity. }
  now rewrite Z.sub_diag.
Qed.

Lemma jog_iDiff_range (old value : Z) :
  0 <= old <= 255 -> 0 <= value <= 255 ->
  -200 <= jog_iDiff old value <= 200.
Proof.
  intros Ho Hv.
  rewrite jog_iDiff_unwrap by (unfold in_int, int_min, int_max; lia).
  unfold stored_previous. destruct (Z.ltb_spec old 0); [lia|].
  unfold DeltaUnwrapper_unwrap. cbn [fst].
  destruct (Z.ltb_spec (value - old) (-200)); [lia|].
  destruct (Z.ltb_spec 200 (value - old)); lia.
Qed.

Lemma jog_room_weaken (acc : Z) (n : nat) :
  jog_room acc (S n) -> jog_room acc n.
Proof. unfold jog_room. lia. Qed.

Lemma jog_room_step (acc d : Z) (n : nat) :
  jog_room acc (S n) -> -200 <= d <= 200 ->
  in_int (acc + d) /\ jog_room (acc + d) n.
Proof. unfold jog_room, in_int. lia. Qed.

(** Handlers in sequence, with an invariant that counts the handlers
    left. *)
Lemma sequence_run_counted {Rotary : Type}
  (P : nat -> HerculesLinux Rotary -> Prop)
  (handlers : list (M (Rotary := Rotary) unit)) :
  Forall (fun h => forall n s, P (S n) s -> P n (state_after (h s))) handlers ->
  forall s, P (List.length handlers) s ->
    P O (state_after (sequence handlers s)).
Proof.
  induction 1 as [|h rest Hh _ IH]; intros s Hs; [exact Hs|].
  cbn [sequence List.length] in *. unfold bind.
  specialize (Hh _ s Hs).
  destruct (h s) as [[[] s1] o1]. unfold state_after in Hh. cbn [fst snd] in Hh.
  specialize (IH s1 Hh).
  destruct (sequence rest s1) as [[[] s2] o2]. exact IH.
Qed.

Section JogAccumulators.
Context {Rotary : Type} {rotary : RotaryOps Rotary}.
Variable c : LibDjConsole.Constants.

Lemma jog_tracks_step (old acc k value : Z) :
  0 <= value <= 255 -> jog_tracks old acc k ->
  jog_tracks value (acc + jog_iDiff old value) k.
Proof.
  intros Hv [Ho Hk]. split; [exact Hv|].
  pose proof (jog_iDiff_congruent old value Ho Hv) as Hd.
  apply Z.mod_divide in Hk; [|lia]. apply Z.mod_divide in Hd; [|lia].
  destruct Hk as [a Ha]. destruct Hd as [b Hb].
  apply Z.mod_divide; [lia|]. exists (a + b). lia.
Qed.

(** One jog case keeps the relation between stored value and accumulator
    and uses up room for one event. *)
Lemma jog_case_tracks (old acc k value : Z) (n : nat) :
  0 <= value <= 255 ->
  jog_tracks old acc k /\ jog_room acc (S n) ->
  jog_tracks value
    (int_of_double (double_of_int acc + double_of_int (jog_iDiff old value))%Q)
    k
  /\ jog_room
       (int_of_double (double_of_int acc + double_of_int (jog_iDiff old value))%Q)
       n.
Proof.
  intros Hv [T R].
  destruct (jog_room_step acc (jog_iDiff old value) n R) as [I R'].
  { apply jog_iDiff_range; [exact (proj1 T) | exact Hv]. }
  rewrite int_of_double_sum by exact I.
  split; [now apply jog_tracks_step | exact R'].
Qed.

(** One event keeps the relation between stored value and accumulator, on
    each side. *)
Lemma consoleEvent_jog_tracks (proxies : LibDjConsole.Proxies)
  (first second : Z) (kl kr : Z) (n : nat) (st : HerculesLinux Rotary) :
  0 <= second <= 255 ->
  let st' := state_after (LibDjConsole.consoleEvent c proxies first second st) in
  (jog_tracks (m_dJogLeftOld st) (m_iJogLeft st) kl
   /\ jog_room (m_iJogLeft st) (S n) ->
   jog_tracks (m_dJogLeftOld st') (m_iJogLeft st') kl
   /\ jog_room (m_iJogLeft st') n)
  /\ (jog_tracks (m_dJogRightOld st) (m_iJogRight st) kr
      /\ jog_room (m_iJogRight st) (S n) ->
      jog_tracks (m_dJogRightOld st') (m_iJogRight st') kr
      /\ jog_room (m_iJogRight st') n).
Proof.
  intros Hv. cbv zeta.
  assert (forall old acc k,
            jog_tracks old acc k /\ jog_room acc (S n) ->
            jog_tracks old acc k /\ jog_room acc n) as W.
  { intros old acc k [T R]. split; [exact T | now apply jog_room_weaken]. }
  destruct (consoleEvent_cases c proxies first second st)
    as [[_ E]|[(_ & _ & E)|(Hs & Hf & led & rl & rr & leds & body & _ & _ & Hb & E)]];
    rewrite E; clear E; [split; apply W | split; apply W |].
  change (state_after (tt, ?x, ?o)) with x.
  set (s := set_m_pRotaryRight rr (set_m_pRotaryLeft rl st)).
  change (m_dJogLeftOld st) with (m_dJogLeftOld s).
  change (m_iJogLeft st) with (m_iJogLeft s).
  change (m_dJogRightOld st) with (m_dJogRightOld s).
  change (m_iJogRight st) with (m_iJogRight s).
  clearbody s.
  destruct Hb as [->|Hb]; [split; apply W|].
  destruct (selector_cases_run c second s) as (V3 & V2 & V1 & V0).
  dispatch_bodies Hb;
    rewrite ?pitch_call_run, ?V3, ?V2, ?V1, ?V0;
    repeat match goal with
      | |- context [if ?b then _ else _] => destruct b
      end;
    try (split; intros H; exact (W _ _ _ H)).
  - split; [|intros H; exact (W _ _ _ H)].
    intros H. exact (jog_case_tracks _ _ _ _ _ Hv H).
  - split; [intros H; exact (W _ _ _ H)|].
    intros H. exact (jog_case_tracks _ _ _ _ _ Hv H).
Qed.

Lemma consoleEvents_jog_tracks (events : list (LibDjConsole.Proxies * Z * Z))
  (kl kr : Z) (st : HerculesLinux Rotary) :
  Forall (fun e => 0 <= snd e <= 255) events ->
  let st' := state_after (consoleEvents c events st) in
  (jog_tracks (m_dJogLeftOld st) (m_iJogLeft st) kl
   /\ jog_room (m_iJogLeft st) (List.length events) ->
   jog_tracks (m_dJogLeftOld st') (m_iJogLeft st') kl)
  /\ (jog_tracks (m_dJogRightOld st) (m_iJogRight st) kr
      /\ jog_room (m_iJogRight st) (List.length events) ->
      jog_tracks (m_dJogRightOld st') (m_iJogRight st') kr).
Proof.
  intros Hev. cbv zeta. unfold consoleEvents. split; intros H0.
  - refine (proj1 (sequence_run_counted
             (fun n s => jog_tracks (m_dJogLeftOld s) (m_iJogLeft s) kl
                         /\ jog_room (m_iJogLeft s) n) _ _ st _)).
    + apply Forall_map. apply Forall_impl with (2 := Hev).
      intros [[p f] v] Hv n s Hs. cbn [fst snd] in *.
      now apply (consoleEvent_jog_tracks p f v kl kr n s Hv).
    + now rewrite length_map.
  - refine (proj1 (sequence_run_counted
             (fun n s => jog_tracks (m_dJogRightOld s) (m_iJogRight s) kr
                         /\ jog_room (m_iJogRight s) n) _ _ st _)).
    + apply Forall_map. apply Forall_impl with (2 := Hev).
      intros [[p f] v] Hv n s Hs. cbn [fst snd] in *.
      now apply (consoleEvent_jog_tracks p f v kl kr n s Hv).
    + now rewrite length_map.
Qed.

(** X1. Jog accumulators.  Over any sequence of events with raw values in
    [0, 255], each jog accumulator moves by as much as the stored raw value
    of its wheel, modulo 256, when it starts with room for the events of
    the sequence (200 away from the ends of [int] for each): whatever the
    rollovers, and whatever events the handler drops, the accumulated
    motion is the distance between the last and the first stored position,
    up to whole turns of the 8-bit counter. *)
Theorem jog_accumulator_tracks_wheel
  (events : list (LibDjConsole.Proxies * Z * Z)) (st : HerculesLinux Rotary) :
  Forall (fun e => 0 <= snd e <= 255) events ->
  let st' := state_after (consoleEvents c events st) in
  (0 <= m_dJogLeftOld st <= 255 ->
   jog_room (m_iJogLeft st) (List.length events) ->
   0 <= m_dJogLeftOld st' <= 255
   /\ ((m_iJogLeft st' - m_iJogLeft st)
       - (m_dJogLeftOld st' - m_dJogLeftOld st)) mod 256 = 0)
  /\ (0 <= m_dJogRightOld st <= 255 ->
      jog_room (m_iJogRight st) (List.length events) ->
      0 <= m_dJogRightOld st' <= 255
      /\ ((m_iJogRight st' - m_iJogRight st)
          - (m_dJogRightOld st' - m_dJogRightOld st)) mod 256 = 0).
Proof.
  intros Hev st'.
  destruct (consoleEvents_jog_tracks events
              (m_iJogLeft st - m_dJogLeftOld st)
              (m_iJogRight st - m_dJogRightOld st) st Hev) as [HL HR].
  fold st' in HL, HR. split; intros H0 R0.
  - destruct HL as [H1 H2].
    { split; [|exact R0]. split; [exact H0|]. now rewrite Z.sub_diag. }
    split; [exact H1|].
    now replace (m_iJogLeft st' - m_iJogLeft st
                 - (m_dJogLeftOld st' - m_dJogLeftOld st))
      with (m_iJogLeft st' - m_dJogLeftOld st'
            - (m_iJogLeft st - m_dJogLeftOld st)) by lia.
  - destruct HR as [H1 H2].
    { split; [|exact R0]. split; [exact H0|]. now rewrite Z.sub_diag. }
    split; [exact H1|].
    now replace (m_iJogRight st' - m_iJogRight st
                 - (m_dJogRightOld st' - m_dJogRightOld st))
      with (m_iJogRight st' - m_dJogRightOld st'
            - (m_iJogRight st - m_dJogRightOld st)) by lia.
Qed.
End JogAccumulators.

(** X2. There and back.  Between two raw values the corrected difference
    one way is the opposite of the difference the other way, so a jog wheel
    that moves to a position and returns adds nothing to the accumulator,
    as long as the accumulator is 200 away from the ends of [int]. *)
Theorem jog_iDiff_antisymmetric {Rotary : Type} (a b : Z)
  (st : HerculesLinux Rotary) :
  0 <= a <= 255 -> 0 <= b <= 255 ->
  m_dJogLeftOld st = a ->
  jog_room (m_iJogLeft st) 1 ->
  let st' := state_after
               (sequence [LibDjConsole.case_LEFT_JOG b;
                          LibDjConsole.case_LEFT_JOG a] st) in
  jog_iDiff b a = - jog_iDiff a b
  /\ m_iJogLeft st' = m_iJogLeft st
  /\ m_dJogLeftOld st' = m_dJogLeftOld st.
Proof.
  intros Ha Hb Hold Hroom st'.
  assert (jog_iDiff b a = - jog_iDiff a b) as E.
  { rewrite !jog_iDiff_unwrap by (unfold in_int, int_min, int_max; lia).
    unfold stored_previous.
    destruct (Z.ltb_spec a 0); [lia|]. destruct (Z.ltb_spec b 0); [lia|].
    unfold DeltaUnwrapper_unwrap. cbn [fst].
    destruct (Z.ltb_spec (a - b) (-200)); destruct (Z.ltb_spec 200 (a - b));
      destruct (Z.ltb_spec (b - a) (-200)); destruct (Z.ltb_spec 200 (b - a));
      lia. }
  split; [exact E|]. subst st'.
  pose proof (jog_iDiff_range a b Ha Hb) as Hd.
  unfold jog_room in Hroom.
  cbn [sequence]. unfold LibDjConsole.case_LEFT_JOG.
  destruct st. cbn in Hold, Hroom. subst a.
  cbv [bind get assign ret state_after fst snd]. members.
  rewrite (int_of_double_sum m_iJogLeft0 (jog_iDiff m_dJogLeftOld0 b))
    by (unfold in_int, int_min, int_max in *; lia).
  rewrite E.
  rewrite int_of_double_sum by (unfold in_int, int_min, int_max in *; lia).
  split; [lia | reflexivity].
Qed.

Lemma jog_accumulator_tracks_wheel_witness :
  let st := set_m_dJogLeftOld 250 (LibDjConsole.constructor example_base) in
  let st' := state_after
               (consoleEvents example_djc
                  [(example_proxies, 40, 5); (example_proxies, 40, 0);
                   (example_proxies, 40, 130)] st) in
  m_dJogLeftOld st' = 130 /\ m_iJogLeft st' = 136
  /\ ((m_iJogLeft st' - m_iJogLeft st)
      - (m_dJogLeftOld st' - m_dJogLeftOld st)) mod 256 = 0.
Proof.
  cbv zeta. split; [reflexivity|]. split; [reflexivity|].
  assert (Forall (fun e : LibDjConsole.Proxies * Z * Z => 0 <= snd e <= 255)
            [(example_proxies, 40, 5); (example_proxies, 40, 0);
             (example_proxies, 40, 130)]) as Hev
    by (repeat constructor; simpl; lia).
  pose proof (jog_accumulator_tracks_wheel example_djc _
                (set_m_dJogLeftOld 250 (LibDjConsole.constructor example_base))
                Hev) as H.
  cbv zeta in H. destruct H as [H _].
  apply H; [simpl; lia | unfold jog_room, int_min, int_max; simpl; lia].
Defined.

Lemma jog_iDiff_antisymmetric_witness :
  jog_iDiff 5 250 = - jog_iDiff 250 5.
Proof.
  apply (jog_iDiff_antisymmetric 250 5 (set_m_dJogLeftOld 250 example_base));
    [lia | lia | reflexivity | unfold jog_room, int_min, int_max; simpl; lia].
Defined.

(** ** The pitch knobs of the libdjconsole variant *)

Ltac pitch_eq :=
  match goal with
  | |- (double_of_int ?p, _, _, _) = (inject_Z ?q, _, _, _) =>
      replace q with p by lia; reflexivity
  end.

(** The body of [PitchChange] once the members are initialised. *)
Lemma LibDjConsole_PitchChange_closed (side : string)
  (ev_value previous offset : Z) :
  0 <= ev_value <= 255 -> 0 <= offset <= 255 -> 0 <= previous <= 127 ->
  LibDjConsole.PitchChange side ev_value previous offset
  = (inject_Z (clamp 0 127 (previous + pitch_step offset ev_value)),
     clamp 0 127 (previous + pitch_step offset ev_value), ev_value,
     [QDebug "%s PitchAdjust %i -> new Pitch %i" [side]
        [pitch_step offset ev_value;
         clamp 0 127 (previous + pitch_step offset ev_value)]]).
Proof.
  intros He Ho Hp.
  unfold LibDjConsole.PitchChange, pitch_step, clamp.
  destruct (Z.ltb_spec previous 0); [lia|].
  assert (int_sub ev_value offset = ev_value - offset) as ->
    by (exact_ints; reflexivity).
  set (d := ev_value - offset). assert (-255 <= d <= 255) by (subst d; lia).
  clearbody d.
  destruct (Z.leb_spec 240 d).
  - assert (int_mul (int_sub 255 d) (-1) = d - 255) as ->
      by (exact_ints; lia).
    destruct (Z.leb_spec (d - 255) (-240)); [lia|].
    destruct (Z.ltb_spec 0 (d - 255)); [lia|]. cbn [andb orb].
    destruct (Z.ltb_spec (d - 255) 0); cbn [andb].
    + assert (int_add previous (d - 255) = previous + (d - 255)) as ->
        by (exact_ints; reflexivity).
      destruct (Z.ltb_spec 0 (previous + (d - 255))); pitch_eq.
    + pitch_eq.
  - destruct (Z.leb_spec d (-240)).
    + assert (int_add 255 d = d + 255) as -> by (exact_ints; lia).
      destruct (Z.ltb_spec 0 (d + 255)); cbn [andb orb].
      * assert (int_add previous (d + 255) = previous + (d + 255)) as ->
          by (exact_ints; reflexivity).
        destruct (Z.ltb_spec (previous + (d + 255)) 128); cbn [orb].
        -- pitch_eq.
        -- destruct (Z.ltb_spec (d + 255) 0); [lia|]. cbn [andb]. pitch_eq.
      * destruct (Z.ltb_spec (d + 255) 0); [lia|]. cbn [andb]. pitch_eq.
    + assert (int_add previous d = previous + d) as ->
        by (exact_ints; reflexivity).
      destruct (Z.ltb_spec 0 d); destruct (Z.ltb_spec d 0);
        destruct (Z.ltb_spec (previous + d) 128);
        destruct (Z.ltb_spec 0 (previous + d));
        cbn [andb orb]; try lia; pitch_eq.
Qed.

(** X3. [PitchChange] of the libdjconsole variant as a clamped counter.
    Once initialised (previous pitch in [0, 127], previous raw value in
    [0, 255]), a call on a raw value in [0, 255] stores the raw value and
    moves the pitch by the step between the two raw values, held within
    [0, 127]; the pitch is also the value returned.  A call on a negative
    previous pitch returns 64 whatever the raw value. *)
Theorem PitchChange_clamped_counter (side : string)
  (ev_value previous offset : Z) :
  0 <= ev_value <= 255 -> 0 <= offset <= 255 -> 0 <= previous <= 127 ->
  let step := pitch_step offset ev_value in
  let pitch := clamp 0 127 (previous + step) in
  LibDjConsole.PitchChange side ev_value previous offset
  = (inject_Z pitch, pitch, ev_value,
     [QDebug "%s PitchAdjust %i -> new Pitch %i" [side] [step; pitch]])
  /\ 0 <= pitch <= 127
  /\ (forall uninitialised other, uninitialised < 0 ->
      LibDjConsole.PitchChange side ev_value uninitialised other
      = (inject_Z 64, 64, ev_value, [])).
Proof.
  intros He Ho Hp step pitch. split; [|split].
  - now apply LibDjConsole_PitchChange_closed.
  - subst pitch. unfold clamp. lia.
  - intros u other Hu. unfold LibDjConsole.PitchChange.
    destruct (Z.ltb_spec u 0); [reflexivity | lia].
Qed.

Lemma PitchChange_clamped_counter_witness :
  pitch_step 250 5 = 10
  /\ LibDjConsole.PitchChange "Left" 5 120 250
     = (inject_Z 127, 127, 5,
        [QDebug "%s PitchAdjust %i -> new Pitch %i" ["Left"%string] [10; 127]]).
Proof.
  split; [reflexivity|].
  apply (PitchChange_clamped_counter "Left" 5 120 250); lia.
Defined.

Lemma LibDjConsole_PitchChange_ok (side : string)
  (ev_value previous offset : Z) :
  0 <= ev_value <= 255 -> pitch_members_ok previous offset ->
  let r := LibDjConsole.PitchChange side ev_value previous offset in
  pitch_members_ok (snd (fst (fst r))) (snd (fst r))
  /\ in_pitch_range (fst (fst (fst r)))
  /\ pitch_values (snd r) = [].
Proof.
  intros He [Hn|[Hp Ho]]; cbv zeta.
  - unfold LibDjConsole.PitchChange.
    destruct (Z.ltb_spec previous 0); [|lia]. cbn [fst snd].
    split; [right; lia|]. split; [|reflexivity].
    unfold in_pitch_range. split; discriminate.
  - rewrite LibDjConsole_PitchChange_closed by assumption. cbn [fst snd].
    assert (0 <= clamp 0 127 (previous + pitch_step offset ev_value) <= 127)
      by (unfold clamp; lia).
    split; [right; lia|]. split; [|reflexivity].
    unfold in_pitch_range.
    change 0%Q with (inject_Z 0). change 127%Q with (inject_Z 127).
    rewrite <- !Zle_Qle. lia.
Qed.

Lemma pitch_values_app (o1 o2 : list Output) :
  pitch_values (o1 ++ o2) = pitch_values o1 ++ pitch_values o2.
Proof. apply flat_map_app. Qed.

Lemma pitch_values_leds (leds : list Output) :
  forallb (fun o => negb (is_sink_write o) && negb (is_qdebug o)) leds = true ->
  pitch_values leds = [].
Proof.
  induction leds as [|o leds IH]; [reflexivity|].
  simpl. rewrite !andb_true_iff, !negb_true_iff.
  intros [[Hs Hq] H]. rewrite (IH H).
  destruct o as [v []| | |]; try reflexivity; discriminate Hs.
Qed.

Section PitchRange.
Context {Rotary : Type} {rotary : RotaryOps Rotary}.
Variable c : LibDjConsole.Constants.

Lemma consoleEvent_pitch_range (proxies : LibDjConsole.Proxies)
  (first second : Z) (st : HerculesLinux Rotary) :
  0 <= second <= 255 ->
  pitch_members_ok (m_iPitchLeft st) (m_iPitchOffsetLeft st)
  /\ pitch_members_ok (m_iPitchRight st) (m_iPitchOffsetRight st) ->
  let r := LibDjConsole.consoleEvent c proxies first second st in
  (pitch_members_ok (m_iPitchLeft (state_after r))
     (m_iPitchOffsetLeft (state_after r))
   /\ pitch_members_ok (m_iPitchRight (state_after r))
        (m_iPitchOffsetRight (state_after r)))
  /\ Forall in_pitch_range (pitch_values (trace_of r)).
Proof.
  intros Hv [HL HR]. cbv zeta.
  destruct (consoleEvent_cases c proxies first second st)
    as [[_ E]|[(_ & _ & E)|(Hs & Hf & led & rl & rr & leds & body & _ & Hleds & Hb & E)]];
    rewrite E; clear E;
    [split; [now split | constructor] | split; [now split | constructor] |].
  change (state_after (tt, ?x, ?o)) with x.
  change (trace_of (?a, ?x, ?o)) with o.
  rewrite !pitch_values_app, (pitch_values_leds leds Hleds).
  assert (pitch_values (if led =? 0 then [] else [LedsSetBit led true]) = [])
    as -> by now destruct (led =? 0).
  rewrite app_nil_r. cbn [app].
  set (s := set_m_pRotaryRight rr (set_m_pRotaryLeft rl st)).
  change (m_iPitchLeft st) with (m_iPitchLeft s) in HL.
  change (m_iPitchOffsetLeft st) with (m_iPitchOffsetLeft s) in HL.
  change (m_iPitchRight st) with (m_iPitchRight s) in HR.
  change (m_iPitchOffsetRight st) with (m_iPitchOffsetRight s) in HR.
  clearbody s.
  destruct Hb as [->|Hb]; [split; [now split | constructor]|].
  destruct (selector_cases_run c second s) as (V3 & V2 & V1 & V0).
  pose proof (LibDjConsole_PitchChange_ok "Left" second _ _ Hv HL) as PL.
  pose proof (LibDjConsole_PitchChange_ok "Right" second _ _ Hv HR) as PR.
  cbv zeta in PL, PR.
  dispatch_bodies Hb;
    rewrite ?pitch_call_run, ?V3, ?V2, ?V1, ?V0;
    unfold accepted_run, toggle_writes;
    repeat match goal with
      | |- context [if ?b then _ else _] => destruct b
      end;
    try (split; [split; [exact HL | exact HR] | constructor]).
  - destruct PL as (P1 & P2 & P3). split; [split; [exact P1 | exact HR]|].
    unfold trace_of. cbn [snd]. rewrite pitch_values_app, P3.
    cbn [app pitch_values flat_map]. constructor; [exact P2 | constructor].
  - destruct PR as (P1 & P2 & P3). split; [split; [exact HL | exact P1]|].
    unfold trace_of. cbn [snd]. rewrite pitch_values_app, P3.
    cbn [app pitch_values flat_map]. constructor; [exact P2 | constructor].
Qed.

(** X4. The pitch sent by the libdjconsole handler.  From construction on,
    over any sequence of events with raw values in [0, 255], every value
    the handler sends to a pitch control lies in [0, 127], and the pitch
    members stay either uninitialised or within their ranges. *)
Theorem pitch_sent_within_range
  (events : list (LibDjConsole.Proxies * Z * Z)) (base : HerculesLinux Rotary) :
  Forall (fun e => 0 <= snd e <= 255) events ->
  let r := consoleEvents c events (LibDjConsole.constructor base) in
  Forall in_pitch_range (pitch_values (trace_of r))
  /\ pitch_members_ok (m_iPitchLeft (state_after r))
       (m_iPitchOffsetLeft (state_after r))
  /\ pitch_members_ok (m_iPitchRight (state_after r))
       (m_iPitchOffsetRight (state_after r)).
Proof.
  intros Hev r. subst r. unfold consoleEvents.
  destruct (sequence_run
              (fun s =>
                 pitch_members_ok (m_iPitchLeft s) (m_iPitchOffsetLeft s)
                 /\ pitch_members_ok (m_iPitchRight s) (m_iPitchOffsetRight s))
              (fun o => Forall in_pitch_range (pitch_values [o]))
              (map (fun e => LibDjConsole.consoleEvent c (fst (fst e))
                                (snd (fst e)) (snd e)) events))
    with (s := LibDjConsole.constructor base) as [H1 H2].
  - apply Forall_map. apply Forall_impl with (2 := Hev).
    intros [[p f] v] Hv s Hs. cbn [fst snd] in *.
    destruct (consoleEvent_pitch_range p f v s Hv Hs) as [Hi Ht].
    cbv zeta in Hi, Ht. split; [exact Hi|].
    revert Ht. generalize (trace_of (LibDjConsole.consoleEvent c p f v s)).
    intros out. induction out as [|o out IH]; [constructor|].
    change (o :: out) with ([o] ++ out).
    rewrite pitch_values_app, Forall_app. intros [Ho Hout].
    constructor; [exact Ho | now apply IH].
  - split; left; simpl; lia.
  - split; [|exact H1].
    revert H2.
    generalize (trace_of
                  (sequence
                     (map (fun e => LibDjConsole.consoleEvent c (fst (fst e))
                                      (snd (fst e)) (snd e)) events)
                     (LibDjConsole.constructor base))).
    intros out H. induction H as [|o out Ho _ IH]; [constructor|].
    change (o :: out) with ([o] ++ out).
    rewrite pitch_values_app, Forall_app. now split.
Qed.
End PitchRange.

Lemma pitch_sent_within_range_witness :
  pitch_values
    (trace_of
       (consoleEvents example_djc
          [(example_proxies, 42, 200); (example_proxies, 42, 255);
           (example_proxies, 42, 1); (example_proxies, 42, 100)]
          (LibDjConsole.constructor example_base)))
  = [inject_Z 64; inject_Z 119; inject_Z 120; inject_Z 127]
  /\ Forall in_pitch_range
       [inject_Z 64; inject_Z 119; inject_Z 120; inject_Z 127].
Proof.
  split; [reflexivity|].
  apply (pitch_sent_within_range example_djc
           [(example_proxies, 42, 200); (example_proxies, 42, 255);
            (example_proxies, 42, 1); (example_proxies, 42, 100)]
           example_base).
  repeat constructor; simpl; lia.
Defined.

(** ** The pitch knobs of the original implementation, over time *)

Lemma PitchChange_after_construction (side : string) (raw : Z) :
  0 <= raw <= 255 ->
  Evdev.PitchChange side raw 127 (-9999) = ((253 # 4)%Q, raw, 127 - raw, []).
Proof.
  intros Hr. rewrite PitchChange_exact by lia.
  unfold PitchOffsetTracker_update, initialized_offset, uninitialized,
    fired_rule.
  cbn [Z.eqb Pos.eqb Z.opp find rule_condition].
  destruct (Z.eqb_spec (127 + (127 - raw)) 255); [lia|].
  destruct (Z.eqb_spec raw 255); destruct (Z.ltb_spec raw 127);
    destruct (Z.eqb_spec (127 + (127 - raw)) 0); try lia; cbn [andb];
    replace (raw + (127 - raw)) with 127 by lia; reflexivity.
Qed.

Lemma PitchChange_unit_step (side : string) (raw previous offset : Z) :
  pitch_tracked previous offset -> unit_step previous raw ->
  exists offset',
    Evdev.PitchChange side raw previous offset
    = (((inject_Z (raw + offset') - (1 # 2)) / 2)%Q, raw, offset', [])
    /\ pitch_tracked raw offset'
    /\ -1 <= (raw + offset') - (previous + offset) <= 1.
Proof.
  intros [Hp Ht] [Hr Hstep].
  rewrite PitchChange_exact by lia.
  unfold PitchOffsetTracker_update, initialized_offset, uninitialized.
  destruct (Z.eqb_spec offset (-9999)); [lia|].
  eexists. split; [reflexivity|].
  unfold pitch_tracked, fired_rule. cbn [find rule_condition].
  destruct (Z.eqb_spec (previous + offset) 255);
    destruct (Z.ltb_spec previous raw);
    destruct (Z.eqb_spec previous 255);
    destruct (Z.eqb_spec raw 0);
    destruct (Z.eqb_spec raw 255);
    destruct (Z.eqb_spec previous 0);
    destruct (Z.leb_spec 0 offset);
    destruct (Z.ltb_spec raw previous);
    destruct (Z.eqb_spec (previous + offset) 0);
    cbn [andb rule_offset]; lia.
Qed.

Lemma pitch_percent_range (position : Z) :
  0 <= position <= 255 ->
  (- (1 # 4) <= (inject_Z position - (1 # 2)) / 2 <= 509 # 4)%Q.
Proof.
  intros H. unfold Qle, Qdiv, Qminus, Qplus, Qmult, Qinv, Qopp, inject_Z.
  cbn [Qnum Qden]. lia.
Qed.

Section PitchKnobs.
Context {Rotary : Type} {rotary : RotaryOps Rotary}.
Variable c : Evdev.Constants.
Hypothesis c_ok : Evdev.constants_ok c = true.

(** X5. The first pitch event centres the pitch.  After construction, the
    first event of a pitch knob sends 63.25 whatever its raw value, and
    leaves the offset that maps that raw value to position 127. *)
Theorem first_pitch_event_is_centre (raw : Z) (base : HerculesLinux Rotary) :
  0 <= raw <= 255 ->
  let st := Evdev.constructor base in
  Evdev.getNextEvent_EV_ABS c (Evdev.kiHerculesLeftPitch c) raw st
  = (tt, set_m_iPitchOffsetLeft (127 - raw) (set_m_iPitchLeft raw st),
     [SendEvent (253 # 4)%Q LeftPitch])
  /\ Evdev.getNextEvent_EV_ABS c (Evdev.kiHerculesRightPitch c) raw st
     = (tt, set_m_iPitchOffsetRight (127 - raw) (set_m_iPitchRight raw st),
        [SendEvent (253 # 4)%Q RightPitch])
  /\ ((253 # 4) == 63.25)%Q.
Proof.
  intros Hr st.
  destruct (pitch_events c c_ok raw st) as [EL ER]. cbv zeta in EL, ER.
  rewrite EL, ER. subst st.
  change (m_iPitchLeft (Evdev.constructor base)) with 127.
  change (m_iPitchOffsetLeft (Evdev.constructor base)) with (-9999).
  change (m_iPitchRight (Evdev.constructor base)) with 127.
  change (m_iPitchOffsetRight (Evdev.constructor base)) with (-9999).
  rewrite !PitchChange_after_construction by exact Hr.
  repeat split.
Qed.
End PitchKnobs.

(** X6. Slow motion keeps the pitch in range.  When the members of a side
    place the knob at a position in [0, 255] and the next raw value is the
    same or a neighbour on the 8-bit counter, [PitchChange] leaves members
    that place the knob in [0, 255] again, at most one position away, and
    returns a value between -0.25 and 127.25. *)
Theorem PitchChange_keeps_range (side : string) (raw previous offset : Z) :
  pitch_tracked previous offset -> unit_step previous raw ->
  let r := Evdev.PitchChange side raw previous offset in
  let previous' := snd (fst (fst r)) in
  let offset' := snd (fst r) in
  previous' = raw
  /\ pitch_tracked previous' offset'
  /\ -1 <= (previous' + offset') - (previous + offset) <= 1
  /\ (- (1 # 4) <= fst (fst (fst r)) <= 509 # 4)%Q.
Proof.
  intros Ht Hs. cbv zeta.
  destruct (PitchChange_unit_step side raw previous offset Ht Hs)
    as (o & E & Ht' & Hd).
  rewrite E. cbn [fst snd]. split; [reflexivity|]. split; [exact Ht'|].
  split; [exact Hd|]. apply pitch_percent_range. apply Ht'.
Qed.

(** X7. A jump of two raw units can leave the range, as the comment in the
    source says.  From position 254 of a knob whose raw value is at most
    253, a raw value two units up fires no rule: the offset stays and the
    result is 127.75, outside the range. *)
Theorem PitchChange_fast_spin_escapes (side : string) (previous offset : Z) :
  0 <= previous <= 253 -> previous + offset = 254 ->
  let r := Evdev.PitchChange side (previous + 2) previous offset in
  pitch_tracked previous offset
  /\ snd (fst r) = offset
  /\ ~ pitch_tracked (snd (fst (fst r))) (snd (fst r))
  /\ (fst (fst (fst r)) == 127.75)%Q.
Proof.
  intros Hp Hpos. cbv zeta.
  rewrite PitchChange_exact by lia.
  unfold PitchOffsetTracker_update, initialized_offset, uninitialized,
    fired_rule.
  destruct (Z.eqb_spec offset (-9999)); [lia|].
  cbn [find rule_condition].
  destruct (Z.eqb_spec (previous + offset) 255); [lia|].
  destruct (Z.eqb_spec previous 255); [lia|].
  destruct (Z.eqb_spec previous 0); destruct (Z.eqb_spec (previous + 2) 255);
    try lia; destruct (Z.ltb_spec (previous + 2) previous); try lia;
    cbn [andb fst snd];
    (split; [unfold pitch_tracked; lia|]);
    (split; [reflexivity|]);
    (split; [unfold pitch_tracked; lia|]);
    replace (previous + 2 + offset) with 256 by lia; reflexivity.
Qed.

Lemma first_pitch_event_is_centre_witness :
  trace_of
    (Evdev.getNextEvent_EV_ABS example_evdev 5 200
       (Evdev.constructor example_base))
  = [SendEvent (253 # 4)%Q LeftPitch].
Proof.
  pose proof (first_pitch_event_is_centre example_evdev eq_refl 200
                example_base) as H.
  cbv zeta in H. destruct H as [H _]; [lia|].
  change (Evdev.kiHerculesLeftPitch example_evdev) with 5 in H.
  rewrite H. reflexivity.
Defined.

Lemma PitchChange_keeps_range_witness :
  pitch_tracked 255 0 /\ unit_step 255 0
  /\ Evdev.PitchChange "Left" 0 255 0 = ((509 # 4)%Q, 0, 255, [])
  /\ pitch_tracked 0 255.
Proof.
  assert (pitch_tracked 255 0) as Ht by (unfold pitch_tracked; lia).
  assert (unit_step 255 0) as Hs by (unfold unit_step; lia).
  split; [exact Ht|]. split; [exact Hs|]. split; [reflexivity|].
  exact (proj1 (proj2 (PitchChange_keeps_range "Left" 0 255 0 Ht Hs))).
Defined.

Lemma PitchChange_fast_spin_escapes_witness :
  Evdev.PitchChange "Left" 12 10 244 = ((511 # 4)%Q, 12, 244, [])
  /\ ~ pitch_tracked 12 244.
Proof.
  split; [reflexivity|].
  pose proof (PitchChange_fast_spin_escapes "Left" 10 244) as H.
  cbv zeta in H. destruct H as (_ & _ & H & _); [lia | lia |]. exact H.
Defined.

(** ** The libdjconsole handler: headphone booleans and button events *)

Lemma headphone_events_leds (leds : list Output) :
  forallb (fun o => negb (is_sink_write o) && negb (is_qdebug o)) leds = true ->
  filter is_left_headphone_event leds = []
  /\ filter is_right_headphone_event leds = [].
Proof.
  induction leds as [|o leds IH]; [split; reflexivity|].
  simpl. rewrite !andb_true_iff, !negb_true_iff.
  intros [[Hs Hq] H]. destruct (IH H) as [-> ->].
  destruct o; try discriminate Hs; split; reflexivity.
Qed.

Lemma headphone_events_qdebug (out : list Output) :
  forallb is_qdebug out = true ->
  filter is_left_headphone_event out = []
  /\ filter is_right_headphone_event out = [].
Proof.
  induction out as [|o out IH]; [split; reflexivity|].
  simpl. rewrite andb_true_iff. intros [Hq H]. destruct (IH H) as [-> ->].
  destruct o; try discriminate Hq; split; reflexivity.
Qed.

Section HeadphoneParity.
Context {Rotary : Type} {rotary : RotaryOps Rotary}.
Variable c : LibDjConsole.Constants.

Lemma consoleEvent_headphone_parity (proxies : LibDjConsole.Proxies)
  (first second : Z) (st : HerculesLinux Rotary) :
  let r := LibDjConsole.consoleEvent c proxies first second st in
  (left_headphone_events (trace_of r) <= 1)%nat
  /\ m_bHeadphoneLeft (state_after r)
     = xorb (m_bHeadphoneLeft st)
         (Nat.odd (left_headphone_events (trace_of r)))
  /\ (right_headphone_events (trace_of r) <= 1)%nat
  /\ m_bHeadphoneRight (state_after r)
     = xorb (m_bHeadphoneRight st)
         (Nat.odd (right_headphone_events (trace_of r))).
Proof.
  cbv zeta. unfold left_headphone_events, right_headphone_events.
  destruct (consoleEvent_cases c proxies first second st)
    as [[_ E]|[(_ & _ & E)|(Hs & Hf & led & rl & rr & leds & body & _ & Hleds & Hb & E)]];
    rewrite E; clear E.
  1, 2: cbn; rewrite !xorb_false_r; repeat split; lia.
  change (state_after (tt, ?x, ?o)) with x.
  change (trace_of (?a, ?x, ?o)) with o.
  rewrite !filter_app.
  destruct (headphone_events_leds leds Hleds) as [-> ->].
  assert (filter is_left_headphone_event
            (if led =? 0 then [] else [LedsSetBit led true]) = []) as ->
    by now destruct (led =? 0).
  assert (filter is_right_headphone_event
            (if led =? 0 then [] else [LedsSetBit led true]) = []) as ->
    by now destruct (led =? 0).
  rewrite !app_nil_r. cbn [app].
  set (s := set_m_pRotaryRight rr (set_m_pRotaryLeft rl st)).
  change (m_bHeadphoneLeft st) with (m_bHeadphoneLeft s).
  change (m_bHeadphoneRight st) with (m_bHeadphoneRight s).
  clearbody s.
  destruct Hb as [->|Hb].
  { cbn. rewrite !xorb_false_r. repeat split; lia. }
  destruct (selector_cases_run c second s) as (V3 & V2 & V1 & V0).
  destruct s as [? ? ? ? ? ? ? ? ? ? l r ? ? sel ? ?].
  dispatch_bodies Hb;
    rewrite ?pitch_call_run, ?V3, ?V2, ?V1, ?V0;
    repeat match goal with
      | |- context [if ?b then _ else _] => destruct b
      end;
    unfold trace_of, state_after; cbn [fst snd];
    rewrite ?filter_app;
    repeat match goal with
      | |- context [snd (LibDjConsole.PitchChange ?a ?b ?p ?o)] =>
          destruct (headphone_events_qdebug _
                      (LibDjConsole_PitchChange_trace a b p o)) as [-> ->]
      end;
    try (destruct l, r; cbn; repeat split; lia).
Qed.

Lemma sequence_parity (member : HerculesLinux Rotary -> bool)
  (event : Output -> bool) (handlers : list (M (Rotary := Rotary) unit)) :
  Forall (fun h => forall s,
            member (state_after (h s))
            = xorb (member s)
                (Nat.odd (List.length (filter event (trace_of (h s))))))
    handlers ->
  forall s,
    member (state_after (sequence handlers s))
    = xorb (member s)
        (Nat.odd (List.length (filter event (trace_of (sequence handlers s))))).
Proof.
  induction 1 as [|h rest Hh _ IH]; intros s.
  - cbn. now rewrite xorb_false_r.
  - cbn [sequence]. unfold bind. specialize (Hh s).
    destruct (h s) as [[[] s1] o1]. unfold state_after, trace_of in Hh.
    cbn [fst snd] in Hh. specialize (IH s1).
    destruct (sequence rest s1) as [[[] s2] o2].
    unfold state_after, trace_of in *. cbn [fst snd] in *.
    rewrite IH, Hh, filter_app, length_app, Nat.odd_add, xorb_assoc.
    reflexivity.
Qed.

(** X8. Headphone booleans mirror the button events.  One event sends at
    most one button event to each headphone control, and toggles the
    boolean of that side exactly when it sends one; so over any sequence of
    events, each boolean has changed if and only if an odd number of button
    events went to its control. *)
Theorem headphone_booleans_mirror_button_events
  (events : list (LibDjConsole.Proxies * Z * Z)) (st : HerculesLinux Rotary)
  (proxies : LibDjConsole.Proxies) (first second : Z) :
  let r := consoleEvents c events st in
  let r1 := LibDjConsole.consoleEvent c proxies first second st in
  m_bHeadphoneLeft (state_after r)
  = xorb (m_bHeadphoneLeft st) (Nat.odd (left_headphone_events (trace_of r)))
  /\ m_bHeadphoneRight (state_after r)
     = xorb (m_bHeadphoneRight st)
         (Nat.odd (right_headphone_events (trace_of r)))
  /\ (left_headphone_events (trace_of r1) <= 1)%nat
  /\ (right_headphone_events (trace_of r1) <= 1)%nat.
Proof.
  cbv zeta. split; [|split].
  - unfold consoleEvents, left_headphone_events.
    apply sequence_parity. apply Forall_map, Forall_forall.
    intros [[p f] v] _ s. cbn [fst snd].
    apply (consoleEvent_headphone_parity p f v s).
  - unfold consoleEvents, right_headphone_events.
    apply sequence_parity. apply Forall_map, Forall_forall.
    intros [[p f] v] _ s. cbn [fst snd].
    apply (consoleEvent_headphone_parity p f v s).
  - destruct (consoleEvent_headphone_parity proxies first second st)
      as (H1 & _ & H2 & _).
    split; assumption.
Qed.
End HeadphoneParity.


(** ** The libdjconsole handler: members and the events that change them *)

Section CrossControl.
Context {Rotary : Type} {rotary : RotaryOps Rotary}.
Variable c : LibDjConsole.Constants.
Variable proxies : LibDjConsole.Proxies.

(** The first [switch] changes a rotary on the three buttons of its side
    only, and nothing else. *)
Lemma led_switch_frame (first : Z) (st : HerculesLinux Rotary) :
  exists led rl rr leds,
    switch first (LibDjConsole.led_cases c first) (ret 0) st
    = (led, set_m_pRotaryRight rr (set_m_pRotaryLeft rl st), leds)
    /\ (~ In first [LibDjConsole.LEFT_1 c; LibDjConsole.LEFT_2 c;
                    LibDjConsole.LEFT_3 c] -> rl = m_pRotaryLeft st)
    /\ (~ In first [LibDjConsole.RIGHT_1 c; LibDjConsole.RIGHT_2 c;
                    LibDjConsole.RIGHT_3 c] -> rr = m_pRotaryRight st).
Proof.
  revert st. apply switch_elim.
  - intros st. destruct st; do 4 eexists; cbn; members.
    split; [reflexivity|]. auto.
  - unfold LibDjConsole.led_cases.
    repeat apply Forall_cons; try apply Forall_nil; cbn [fst snd];
      intros E st; destruct st; do 4 eexists; cbn; members;
      (split; [reflexivity|]);
      split; intros N; try reflexivity; exfalso; apply N; rewrite E;
      simpl; tauto.
Qed.

Lemma consoleEvent_two_switches (first second : Z)
  (st : HerculesLinux Rotary) :
  second <> 0 -> first <> 0 ->
  state_after (LibDjConsole.consoleEvent c proxies first second st)
  = state_after
      (switch first (LibDjConsole.dispatch_cases c proxies second)
         (qDebug "Button %i = %i" [] [first; second])
         (state_after
            (switch first (LibDjConsole.led_cases c first) (ret 0) st))).
Proof.
  intros Hs Hf. unfold LibDjConsole.consoleEvent.
  apply Z.eqb_neq in Hs, Hf. rewrite Hs, Hf. cbn [negb when]. cbv zeta.
  unfold bind at 1.
  destruct (switch first (LibDjConsole.led_cases c first) (ret 0) st)
    as [[led s1] o1].
  unfold bind at 1. unfold state_after at 3. cbn [fst snd].
  match goal with
  | |- context [switch first ?cs ?d s1] =>
      destruct (switch first cs d s1) as [[[] s2] o2]
  end.
  destruct (led =? 0); reflexivity.
Qed.

(** X9. No event changes the members of another control.  Whatever the
    event, the pitch members of a side change on the pitch code of that
    side only, the jog members on its jog code only, the master-tempo
    boolean on its master-tempo code only, the headphone boolean on its
    monitor code or a selector code only, and the rotary on the three
    sensitivity buttons of its side only; the two volume members never
    change. *)
Theorem consoleEvent_no_cross_control (first second : Z)
  (st : HerculesLinux Rotary) :
  let st' := state_after (LibDjConsole.consoleEvent c proxies first second st) in
  (first <> LibDjConsole.LEFT_PITCH c ->
   m_iPitchLeft st' = m_iPitchLeft st
   /\ m_iPitchOffsetLeft st' = m_iPitchOffsetLeft st)
  /\ (first <> LibDjConsole.RIGHT_PITCH c ->
      m_iPitchRight st' = m_iPitchRight st
      /\ m_iPitchOffsetRight st' = m_iPitchOffsetRight st)
  /\ (first <> LibDjConsole.LEFT_JOG c ->
      m_dJogLeftOld st' = m_dJogLeftOld st /\ m_iJogLeft st' = m_iJogLeft st)
  /\ (first <> LibDjConsole.RIGHT_JOG c ->
      m_dJogRightOld st' = m_dJogRightOld st
      /\ m_iJogRight st' = m_iJogRight st)
  /\ (first <> LibDjConsole.LEFT_MASTER_TEMPO c ->
      m_bMasterTempoLeft st' = m_bMasterTempoLeft st)
  /\ (first <> LibDjConsole.RIGHT_MASTER_TEMPO c ->
      m_bMasterTempoRight st' = m_bMasterTempoRight st)
  /\ (~ In first [LibDjConsole.LEFT_MONITOR c; 103; 102; 101; 100] ->
      m_bHeadphoneLeft st' = m_bHeadphoneLeft st)
  /\ (~ In first [LibDjConsole.RIGHT_MONITOR c; 103; 102; 101; 100] ->
      m_bHeadphoneRight st' = m_bHeadphoneRight st)
  /\ (~ In first [LibDjConsole.LEFT_1 c; LibDjConsole.LEFT_2 c;
                  LibDjConsole.LEFT_3 c] ->
      m_pRotaryLeft st' = m_pRotaryLeft st)
  /\ (~ In first [LibDjConsole.RIGHT_1 c; LibDjConsole.RIGHT_2 c;
                  LibDjConsole.RIGHT_3 c] ->
      m_pRotaryRight st' = m_pRotaryRight st)
  /\ m_dLeftVolumeOld st' = m_dLeftVolumeOld st
  /\ m_dRightVolumeOld st' = m_dRightVolumeOld st.
Proof.
  cbv zeta.
  destruct (Z.eq_dec second 0) as [->|Hs]; [cbn; tauto|].
  destruct (Z.eq_dec first 0) as [->|Hf].
  { unfold LibDjConsole.consoleEvent. apply Z.eqb_neq in Hs. rewrite Hs.
    cbn. tauto. }
  rewrite consoleEvent_two_switches by assumption.
  destruct (led_switch_frame first st) as (led & rl & rr & leds & E & HL & HR).
  rewrite E. change (state_after (led, ?x, leds)) with x. clear E.
  match goal with
  | |- context [switch first ?cs ?d _] =>
      destruct (switch_in first cs d) as [E|Hb];
      [rewrite E; destruct st; cbn in *; repeat split; auto|];
      revert Hb; generalize (switch first cs d)
  end.
  intros body Hb.
  destruct (selector_cases_run c second
              (set_m_pRotaryRight rr (set_m_pRotaryLeft rl st)))
    as (V3 & V2 & V1 & V0).
  destruct st as [? ? ? ? ? ? ? ? ? ? l r ? ? sel rl0 rr0].
  cbn [m_pRotaryLeft m_pRotaryRight] in HL, HR.
  dispatch_bodies Hb;
    rewrite ?pitch_call_run, ?V3, ?V2, ?V1, ?V0;
    repeat match goal with
      | |- context [if ?b then _ else _] => destruct b
      end;
    unfold state_after; cbn;
    repeat split; intros; auto;
    try (exfalso;
         match goal with
         | N : ~ _ |- _ => apply N; simpl; intuition reflexivity
         end).
Qed.
End CrossControl.

(** ** The libdjconsole handler: the LED of a control *)

Lemma leds_setBit_qdebug (out : list Output) :
  forallb is_qdebug out = true -> filter is_leds_setBit out = [].
Proof.
  induction out as [|o out IH]; [reflexivity|].
  simpl. rewrite andb_true_iff. intros [Hq H]. rewrite (IH H).
  destruct o; try discriminate Hq; reflexivity.
Qed.

Section ControlLeds.
Context {Rotary : Type} {rotary : RotaryOps Rotary}.
Variable c : LibDjConsole.Constants.
Variable proxies : LibDjConsole.Proxies.
Hypothesis c_ok : LibDjConsole.constants_ok c = true.

(** The second [switch] writes no LED. *)
Lemma dispatch_no_leds (first second : Z) (s : HerculesLinux Rotary) :
  filter is_leds_setBit
    (trace_of
       (switch first (LibDjConsole.dispatch_cases c proxies second)
          (qDebug "Button %i = %i" [] [first; second]) s))
  = [].
Proof.
  match goal with
  | |- context [switch first ?cs ?d _] =>
      destruct (switch_in first cs d) as [E|Hb];
      [rewrite E; reflexivity|];
      revert Hb; generalize (switch first cs d)
  end.
  intros body Hb.
  destruct (selector_cases_run c second s) as (V3 & V2 & V1 & V0).
  dispatch_bodies Hb;
    rewrite ?pitch_call_run, ?V3, ?V2, ?V1, ?V0;
    unfold accepted_run, toggle_writes;
    repeat match goal with
      | |- context [if ?b then _ else _] => destruct b
      end;
    unfold trace_of; cbn [snd]; rewrite ?filter_app;
    repeat match goal with
      | |- context [snd (LibDjConsole.PitchChange ?a ?b ?p ?o)] =>
          rewrite (leds_setBit_qdebug _
                     (LibDjConsole_PitchChange_trace a b p o))
      end;
    reflexivity.
Qed.

(** X10. The LED of a control follows its value.  For the ten controls
    that have an LED of their own (play, cue, master tempo, auto beat and
    monitor on each side), an event with a value other than 0 sets that LED
    on, an event with value 0 sets it off, and no other LED is written. *)
Theorem control_led_follows_value (first second : Z)
  (st : HerculesLinux Rotary) :
  In first
    [LibDjConsole.LEFT_PLAY c; LibDjConsole.LEFT_CUE c;
     LibDjConsole.LEFT_MASTER_TEMPO c; LibDjConsole.LEFT_AUTO_BEAT c;
     LibDjConsole.LEFT_MONITOR c;
     LibDjConsole.RIGHT_PLAY c; LibDjConsole.RIGHT_CUE c;
     LibDjConsole.RIGHT_MASTER_TEMPO c; LibDjConsole.RIGHT_AUTO_BEAT c;
     LibDjConsole.RIGHT_MONITOR c] ->
  first <> 0 ->
  filter is_leds_setBit
    (trace_of (LibDjConsole.consoleEvent c proxies first second st))
  = [LedsSetBit first (negb (second =? 0))].
Proof.
  intros Hin Hf. unfold LibDjConsole.consoleEvent.
  destruct (Z.eqb_spec second 0) as [->|Hs]; [reflexivity|].
  apply Z.eqb_neq in Hf. rewrite Hf. cbn [negb when]. cbv zeta.
  assert (distinctb (map fst (LibDjConsole.led_cases (Rotary := Rotary) c first))
          = true) as Hd.
  { change (distinctb (LibDjConsole.led_labels c) = true).
    unfold LibDjConsole.constants_ok in c_ok.
    apply andb_true_iff in c_ok. destruct c_ok as [H _].
    apply andb_true_iff in H. apply H. }
  rewrite (switch_hit first (ret first) _ (ret 0) Hd).
  2: { simpl in Hin. unfold LibDjConsole.led_cases.
       repeat (destruct Hin as [<-|Hin]; [simpl; tauto|]). destruct Hin. }
  unfold bind at 1. unfold ret at 1. unfold bind at 1.
  pose proof (dispatch_no_leds first second st) as N.
  match goal with
  | |- context [switch first ?cs ?d st] =>
      destruct (switch first cs d st) as [[[] s2] o2]
  end.
  unfold trace_of in *. cbn [snd] in *. rewrite Hf. cbn [negb when].
  unfold Leds_setBit, emit. cbn [snd app]. rewrite filter_app, N. reflexivity.
Qed.
End ControlLeds.

Lemma control_led_follows_value_witness :
  filter is_leds_setBit
    (trace_of
       (LibDjConsole.consoleEvent example_djc example_proxies 2 1
          (LibDjConsole.constructor example_base)))
  = [LedsSetBit 2 true]
  /\ sink_writes
       (trace_of
          (LibDjConsole.consoleEvent example_djc example_proxies 2 1
             (LibDjConsole.constructor example_base)))
     = [SendButtonEvent true LeftBtnCue].
Proof.
  split; [|reflexivity].
  apply (control_led_follows_value example_djc example_proxies eq_refl 2 1
           (LibDjConsole.constructor example_base));
    [simpl; tauto | discriminate].
Defined.

(** ** The original implementation: time-outs of [select] *)

Lemma left_jog_values_app (a b : list Output) :
  left_jog_values (a ++ b) = left_jog_values a ++ left_jog_values b.
Proof. apply flat_map_app. Qed.

Lemma right_jog_values_app (a b : list Output) :
  right_jog_values (a ++ b) = right_jog_values a ++ right_jog_values b.
Proof. apply flat_map_app. Qed.

(** The test [r != 0 || r != old] fails exactly on a zero after a zero. *)
Lemma timeout_test (r old : double) :
  negb (Qeq_bool r 0) || negb (Qeq_bool r old)
  = negb (Qeq_bool r 0 && Qeq_bool old 0).
Proof.
  destruct (Qeq_bool r 0) eqn:R; cbn [negb orb andb]; [|reflexivity].
  f_equal. apply Qeq_bool_iff in R.
  destruct (Qeq_bool r old) eqn:O, (Qeq_bool old 0) eqn:Z0; try reflexivity.
  - apply Qeq_bool_iff in O. apply Qeq_bool_neq in Z0. exfalso. apply Z0.
    now rewrite <- O.
  - apply Qeq_bool_iff in Z0. apply Qeq_bool_neq in O. exfalso. apply O.
    now rewrite Z0.
Qed.

(** One time-out, in closed form. *)
Lemma getNextEvent_timeout_run {Rotary : Type} {rotary : RotaryOps Rotary}
  (s : HerculesLinux Rotary) :
  let l := Rotary_filter (m_pRotaryLeft s) 0%Q in
  let r := Rotary_filter (m_pRotaryRight s) 0%Q in
  EvdevDriver.getNextEvent_timeout s
  = (tt,
     set_m_dRightVolumeOld (snd r)
       (set_m_pRotaryRight (fst r)
         (set_m_dLeftVolumeOld (snd l) (set_m_pRotaryLeft (fst l) s))),
     (if Qeq_bool (snd l) 0 && Qeq_bool (m_dLeftVolumeOld s) 0
      then [] else [SendEvent (snd l) LeftJog])
     ++ (if Qeq_bool (snd r) 0 && Qeq_bool (m_dRightVolumeOld s) 0
         then [] else [SendEvent (snd r) RightJog])).
Proof.
  cbv zeta. unfold EvdevDriver.getNextEvent_timeout.
  unfold Evdev.m_pRotaryLeft_filter, Evdev.m_pRotaryRight_filter.
  destruct s; cbv [bind get assign]; members.
  destruct (Rotary_filter m_pRotaryLeft0 0%Q) as [rl yl].
  cbn [fst snd]. rewrite timeout_test.
  destruct (Qeq_bool yl 0 && Qeq_bool _ 0); cbn [negb];
    cbv [bind get assign when sendEvent emit ret app]; members;
    destruct (Rotary_filter m_pRotaryRight0 0%Q) as [rr yr];
    cbn [fst snd]; rewrite timeout_test;
    destruct (Qeq_bool yr 0 && Qeq_bool _ 0);
    cbv [bind get assign when sendEvent emit ret negb app]; members;
    reflexivity.
Qed.

Lemma timeout_is_jog_only {Rotary : Type} {rotary : RotaryOps Rotary}
  (s : HerculesLinux Rotary) :
  forallb is_jog_event (trace_of (EvdevDriver.getNextEvent_timeout s)) = true.
Proof.
  rewrite getNextEvent_timeout_run. unfold trace_of. cbn [snd].
  destruct (_ && _), (_ && _); reflexivity.
Qed.

(** X11. Time-outs of [select] in a row: the left jog control receives the
    outputs the left rotary gives when fed 0, without every zero that
    follows a zero (the value before the first being the stored
    [m_dLeftVolumeOld]); the same on the right; and nothing else is
    sent. *)
Theorem timeouts_send_until_zero {Rotary : Type} {rotary : RotaryOps Rotary}
  (n : nat) (s : HerculesLinux Rotary) :
  let r := sequence (repeat EvdevDriver.getNextEvent_timeout n) s in
  left_jog_values (trace_of r)
  = drop_repeated_zeros (m_dLeftVolumeOld s) (idle_outputs (m_pRotaryLeft s) n)
  /\ right_jog_values (trace_of r)
     = drop_repeated_zeros (m_dRightVolumeOld s)
         (idle_outputs (m_pRotaryRight s) n)
  /\ forallb is_jog_event (trace_of r) = true.
Proof.
  cbv zeta. revert s. induction n as [|n IH]; intros s; [repeat split|].
  cbn [repeat sequence idle_outputs]. unfold bind.
  rewrite getNextEvent_timeout_run.
  match goal with |- context [sequence _ ?s1] =>
    specialize (IH s1); destruct (sequence _ s1) as [[[] s2] o2] end.
  unfold trace_of in *. cbn [snd] in *.
  destruct IH as (IL & IR & IJ).
  rewrite left_jog_values_app, right_jog_values_app, forallb_app, IL, IR, IJ.
  destruct s; members.
  destruct (Rotary_filter m_pRotaryLeft0 0%Q) as [rl yl].
  destruct (Rotary_filter m_pRotaryRight0 0%Q) as [rr yr].
  cbn [fst snd drop_repeated_zeros].
  destruct (Qeq_bool yl 0 && Qeq_bool _ 0), (Qeq_bool yr 0 && Qeq_bool _ 0);
    repeat split.
Qed.

(** ** The original implementation: [getNextEvent] as a whole *)

Section DriverFacts.
Context {Rotary : Type} {rotary : RotaryOps Rotary}.
Variable c : EvdevDriver.Constants.
Hypothesis c_ok : EvdevDriver.constants_ok c = true.
Variable write_ok : Z -> Z -> Z -> bool.
Variable strerror : string.
Variable changeJogMode : Z -> Z -> EvdevDriver.D (Rotary := Rotary) unit.


Lemma abs_codes_ok : Evdev.constants_ok (EvdevDriver.abs_codes c) = true.
Proof.
  unfold EvdevDriver.constants_ok in c_ok.
  apply andb_true_iff in c_ok. tauto.
Qed.

Lemma key_labels_ok : distinctb (EvdevDriver.key_labels c) = true.
Proof.
  unfold EvdevDriver.constants_ok in c_ok.
  apply andb_true_iff in c_ok. tauto.
Qed.

Lemma outputs_of_app (a b : list EvdevDriver.Action) :
  outputs_of (a ++ b) = outputs_of a ++ outputs_of b.
Proof. apply flat_map_app. Qed.

Lemma outputs_of_map (out : list Output) :
  outputs_of (map EvdevDriver.Out out) = out.
Proof. induction out as [|o r IH]; cbn; [reflexivity | now f_equal]. Qed.

(** A time-out and an [EV_ABS] event are the handlers of the first part on
    the handler members. *)
Lemma getNextEvent_timeout_lift (v : Z) (ev : option (Z * Z * Z))
  (o : EvdevDriver.Object Rotary) :
  v <= 0 ->
  EvdevDriver.getNextEvent c write_ok strerror changeJogMode v ev o
  = EvdevDriver.lift EvdevDriver.getNextEvent_timeout o.
Proof.
  intros Hv. unfold EvdevDriver.getNextEvent.
  destruct (Z.leb_spec v 0); [reflexivity | lia].
Qed.

Lemma getNextEvent_abs_lift (v ev_code ev_value : Z)
  (o : EvdevDriver.Object Rotary) :
  0 < v ->
  EvdevDriver.getNextEvent c write_ok strerror changeJogMode v (Some (EvdevDriver.EV_ABS, ev_code, ev_value)) o
  = EvdevDriver.lift
      (Evdev.getNextEvent_EV_ABS (EvdevDriver.abs_codes c) ev_code ev_value) o.
Proof.
  intros Hv. unfold EvdevDriver.getNextEvent.
  destruct (Z.leb_spec v 0); [lia | reflexivity].
Qed.

(** X12. The time-out branch keeps its last output in [m_dLeftVolumeOld],
    which the volume events also write.  So after a left volume event with
    a raw value from 1 to 255 the next time-out sends the output of the
    left rotary to the left jog control whatever it is, also a zero; the
    same on the right. *)
Theorem volume_event_wakes_jog (v1 v2 ev_value : Z) (ev2 : option (Z * Z * Z))
  (o : EvdevDriver.Object Rotary) :
  0 < v1 -> v2 <= 0 -> 1 <= ev_value <= 255 ->
  let h := EvdevDriver.handler_members o in
  let left :=
    EvdevDriver.and_then
      (EvdevDriver.getNextEvent c write_ok strerror changeJogMode v1
         (Some (EvdevDriver.EV_ABS,
                Evdev.kiHerculesLeftVolume (EvdevDriver.abs_codes c), ev_value)))
      (fun _ => EvdevDriver.getNextEvent c write_ok strerror changeJogMode v2 ev2) o in
  let right :=
    EvdevDriver.and_then
      (EvdevDriver.getNextEvent c write_ok strerror changeJogMode v1
         (Some (EvdevDriver.EV_ABS,
                Evdev.kiHerculesRightVolume (EvdevDriver.abs_codes c), ev_value)))
      (fun _ => EvdevDriver.getNextEvent c write_ok strerror changeJogMode v2 ev2) o in
  left_jog_values (outputs_of (EvdevDriver.actions_of left))
  = [snd (Rotary_filter (m_pRotaryLeft h) 0%Q)]
  /\ right_jog_values (outputs_of (EvdevDriver.actions_of right))
     = [snd (Rotary_filter (m_pRotaryRight h) 0%Q)].
Proof.
  intros H1 H2 Hv. cbv zeta. unfold EvdevDriver.and_then.
  rewrite !getNextEvent_abs_lift by exact H1.
  assert (Qeq_bool (inject_Z ev_value / 2) 0 = false) as NZ.
  { apply not_true_iff_false. intros E. apply Qeq_bool_iff in E.
    unfold Qeq, Qdiv, Qmult, Qinv, inject_Z in E. cbn in E. lia. }
  pose proof (volume_and_crossfade_events (EvdevDriver.abs_codes c)
                abs_codes_ok ev_value (EvdevDriver.handler_members o)
                ltac:(lia)) as (VL & VR & _).
  unfold EvdevDriver.lift. rewrite VL, VR. cbv beta iota.
  rewrite !getNextEvent_timeout_lift by exact H2.
  unfold EvdevDriver.lift, EvdevDriver.with_handler_members.
  cbn [EvdevDriver.handler_members].
  rewrite !getNextEvent_timeout_run.
  unfold EvdevDriver.actions_of. cbn [snd fst].
  destruct o as [h m l]. cbn [EvdevDriver.handler_members].
  destruct h; members.
  destruct (Rotary_filter m_pRotaryLeft0 0%Q) as [rl yl].
  destruct (Rotary_filter m_pRotaryRight0 0%Q) as [rr yr].
  cbn [fst snd]. rewrite NZ, !andb_false_r.
  split.
  - destruct (Qeq_bool yr 0 && _); reflexivity.
  - destruct (Qeq_bool yl 0 && _); reflexivity.
Qed.
End DriverFacts.

Lemma volume_event_wakes_jog_witness :
  left_jog_values
    (outputs_of
       (EvdevDriver.actions_of
          (EvdevDriver.and_then
             (EvdevDriver.getNextEvent example_keys example_write_ok
                "error" example_changeJogMode 1
                (Some (EvdevDriver.EV_ABS, 4, 200)))
             (fun _ =>
                EvdevDriver.getNextEvent example_keys example_write_ok
                  "error" example_changeJogMode 0 None)
             example_object)))
  = [(0 # 64)%Q].
Proof.
  refine (proj1 (volume_event_wakes_jog example_keys _ example_write_ok
                   "error"%string example_changeJogMode 1 0 200 None
                   example_object _ _ _)).
  - reflexivity.
  - lia.
  - lia.
  - lia.
Defined.

(** ** The original implementation: the LEDs that follow the proxies *)

Lemma device_writes_app (a b : list EvdevDriver.Action) :
  device_writes (a ++ b) = device_writes a ++ device_writes b.
Proof. apply flat_map_app. Qed.

(** A switch value compares equal to exactly one [bool]. *)
Lemma is_switch_compare (x : double) (b : bool) :
  is_switch x = true ->
  Qeq_bool x (EvdevDriver.double_of_bool b) = Bool.eqb b (Qeq_bool x 1).
Proof.
  unfold is_switch. intros H.
  destruct (Qeq_bool x 1) eqn:E1, (Qeq_bool x 0) eqn:E0;
    try discriminate H.
  - apply Qeq_bool_iff in E1, E0. rewrite E1 in E0. discriminate E0.
  - destruct b; cbn [EvdevDriver.double_of_bool Bool.eqb]; assumption.
  - destruct b; cbn [EvdevDriver.double_of_bool Bool.eqb]; assumption.
Qed.

(** Another value compares equal to neither. *)
Lemma not_switch_compare (x : double) (b : bool) :
  is_switch x = false ->
  Qeq_bool x (EvdevDriver.double_of_bool b) = false.
Proof.
  unfold is_switch. intros H. apply orb_false_iff in H. destruct H as [H0 H1].
  destruct b; assumption.
Qed.

Section LedSync.
Context {Rotary : Type} {rotary : RotaryOps Rotary}.
Variable c : EvdevDriver.Constants.
Variable write_ok : Z -> Z -> Z -> bool.
Variable strerror : string.

Lemma sync_leds_blocks (p : EvdevDriver.RunProxies) :
  EvdevDriver.sync_leds (Rotary := Rotary) c write_ok strerror p
  = EvdevDriver.and_then
      (EvdevDriver.sync_led write_ok strerror (EvdevDriver.LeftBtnPlayProxy p)
         EvdevDriver.m_bPlayLeft EvdevDriver.set_m_bPlayLeft
         (EvdevDriver.kiHerculesLedLeftPlay c))
      (fun _ =>
   EvdevDriver.and_then
      (EvdevDriver.sync_led write_ok strerror (EvdevDriver.RightBtnPlayProxy p)
         EvdevDriver.m_bPlayRight EvdevDriver.set_m_bPlayRight
         (EvdevDriver.kiHerculesLedRightPlay c))
      (fun _ =>
   EvdevDriver.and_then
      (EvdevDriver.sync_led write_ok strerror (EvdevDriver.LeftBtnLoopProxy p)
         EvdevDriver.m_bLoopLeft EvdevDriver.set_m_bLoopLeft
         (EvdevDriver.kiHerculesLedLeftCueBtn c))
      (fun _ =>
      EvdevDriver.sync_led write_ok strerror (EvdevDriver.RightBtnLoopProxy p)
         EvdevDriver.m_bLoopRight EvdevDriver.set_m_bLoopRight
         (EvdevDriver.kiHerculesLedRightCueBtn c)))).
Proof. reflexivity. Qed.

(** One comparison: nothing when the proxy equals the member; otherwise
    the member is negated and its new value written to the LED. *)
Lemma sync_led_run (x : double) (member : EvdevDriver.Members -> bool)
  (set_member : bool -> EvdevDriver.Members -> EvdevDriver.Members)
  (iLed : Z) (o : EvdevDriver.Object Rotary) :
  (forall b m, member (set_member b m) = b) ->
  (forall b m, EvdevDriver.m_iFd (set_member b m) = EvdevDriver.m_iFd m) ->
  let m := EvdevDriver.members o in
  let r := EvdevDriver.sync_led write_ok strerror x member set_member iLed o in
  if Qeq_bool x (EvdevDriver.double_of_bool (member m))
  then r = (tt, o, [])
  else EvdevDriver.object_after r
       = EvdevDriver.with_members (set_member (negb (member m)) m) o
       /\ device_writes (EvdevDriver.actions_of r)
          = [(EvdevDriver.m_iFd m, iLed, if negb (member m) then 3 else 0)].
Proof.
  intros G F. cbv zeta. unfold EvdevDriver.sync_led.
  cbv [EvdevDriver.and_then EvdevDriver.read].
  destruct (Qeq_bool x _); cbn [negb EvdevDriver.if_then].
  - destruct o. reflexivity.
  - cbv [EvdevDriver.and_then EvdevDriver.read EvdevDriver.update
         EvdevDriver.led_write EvdevDriver.act EvdevDriver.with_members
         EvdevDriver.members EvdevDriver.object_after EvdevDriver.actions_of].
    destruct o as [h m l]. rewrite G, F.
    destruct (write_ok _ _ _); cbn; split; reflexivity.
Qed.

Lemma sync_led_switch (x : double) (member : EvdevDriver.Members -> bool)
  (set_member : bool -> EvdevDriver.Members -> EvdevDriver.Members)
  (iLed : Z) (o : EvdevDriver.Object Rotary) :
  (forall b m, member (set_member b m) = b) ->
  (forall b m, EvdevDriver.m_iFd (set_member b m) = EvdevDriver.m_iFd m) ->
  (forall m, set_member (member m) m = m) ->
  is_switch x = true ->
  let m := EvdevDriver.members o in
  let r := EvdevDriver.sync_led write_ok strerror x member set_member iLed o in
  EvdevDriver.object_after r
  = EvdevDriver.with_members (set_member (Qeq_bool x 1) m) o
  /\ device_writes (EvdevDriver.actions_of r)
     = led_change (EvdevDriver.m_iFd m) iLed (member m) (Qeq_bool x 1).
Proof.
  intros G F S Hx. cbv zeta.
  pose proof (sync_led_run x member set_member iLed o G F) as B.
  cbv zeta in B. rewrite (is_switch_compare x _ Hx) in B.
  unfold led_change.
  destruct (Bool.eqb _ _) eqn:E.
  - rewrite B. apply eqb_prop in E. rewrite <- E, S.
    destruct o; split; reflexivity.
  - apply eqb_false_iff in E.
    assert (negb (member (EvdevDriver.members o)) = Qeq_bool x 1) as N.
    { destruct (member _), (Qeq_bool x 1); try reflexivity; now elim E. }
    rewrite N in B. exact B.
Qed.

Ltac lens_law :=
  first [intros ? m; destruct m; reflexivity
        | intros m; destruct m; reflexivity].
Ltac lens_laws := try solve [lens_law].

Lemma sync_leds_pass (p : EvdevDriver.RunProxies)
  (o : EvdevDriver.Object Rotary) :
  is_switch (EvdevDriver.LeftBtnPlayProxy p) = true ->
  is_switch (EvdevDriver.RightBtnPlayProxy p) = true ->
  is_switch (EvdevDriver.LeftBtnLoopProxy p) = true ->
  is_switch (EvdevDriver.RightBtnLoopProxy p) = true ->
  let m := EvdevDriver.members o in
  let r := EvdevDriver.sync_leds c write_ok strerror p o in
  let playLeft := Qeq_bool (EvdevDriver.LeftBtnPlayProxy p) 1 in
  let playRight := Qeq_bool (EvdevDriver.RightBtnPlayProxy p) 1 in
  let loopLeft := Qeq_bool (EvdevDriver.LeftBtnLoopProxy p) 1 in
  let loopRight := Qeq_bool (EvdevDriver.RightBtnLoopProxy p) 1 in
  EvdevDriver.object_after r
  = EvdevDriver.with_members
      (EvdevDriver.set_m_bLoopRight loopRight
        (EvdevDriver.set_m_bLoopLeft loopLeft
          (EvdevDriver.set_m_bPlayRight playRight
            (EvdevDriver.set_m_bPlayLeft playLeft m)))) o
  /\ device_writes (EvdevDriver.actions_of r)
     = led_change (EvdevDriver.m_iFd m) (EvdevDriver.kiHerculesLedLeftPlay c)
         (EvdevDriver.m_bPlayLeft m) playLeft
       ++ led_change (EvdevDriver.m_iFd m) (EvdevDriver.kiHerculesLedRightPlay c)
            (EvdevDriver.m_bPlayRight m) playRight
       ++ led_change (EvdevDriver.m_iFd m) (EvdevDriver.kiHerculesLedLeftCueBtn c)
            (EvdevDriver.m_bLoopLeft m) loopLeft
       ++ led_change (EvdevDriver.m_iFd m) (EvdevDriver.kiHerculesLedRightCueBtn c)
            (EvdevDriver.m_bLoopRight m) loopRight.
Proof.
  intros H1 H2 H3 H4. cbv zeta.
  rewrite sync_leds_blocks. unfold EvdevDriver.and_then.
  repeat match goal with
  | |- context [EvdevDriver.sync_led write_ok strerror ?x ?g ?s ?l ?ob] =>
      let B := fresh "B" in
      let t := fresh "t" in
      let on := fresh "o" in
      pose proof (sync_led_switch x g s l ob) as B;
      cbv zeta in B;
      destruct (EvdevDriver.sync_led write_ok strerror x g s l ob)
        as [[[] on] t];
      unfold EvdevDriver.object_after, EvdevDriver.actions_of in B;
      cbn [fst snd] in B;
      destruct B as [-> B]; lens_laws; try assumption
  end.
  unfold EvdevDriver.object_after, EvdevDriver.actions_of. cbn [fst snd].
  rewrite !device_writes_app.
  repeat match goal with B : device_writes _ = _ |- _ => rewrite B; clear B end.
  destruct o as [h m l]; destruct m; split; reflexivity.
Qed.

(** A pass over members that already equal their proxies does nothing. *)
Lemma sync_leds_fixed (p : EvdevDriver.RunProxies)
  (o : EvdevDriver.Object Rotary) :
  let m := EvdevDriver.members o in
  Qeq_bool (EvdevDriver.LeftBtnPlayProxy p)
    (EvdevDriver.double_of_bool (EvdevDriver.m_bPlayLeft m)) = true ->
  Qeq_bool (EvdevDriver.RightBtnPlayProxy p)
    (EvdevDriver.double_of_bool (EvdevDriver.m_bPlayRight m)) = true ->
  Qeq_bool (EvdevDriver.LeftBtnLoopProxy p)
    (EvdevDriver.double_of_bool (EvdevDriver.m_bLoopLeft m)) = true ->
  Qeq_bool (EvdevDriver.RightBtnLoopProxy p)
    (EvdevDriver.double_of_bool (EvdevDriver.m_bLoopRight m)) = true ->
  EvdevDriver.sync_leds c write_ok strerror p o = (tt, o, []).
Proof.
  cbv zeta. intros H1 H2 H3 H4.
  unfold EvdevDriver.sync_leds.
  cbv [EvdevDriver.and_then EvdevDriver.read].
  rewrite H1. cbn [negb EvdevDriver.if_then EvdevDriver.pure].
  rewrite H2. cbn [negb EvdevDriver.if_then EvdevDriver.pure].
  rewrite H3. cbn [negb EvdevDriver.if_then EvdevDriver.pure].
  rewrite H4. reflexivity.
Qed.

(** X13. When the four proxies hold 0 or 1, one pass over the comparisons
    of [run] leaves each LED member equal to its proxy, writes to the
    device exactly the LEDs that changed, each with its new state, and
    leaves the other members alone; a second pass with the same proxies
    does nothing. *)
Theorem leds_settle_on_proxies (p : EvdevDriver.RunProxies)
  (o : EvdevDriver.Object Rotary) :
  is_switch (EvdevDriver.LeftBtnPlayProxy p) = true ->
  is_switch (EvdevDriver.RightBtnPlayProxy p) = true ->
  is_switch (EvdevDriver.LeftBtnLoopProxy p) = true ->
  is_switch (EvdevDriver.RightBtnLoopProxy p) = true ->
  let m := EvdevDriver.members o in
  let r := EvdevDriver.sync_leds c write_ok strerror p o in
  let playLeft := Qeq_bool (EvdevDriver.LeftBtnPlayProxy p) 1 in
  let playRight := Qeq_bool (EvdevDriver.RightBtnPlayProxy p) 1 in
  let loopLeft := Qeq_bool (EvdevDriver.LeftBtnLoopProxy p) 1 in
  let loopRight := Qeq_bool (EvdevDriver.RightBtnLoopProxy p) 1 in
  EvdevDriver.object_after r
  = EvdevDriver.with_members
      (EvdevDriver.set_m_bLoopRight loopRight
        (EvdevDriver.set_m_bLoopLeft loopLeft
          (EvdevDriver.set_m_bPlayRight playRight
            (EvdevDriver.set_m_bPlayLeft playLeft m)))) o
  /\ device_writes (EvdevDriver.actions_of r)
     = led_change (EvdevDriver.m_iFd m) (EvdevDriver.kiHerculesLedLeftPlay c)
         (EvdevDriver.m_bPlayLeft m) playLeft
       ++ led_change (EvdevDriver.m_iFd m) (EvdevDriver.kiHerculesLedRightPlay c)
            (EvdevDriver.m_bPlayRight m) playRight
       ++ led_change (EvdevDriver.m_iFd m) (EvdevDriver.kiHerculesLedLeftCueBtn c)
            (EvdevDriver.m_bLoopLeft m) loopLeft
       ++ led_change (EvdevDriver.m_iFd m) (EvdevDriver.kiHerculesLedRightCueBtn c)
            (EvdevDriver.m_bLoopRight m) loopRight
  /\ EvdevDriver.sync_leds c write_ok strerror p (EvdevDriver.object_after r)
     = (tt, EvdevDriver.object_after r, []).
Proof.
  intros H1 H2 H3 H4. cbv zeta.
  destruct (sync_leds_pass p o H1 H2 H3 H4) as [P1 P2].
  split; [exact P1|]. split; [exact P2|].
  rewrite P1. apply sync_leds_fixed;
    rewrite is_switch_compare by assumption;
    destruct o as [h m l]; destruct m; cbn; apply eqb_reflx.
Qed.

(** X14. A proxy that holds neither 0 nor 1 equals no [bool]: every pass
    negates the member of the left play LED and writes its new state to
    the device, so the LED blinks with the loop. *)
Theorem led_blinks_on_other_value (p : EvdevDriver.RunProxies)
  (o : EvdevDriver.Object Rotary) :
  is_switch (EvdevDriver.LeftBtnPlayProxy p) = false ->
  let m := EvdevDriver.members o in
  let r := EvdevDriver.sync_leds c write_ok strerror p o in
  EvdevDriver.m_bPlayLeft (EvdevDriver.members (EvdevDriver.object_after r))
  = negb (EvdevDriver.m_bPlayLeft m)
  /\ In (EvdevDriver.m_iFd m, EvdevDriver.kiHerculesLedLeftPlay c,
         if EvdevDriver.m_bPlayLeft m then 0 else 3)
        (device_writes (EvdevDriver.actions_of r)).
Proof.
  intros H. cbv zeta. rewrite sync_leds_blocks. unfold EvdevDriver.and_then.
  match goal with
  | |- context [EvdevDriver.sync_led write_ok strerror ?x ?g ?s ?l ?ob] =>
      pose proof (sync_led_run x g s l ob ltac:(lens_law) ltac:(lens_law)) as B;
      cbv zeta in B;
      rewrite (not_switch_compare _ _ H) in B;
      destruct (EvdevDriver.sync_led write_ok strerror x g s l ob)
        as [[[] o1] t1];
      unfold EvdevDriver.object_after, EvdevDriver.actions_of in B;
      cbn [fst snd] in B;
      destruct B as [-> B]
  end.
  repeat match goal with
  | |- context [EvdevDriver.sync_led write_ok strerror ?x ?g ?s ?l ?ob] =>
      let B := fresh "B" in
      pose proof (sync_led_run x g s l ob ltac:(lens_law) ltac:(lens_law)) as B;
      cbv zeta in B;
      destruct (EvdevDriver.sync_led write_ok strerror x g s l ob)
        as [[[] ?] ?];
      unfold EvdevDriver.object_after, EvdevDriver.actions_of in B;
      cbn [fst snd] in B;
      destruct (Qeq_bool x _);
        [injection B as -> -> | destruct B as [-> B]]
  end.
  all: unfold EvdevDriver.object_after, EvdevDriver.actions_of; cbn [fst snd].
  all: rewrite ?device_writes_app, B.
  all: destruct o as [? m ?]; destruct m as [? ? ? pl ? ? ? ? ? ? ?].
  all: split; [reflexivity | left; destruct pl; reflexivity].
Qed.
End LedSync.

Lemma leds_settle_on_proxies_witness :
  device_writes
    (EvdevDriver.actions_of
       (EvdevDriver.sync_leds (Rotary := Z) example_keys example_write_ok
          "error" (EvdevDriver.mkRunProxies 1%Q 0%Q 0%Q 1%Q) example_object))
  = [(-1, 3, 3); (-1, 2, 3)].
Proof.
  exact (proj1 (proj2 (leds_settle_on_proxies example_keys example_write_ok
                         "error"%string (EvdevDriver.mkRunProxies 1%Q 0%Q 0%Q 1%Q)
                         example_object eq_refl eq_refl eq_refl eq_refl))).
Defined.

Lemma led_blinks_on_other_value_witness :
  In (-1, 3, 3)
     (device_writes
        (EvdevDriver.actions_of
           (EvdevDriver.sync_leds (Rotary := Z) example_keys example_write_ok
              "error" (EvdevDriver.mkRunProxies (1 # 2)%Q 0%Q 0%Q 0%Q)
              example_object))).
Proof.
  exact (proj2 (led_blinks_on_other_value example_keys example_write_ok
                  "error"%string (EvdevDriver.mkRunProxies (1 # 2)%Q 0%Q 0%Q 0%Q)
                  example_object eq_refl)).
Defined.

(** ** The original implementation: the registry of open devices *)

Section Registry.
Context {Rotary : Type} {rotary : RotaryOps Rotary}.
Variable c : EvdevDriver.Constants.
Variable write_ok : Z -> Z -> Z -> bool.
Variable strerror : string.
Variable os : Z -> EvdevDriver.Probe.

Lemma led_write_run (iLed : Z) (bOn : bool) (o : EvdevDriver.Object Rotary) :
  exists t, EvdevDriver.led_write write_ok strerror iLed bOn o = (tt, o, t).
Proof.
  unfold EvdevDriver.led_write.
  cbv [EvdevDriver.and_then EvdevDriver.read EvdevDriver.act].
  destruct (write_ok _ _ _); cbn; eexists; reflexivity.
Qed.

Lemma opendev_prefixes_run (prefixes : list string) (i iId iFd : Z)
  (rgcName : string) (o : EvdevDriver.Object Rotary) :
  let r := EvdevDriver.opendev_prefixes prefixes i iId iFd rgcName o in
  if existsb (fun prefix => String.eqb prefix rgcName) prefixes
  then EvdevDriver.returned r = iFd
       /\ EvdevDriver.object_after r
          = EvdevDriver.mkObject (EvdevDriver.handler_members o)
              (EvdevDriver.set_m_iInstNo
                 (Z.of_nat (List.length (EvdevDriver.sqlOpenDevs o)))
                 (EvdevDriver.set_m_iId iId (EvdevDriver.members o)))
              (EvdevDriver.sqlOpenDevs o ++ [iId])
  else EvdevDriver.returned r = -1 /\ EvdevDriver.object_after r = o.
Proof.
  cbv zeta. revert i. induction prefixes as [|p rest IH]; intros i.
  - cbn. destruct o; split; reflexivity.
  - cbn [existsb EvdevDriver.opendev_prefixes].
    destruct (String.eqb p rgcName); cbn [orb].
    + destruct o; split; reflexivity.
    + specialize (IH (i + 1)).
      cbv [EvdevDriver.and_then EvdevDriver.qDebug EvdevDriver.act].
      destruct (EvdevDriver.opendev_prefixes rest (i + 1) iId iFd rgcName o)
        as [[a o1] t1].
      exact IH.
Qed.

Lemma opendev_id_run (iId : Z) (o : EvdevDriver.Object Rotary) :
  let r := EvdevDriver.opendev_id c os iId o in
  if usable c os iId
  then EvdevDriver.returned r = EvdevDriver.probe_fd (os iId)
       /\ EvdevDriver.object_after r
          = EvdevDriver.mkObject (EvdevDriver.handler_members o)
              (EvdevDriver.set_m_iInstNo
                 (Z.of_nat (List.length (EvdevDriver.sqlOpenDevs o)))
                 (EvdevDriver.set_m_iId iId (EvdevDriver.members o)))
              (EvdevDriver.sqlOpenDevs o ++ [iId])
  else EvdevDriver.returned r = -1 /\ EvdevDriver.object_after r = o.
Proof.
  cbv zeta. unfold usable, EvdevDriver.opendev_id.
  destruct (Z.ltb_spec (EvdevDriver.probe_fd (os iId)) 0) as [L|L];
    destruct (Z.leb_spec 0 (EvdevDriver.probe_fd (os iId))) as [G|G];
    try lia; cbn [andb].
  - destruct (_ =? 13); destruct o; split; reflexivity.
  - destruct (EvdevDriver.probe_name (os iId)) as [name|].
    + apply opendev_prefixes_run.
    + destruct o; split; reflexivity.
Qed.

(** The loop of [opendev()]: it stops at the first free id whose device is
    usable; every free id before it costs a failed attempt, which leaves
    -1 in [m_iFd]. *)
Lemma opendev_loop_run (n : nat) (i : Z) (o : EvdevDriver.Object Rotary) :
  let devs := EvdevDriver.sqlOpenDevs o in
  let ids := filter (is_free devs) (ids_from i n) in
  EvdevDriver.object_after (EvdevDriver.opendev_loop c os n i o)
  = match find (usable c os) ids with
    | Some j => registered os j o
    | None =>
        match ids with
        | [] => o
        | _ :: _ =>
            EvdevDriver.with_members
              (EvdevDriver.set_m_iFd (-1) (EvdevDriver.members o)) o
        end
    end.
Proof.
  cbv zeta. revert i o. induction n as [|n IH]; intros i o.
  - reflexivity.
  - change (ids_from i (S n)) with (i :: ids_from (i + 1) n).
    cbn [filter EvdevDriver.opendev_loop].
    cbv [EvdevDriver.and_then EvdevDriver.get_sqlOpenDevs].
    change (negb (existsb (Z.eqb i) (EvdevDriver.sqlOpenDevs o)))
      with (is_free (EvdevDriver.sqlOpenDevs o) i).
    destruct (is_free (EvdevDriver.sqlOpenDevs o) i) eqn:F.
    + pose proof (opendev_id_run i o) as R. cbv zeta in R.
      destruct (EvdevDriver.opendev_id c os i o) as [[fd o1] t1].
      unfold EvdevDriver.returned, EvdevDriver.object_after in R.
      cbn [fst snd] in R. cbn [find].
      destruct (usable c os i) eqn:U; destruct R as [-> ->].
      * unfold usable in U. apply andb_true_iff in U. destruct U as [U _].
        cbv [EvdevDriver.update]. rewrite U. destruct o. reflexivity.
      * cbv [EvdevDriver.update]. change (0 <=? -1) with false.
        cbv beta iota.
        match goal with |- context [EvdevDriver.opendev_loop c os n (i + 1) ?o1] =>
          specialize (IH (i + 1) o1);
          destruct (EvdevDriver.opendev_loop c os n (i + 1) o1)
            as [[[] o2] t2] end.
        unfold EvdevDriver.object_after in *. cbn [fst snd] in *.
        rewrite IH. clear IH. destruct o as [h m l].
        cbn [EvdevDriver.sqlOpenDevs EvdevDriver.with_members
             EvdevDriver.members EvdevDriver.handler_members].
        destruct (find (usable c os) (filter (is_free l) (ids_from (i + 1) n)));
          [destruct m; reflexivity|].
        destruct (filter (is_free l) (ids_from (i + 1) n));
          destruct m; reflexivity.
    + specialize (IH (i + 1) o).
      destruct (EvdevDriver.opendev_loop c os n (i + 1) o) as [[[] o2] t2].
      unfold EvdevDriver.object_after in *. cbn [fst snd] in *.
      rewrite IH. reflexivity.
Qed.

(** [opendev()] after its loop. *)
Lemma opendev_run (o : EvdevDriver.Object Rotary) :
  let o1 :=
    EvdevDriver.object_after
      (EvdevDriver.opendev_loop c os
         (Z.to_nat (EvdevDriver.kiHerculesNumEventDevices c)) 0 o) in
  let r := EvdevDriver.opendev c write_ok strerror os o in
  EvdevDriver.object_after r = o1
  /\ EvdevDriver.returned r
     = (0 <? EvdevDriver.m_iFd (EvdevDriver.members o1)).
Proof.
  cbv zeta. unfold EvdevDriver.opendev.
  cbv [EvdevDriver.and_then EvdevDriver.read].
  destruct (EvdevDriver.opendev_loop c os _ 0 o) as [[[] o1] t1].
  unfold EvdevDriver.object_after, EvdevDriver.returned. cbn [fst snd].
  destruct (0 <? EvdevDriver.m_iFd (EvdevDriver.members o1)).
  - cbv [EvdevDriver.and_then EvdevDriver.qDebug EvdevDriver.act
         EvdevDriver.pure].
    repeat match goal with
    | |- context [EvdevDriver.led_write write_ok strerror ?l ?b ?ob] =>
        let t := fresh "t" in
        destruct (led_write_run l b ob) as [t ->]
    end.
    split; reflexivity.
  - split; reflexivity.
Qed.

Lemma closedev_run (o : EvdevDriver.Object Rotary) :
  let m := EvdevDriver.members o in
  let r := EvdevDriver.closedev (Rotary := Rotary) o in
  EvdevDriver.object_after r
  = EvdevDriver.mkObject (EvdevDriver.handler_members o)
      (EvdevDriver.set_m_iId (-1) (EvdevDriver.set_m_iFd (-1) m))
      (if 0 <? EvdevDriver.m_iFd m
       then EvdevDriver.remove_first (EvdevDriver.m_iId m)
              (EvdevDriver.sqlOpenDevs o)
       else EvdevDriver.sqlOpenDevs o)
  /\ EvdevDriver.actions_of r
     = if 0 <? EvdevDriver.m_iFd m
       then [EvdevDriver.Close (EvdevDriver.m_iFd m)] else [].
Proof.
  cbv zeta. unfold EvdevDriver.closedev.
  cbv [EvdevDriver.and_then EvdevDriver.read].
  destruct o as [h m l]. cbn [EvdevDriver.members].
  destruct (0 <? EvdevDriver.m_iFd m); split; reflexivity.
Qed.

Lemma is_free_not_in (devs : list Z) (i : Z) :
  is_free devs i = true <-> ~ In i devs.
Proof.
  unfold is_free. rewrite negb_true_iff. split.
  - intros E Hin. assert (existsb (Z.eqb i) devs = true) as T; [|congruence].
    apply existsb_exists. exists i. split; [exact Hin | apply Z.eqb_refl].
  - intros N. apply not_true_iff_false. intros T.
    apply existsb_exists in T. destruct T as (x & Hin & E).
    apply Z.eqb_eq in E. subst. contradiction.
Qed.

Lemma first_usable_some (devs : list Z) (i : Z) :
  first_usable c os devs = Some i ->
  In i (event_ids c) /\ ~ In i devs /\ usable c os i = true.
Proof.
  unfold first_usable. intros F. apply find_some in F. destruct F as [Hin U].
  apply filter_In in Hin. destruct Hin as [Hin Hf].
  apply is_free_not_in in Hf. tauto.
Qed.

Lemma remove_first_last (devs : list Z) (i : Z) :
  ~ In i devs -> EvdevDriver.remove_first i (devs ++ [i]) = devs.
Proof.
  induction devs as [|d r IH]; intros N; cbn.
  - now rewrite Z.eqb_refl.
  - destruct (Z.eqb_spec i d) as [->|_]; [elim N; now left|].
    f_equal. apply IH. intros Hin. apply N. now right.
Qed.

Lemma remove_first_keeps (x : Z) (devs : list Z) (i : Z) :
  In i (EvdevDriver.remove_first x devs) -> In i devs.
Proof.
  induction devs as [|d r IH]; cbn; [tauto|].
  destruct (x =? d); [now right|]. intros [E|Hin]; [now left|right; now apply IH].
Qed.

Lemma remove_first_NoDup (x : Z) (devs : list Z) :
  NoDup devs -> NoDup (EvdevDriver.remove_first x devs).
Proof.
  induction 1 as [|d r Hd Hr IH]; cbn; [constructor|].
  destruct (x =? d); [exact Hr|]. constructor; [|exact IH].
  intros Hin. apply Hd. now apply remove_first_keeps in Hin.
Qed.

(** [opendev()] in terms of the first usable free id. *)
Lemma opendev_object (o : EvdevDriver.Object Rotary) :
  let devs := EvdevDriver.sqlOpenDevs o in
  let r := EvdevDriver.opendev c write_ok strerror os o in
  match first_usable c os devs with
  | Some i =>
      EvdevDriver.object_after r = registered os i o
      /\ EvdevDriver.returned r = (0 <? EvdevDriver.probe_fd (os i))
  | None =>
      match filter (is_free devs) (event_ids c) with
      | [] =>
          EvdevDriver.object_after r = o
          /\ EvdevDriver.returned r
             = (0 <? EvdevDriver.m_iFd (EvdevDriver.members o))
      | _ :: _ =>
          EvdevDriver.object_after r
          = EvdevDriver.with_members
              (EvdevDriver.set_m_iFd (-1) (EvdevDriver.members o)) o
          /\ EvdevDriver.returned r = false
      end
  end.
Proof.
  cbv zeta. destruct (opendev_run o) as [-> ->].
  rewrite opendev_loop_run. unfold first_usable, event_ids.
  destruct (find _ _); [split; reflexivity|].
  destruct (filter _ _); split; reflexivity.
Qed.

(** X15. [opendev()] takes the first id below [kiHerculesNumEventDevices]
    that no object has registered and whose device opens and carries a
    valid name: it appends the id to the registry, stores it with the
    descriptor and the instance number, and returns whether the descriptor
    is positive.  Without such an id the registry and [m_iId] stay; the
    result is [false] when a free id was tried, and otherwise tells
    whether the object held a positive descriptor before.  The members of
    the handlers are never touched. *)
Theorem opendev_takes_first_usable (o : EvdevDriver.Object Rotary) :
  let devs := EvdevDriver.sqlOpenDevs o in
  let r := EvdevDriver.opendev c write_ok strerror os o in
  let o' := EvdevDriver.object_after r in
  let m' := EvdevDriver.members o' in
  EvdevDriver.handler_members o' = EvdevDriver.handler_members o
  /\ match first_usable c os devs with
     | Some i =>
         In i (event_ids c) /\ ~ In i devs
         /\ EvdevDriver.sqlOpenDevs o' = devs ++ [i]
         /\ EvdevDriver.m_iId m' = i
         /\ EvdevDriver.m_iInstNo m' = Z.of_nat (List.length devs)
         /\ EvdevDriver.m_iFd m' = EvdevDriver.probe_fd (os i)
         /\ 0 <= EvdevDriver.probe_fd (os i)
         /\ EvdevDriver.returned r = (0 <? EvdevDriver.probe_fd (os i))
     | None =>
         EvdevDriver.sqlOpenDevs o' = devs
         /\ EvdevDriver.m_iId m' = EvdevDriver.m_iId (EvdevDriver.members o)
         /\ EvdevDriver.returned r
            = match filter (is_free devs) (event_ids c) with
              | [] => 0 <? EvdevDriver.m_iFd (EvdevDriver.members o)
              | _ :: _ => false
              end
     end.
Proof.
  cbv zeta. pose proof (opendev_object o) as R. cbv zeta in R.
  destruct (first_usable c os (EvdevDriver.sqlOpenDevs o)) as [i|] eqn:F.
  - destruct R as [-> ->]. apply first_usable_some in F.
    destruct F as (Hin & Hfree & U).
    unfold usable in U. apply andb_true_iff in U. destruct U as [U _].
    apply Z.leb_le in U.
    destruct o as [h m devs]; destruct m. cbn. tauto.
  - destruct (filter _ _); destruct R as [-> ->];
      destruct o as [h m devs]; destruct m; cbn; tauto.
Qed.

(** X16. A registry without duplicates stays so through [opendev()] and
    through [closedev()]: no two objects hold the same id. *)
Theorem registry_stays_duplicate_free (o : EvdevDriver.Object Rotary) :
  NoDup (EvdevDriver.sqlOpenDevs o) ->
  NoDup (EvdevDriver.sqlOpenDevs
           (EvdevDriver.object_after
              (EvdevDriver.opendev c write_ok strerror os o)))
  /\ NoDup (EvdevDriver.sqlOpenDevs
              (EvdevDriver.object_after (EvdevDriver.closedev o))).
Proof.
  intros N. split.
  - pose proof (opendev_object o) as R. cbv zeta in R.
    destruct (first_usable c os (EvdevDriver.sqlOpenDevs o)) as [i|] eqn:F.
    + destruct R as [-> _]. apply first_usable_some in F.
      destruct F as (_ & Hfree & _). cbn.
      apply NoDup_app; [exact N | repeat constructor; intros [] | ].
      intros x Hx [<-|[]]. contradiction.
    + destruct (filter _ _); destruct R as [-> _]; exact N.
  - rewrite (proj1 (closedev_run o)). cbn.
    destruct (0 <? _); [now apply remove_first_NoDup | exact N].
Qed.

(** X17. On an object that holds no device ([m_iFd] not positive, as the
    constructor and [closedev()] leave it), an [opendev()] that returns
    [true] followed by [closedev()] restores the registry; [closedev()]
    closes the descriptor [opendev()] stored and leaves -1 in [m_iFd] and
    [m_iId]. *)
Theorem opendev_closedev_restores_registry (o : EvdevDriver.Object Rotary) :
  EvdevDriver.m_iFd (EvdevDriver.members o) <= 0 ->
  let r := EvdevDriver.opendev c write_ok strerror os o in
  EvdevDriver.returned r = true ->
  let o1 := EvdevDriver.object_after r in
  let r2 := EvdevDriver.closedev o1 in
  let o2 := EvdevDriver.object_after r2 in
  EvdevDriver.sqlOpenDevs o2 = EvdevDriver.sqlOpenDevs o
  /\ EvdevDriver.actions_of r2
     = [EvdevDriver.Close (EvdevDriver.m_iFd (EvdevDriver.members o1))]
  /\ EvdevDriver.m_iFd (EvdevDriver.members o2) = -1
  /\ EvdevDriver.m_iId (EvdevDriver.members o2) = -1
  /\ EvdevDriver.handler_members o2 = EvdevDriver.handler_members o.
Proof.
  intros Hfd. cbv zeta. intros Ht.
  pose proof (opendev_object o) as R. cbv zeta in R.
  destruct (first_usable c os (EvdevDriver.sqlOpenDevs o)) as [i|] eqn:F.
  - destruct R as [Ro Rr]. rewrite Rr in Ht. rewrite Ro.
    apply first_usable_some in F. destruct F as (_ & Hfree & _).
    destruct (closedev_run (registered os i o)) as [-> ->].
    destruct o as [h m devs]; destruct m. cbn in *. rewrite Ht.
    rewrite remove_first_last by exact Hfree. repeat split.
  - destruct (filter _ _); destruct R as [_ Rr]; rewrite Rr in Ht;
      [|discriminate Ht].
    apply Z.ltb_lt in Ht. lia.
Qed.

(** X18. [opendev()] keeps a descriptor that is 0 or more, but only a
    positive one counts as open.  So when the first usable device opens
    with descriptor 0, [opendev()] returns [false] with the id in the
    registry, and [closedev()] closes nothing and leaves the id there
    while it forgets it in [m_iId]. *)
Theorem descriptor_zero_stays_registered (o : EvdevDriver.Object Rotary)
  (i : Z) :
  first_usable c os (EvdevDriver.sqlOpenDevs o) = Some i ->
  EvdevDriver.probe_fd (os i) = 0 ->
  let r := EvdevDriver.opendev c write_ok strerror os o in
  let r2 := EvdevDriver.closedev (EvdevDriver.object_after r) in
  let o2 := EvdevDriver.object_after r2 in
  EvdevDriver.returned r = false
  /\ EvdevDriver.actions_of r2 = []
  /\ EvdevDriver.sqlOpenDevs o2 = EvdevDriver.sqlOpenDevs o ++ [i]
  /\ EvdevDriver.m_iId (EvdevDriver.members o2) = -1
  /\ first_usable c os (EvdevDriver.sqlOpenDevs o2) <> Some i.
Proof.
  intros F Z0. cbv zeta.
  pose proof (opendev_object o) as R. cbv zeta in R. rewrite F in R.
  destruct R as [Ro Rr]. rewrite Ro, Rr, Z0.
  destruct (closedev_run (registered os i o)) as [-> ->].
  destruct o as [h m devs]; destruct m. cbn. rewrite Z0. cbn.
  repeat split. intros F2. apply first_usable_some in F2.
  destruct F2 as (_ & N & _). apply N. apply in_or_app. right. now left.
Qed.
End Registry.

Lemma registry_stays_duplicate_free_witness :
  NoDup (EvdevDriver.sqlOpenDevs
           (EvdevDriver.object_after
              (EvdevDriver.opendev example_keys example_write_ok "error"
                 example_os example_object))).
Proof.
  apply (registry_stays_duplicate_free example_keys example_write_ok
           "error"%string example_os example_object).
  simpl. constructor.
Defined.

Lemma opendev_closedev_restores_registry_witness :
  EvdevDriver.sqlOpenDevs
    (EvdevDriver.object_after
       (EvdevDriver.closedev
          (EvdevDriver.object_after
             (EvdevDriver.opendev example_keys example_write_ok "error"
                example_os (EvdevDriver.constructor example_object)))))
  = [].
Proof.
  apply (opendev_closedev_restores_registry example_keys example_write_ok
           "error"%string example_os
           (EvdevDriver.constructor example_object)).
  - simpl. lia.
  - reflexivity.
Defined.

Lemma descriptor_zero_stays_registered_witness :
  EvdevDriver.sqlOpenDevs
    (EvdevDriver.object_after
       (EvdevDriver.closedev
          (EvdevDriver.object_after
             (EvdevDriver.opendev example_keys example_write_ok "error"
                (fun i => EvdevDriver.mkProbe 0 0
                            (Some "Hercules DJ Console"%string))
                example_object))))
  = [0].
Proof.
  apply (descriptor_zero_stays_registered example_keys example_write_ok
           "error"%string
           (fun i => EvdevDriver.mkProbe 0 0 (Some "Hercules DJ Console"%string))
           example_object 0).
  - reflexivity.
  - reflexivity.
Defined.

(** ** The original implementation: key events *)

Lemma button_events_app (a b : list EvdevDriver.Action) :
  button_events (a ++ b) = button_events a ++ button_events b.
Proof. apply flat_map_app. Qed.

Section KeyEvents.
Context {Rotary : Type} {rotary : RotaryOps Rotary}.
Variable c : EvdevDriver.Constants.
Hypothesis c_ok : EvdevDriver.constants_ok c = true.
Variable write_ok : Z -> Z -> Z -> bool.
Variable strerror : string.
Variable changeJogMode : Z -> Z -> EvdevDriver.D (Rotary := Rotary) unit.
(** [changeJogMode] is taken to send no button event itself. *)
Hypothesis changeJogMode_silent :
  forall l r o, button_events (EvdevDriver.actions_of (changeJogMode l r o)) = [].

(** The bodies of the cases of the buttons 1, 2 and 3: the one button event
    after [changeJogMode]. *)
Lemma mode_button_run (set_mode : EvdevDriver.Members -> EvdevDriver.Members)
  (pressed : bool) (ctl : EvdevDriver.FxControl)
  (o : EvdevDriver.Object Rotary) :
  button_events
    (EvdevDriver.actions_of
       (EvdevDriver.and_then (EvdevDriver.update set_mode)
          (fun _ =>
             EvdevDriver.and_then (EvdevDriver.call_changeJogMode changeJogMode)
               (fun _ => EvdevDriver.sendFxButtonEvent pressed ctl)) o))
  = [pressed].
Proof.
  cbv [EvdevDriver.and_then EvdevDriver.update EvdevDriver.call_changeJogMode
       EvdevDriver.read EvdevDriver.sendFxButtonEvent EvdevDriver.act].
  match goal with |- context [changeJogMode ?l ?r ?ob] =>
    pose proof (changeJogMode_silent l r ob) as S;
    destruct (changeJogMode l r ob) as [[[] o1] t1] end.
  unfold EvdevDriver.actions_of in *. cbn [fst snd app] in *.
  rewrite button_events_app, S. reflexivity.
Qed.

Lemma led_write_buttons (iLed : Z) (bOn : bool) (o : EvdevDriver.Object Rotary) :
  button_events
    (EvdevDriver.actions_of (EvdevDriver.led_write write_ok strerror iLed bOn o))
  = [].
Proof.
  unfold EvdevDriver.led_write.
  cbv [EvdevDriver.and_then EvdevDriver.read EvdevDriver.act].
  destruct (write_ok _ _ _); reflexivity.
Qed.

Ltac key_body :=
  first
    [ rewrite mode_button_run
    | cbv [EvdevDriver.and_then EvdevDriver.sendButtonEvent
           EvdevDriver.sendFxButtonEvent EvdevDriver.act EvdevDriver.pure
           EvdevDriver.read EvdevDriver.update EvdevDriver.lift
           EvdevDriver.actions_of get assign EvdevDriver.led_write];
      try destruct (write_ok _ _ _);
      cbv [negb EvdevDriver.if_then EvdevDriver.qDebug EvdevDriver.act
           EvdevDriver.pure] ];
  cbn [button_events flat_map app snd fst map].

(** X19. A key event with a value other than 1 sends only releases, and at
    most one, with one exception: the case of the left headphone key has
    no [break], so its release is followed by a release of right pitch
    bend minus. *)
Theorem key_release_sends (ev_code ev_value : Z)
  (o : EvdevDriver.Object Rotary) :
  ev_value <> 1 ->
  let r := EvdevDriver.getNextEvent_EV_KEY c write_ok strerror changeJogMode
             ev_code ev_value o in
  Forall (eq false) (button_events (EvdevDriver.actions_of r))
  /\ (ev_code <> EvdevDriver.kiHerculesLeftBtnHeadphone c ->
      (List.length (button_events (EvdevDriver.actions_of r)) <= 1)%nat)
  /\ (ev_code = EvdevDriver.kiHerculesLeftBtnHeadphone c ->
      r = (tt, o,
           [EvdevDriver.Out (SendButtonEvent false LeftBtnHeadphone);
            EvdevDriver.Out (SendButtonEvent false RightBtnPitchBendMinus)])).
Proof.
  intros Hv. cbv zeta. unfold EvdevDriver.getNextEvent_EV_KEY.
  destruct (Z.eqb_spec ev_value 1) as [|_]; [contradiction|].
  split; [|split].
  - apply switch_elim with
      (P := fun body : EvdevDriver.D (Rotary := Rotary) unit =>
              Forall (eq false) (button_events (EvdevDriver.actions_of (body o)))).
    + constructor.
    + unfold EvdevDriver.key_release_cases.
      repeat (constructor; [intros _; cbn [snd]; key_body;
                            repeat constructor|]).
      constructor.
  - intros Hc.
    apply switch_elim with
      (P := fun body : EvdevDriver.D (Rotary := Rotary) unit =>
              (List.length
                 (button_events (EvdevDriver.actions_of (body o))) <= 1)%nat).
    + cbn. lia.
    + unfold EvdevDriver.key_release_cases.
      repeat (constructor; [intros E; cbn [fst snd] in *; try contradiction;
                            key_body; cbn [List.length]; lia|]).
      constructor.
  - intros ->.
    rewrite switch_hit with
      (body := EvdevDriver.and_then
                 (EvdevDriver.sendButtonEvent false LeftBtnHeadphone)
                 (fun _ =>
                    EvdevDriver.sendButtonEvent false RightBtnPitchBendMinus)).
    + destruct o; reflexivity.
    + exact (key_labels_ok c c_ok).
    + unfold EvdevDriver.key_release_cases. simpl. tauto.
Qed.

(** X20. A key event with value 1 sends only presses, and at most one. *)
Theorem key_press_sends (ev_code : Z) (o : EvdevDriver.Object Rotary) :
  let r := EvdevDriver.getNextEvent_EV_KEY c write_ok strerror changeJogMode
             ev_code 1 o in
  Forall (eq true) (button_events (EvdevDriver.actions_of r))
  /\ (List.length (button_events (EvdevDriver.actions_of r)) <= 1)%nat.
Proof.
  cbv zeta. unfold EvdevDriver.getNextEvent_EV_KEY. cbn [Z.eqb Pos.eqb].
  apply switch_elim with
    (P := fun body : EvdevDriver.D (Rotary := Rotary) unit =>
            Forall (eq true) (button_events (EvdevDriver.actions_of (body o)))
            /\ (List.length
                  (button_events (EvdevDriver.actions_of (body o))) <= 1)%nat).
  - split; [constructor | cbn; lia].
  - unfold EvdevDriver.key_press_cases.
    repeat (constructor;
            [intros _; cbn [snd]; key_body;
             rewrite ?button_events_app, ?led_write_buttons;
             cbn [button_events flat_map app List.length];
             (split; [repeat constructor | lia])|]).
    constructor.
Qed.

(** X21. A press of the left headphone key negates [m_bHeadphoneLeft] and
    writes the new state to the left headphone LED; a press of the right
    one negates [m_bHeadphoneRight] and writes nothing to the device. *)
Theorem headphone_press_led (o : EvdevDriver.Object Rotary) :
  let h := EvdevDriver.handler_members o in
  let left :=
    EvdevDriver.getNextEvent_EV_KEY c write_ok strerror changeJogMode
      (EvdevDriver.kiHerculesLeftBtnHeadphone c) 1 o in
  let right :=
    EvdevDriver.getNextEvent_EV_KEY c write_ok strerror changeJogMode
      (EvdevDriver.kiHerculesRightBtnHeadphone c) 1 o in
  EvdevDriver.object_after left
  = EvdevDriver.with_handler_members
      (set_m_bHeadphoneLeft (negb (m_bHeadphoneLeft h)) h) o
  /\ device_writes (EvdevDriver.actions_of left)
     = [(EvdevDriver.m_iFd (EvdevDriver.members o),
         EvdevDriver.kiHerculesLedLeftHeadphone c,
         if m_bHeadphoneLeft h then 0 else 3)]
  /\ EvdevDriver.object_after right
     = EvdevDriver.with_handler_members
         (set_m_bHeadphoneRight (negb (m_bHeadphoneRight h)) h) o
  /\ device_writes (EvdevDriver.actions_of right) = [].
Proof.
  cbv zeta. unfold EvdevDriver.getNextEvent_EV_KEY. cbn [Z.eqb Pos.eqb].
  rewrite switch_hit with
    (x := EvdevDriver.kiHerculesLeftBtnHeadphone c)
    (body := EvdevDriver.and_then
               (EvdevDriver.sendButtonEvent true LeftBtnHeadphone)
               (fun _ =>
                EvdevDriver.and_then (EvdevDriver.lift (get m_bHeadphoneLeft))
                  (fun b =>
                   EvdevDriver.and_then
                     (EvdevDriver.lift
                        (assign (set_m_bHeadphoneLeft (negb b))))
                     (fun _ =>
                      EvdevDriver.and_then
                        (EvdevDriver.lift (get m_bHeadphoneLeft))
                        (fun b0 =>
                         EvdevDriver.led_write write_ok strerror
                           (EvdevDriver.kiHerculesLedLeftHeadphone c) b0)))));
    [ | exact (key_labels_ok c c_ok)
      | unfold EvdevDriver.key_press_cases; simpl;
        repeat (first [left; reflexivity | right]) ].
  rewrite switch_hit with
    (x := EvdevDriver.kiHerculesRightBtnHeadphone c)
    (body := EvdevDriver.and_then
               (EvdevDriver.sendButtonEvent true RightBtnHeadphone)
               (fun _ =>
                EvdevDriver.and_then (EvdevDriver.lift (get m_bHeadphoneRight))
                  (fun b =>
                   EvdevDriver.lift
                     (assign (set_m_bHeadphoneRight (negb b))))));
    [ | exact (key_labels_ok c c_ok)
      | unfold EvdevDriver.key_press_cases; simpl;
        repeat (first [left; reflexivity | right]) ].
  destruct o as [h m devs]. destruct h.
  cbv [EvdevDriver.and_then EvdevDriver.sendButtonEvent EvdevDriver.act
       EvdevDriver.lift get assign EvdevDriver.led_write EvdevDriver.read
       EvdevDriver.handler_members EvdevDriver.with_handler_members
       EvdevDriver.members EvdevDriver.object_after EvdevDriver.actions_of].
  members. cbn [map app fst snd].
  destruct (write_ok _ _ _); destruct m_bHeadphoneLeft0; repeat split.
Qed.
End KeyEvents.

Lemma key_release_sends_witness :
  EvdevDriver.actions_of
    (EvdevDriver.getNextEvent_EV_KEY example_keys example_write_ok "error"
       example_changeJogMode 268 0 example_object)
  = [EvdevDriver.Out (SendButtonEvent false LeftBtnHeadphone);
     EvdevDriver.Out (SendButtonEvent false RightBtnPitchBendMinus)].
Proof.
  assert (0 <> 1) as N by lia.
  pose proof (key_release_sends example_keys eq_refl example_write_ok
                "error"%string example_changeJogMode
                (fun l r o => eq_refl) 268 0 example_object N) as K.
  cbv zeta in K. destruct K as (_ & _ & K).
  rewrite (K eq_refl). reflexivity.
Defined.

Lemma key_press_sends_witness :
  (List.length
     (button_events
        (EvdevDriver.actions_of
           (EvdevDriver.getNextEvent_EV_KEY example_keys example_write_ok
              "error" example_changeJogMode 264 1 example_object))) <= 1)%nat.
Proof.
  exact (proj2 (key_press_sends example_keys example_write_ok "error"%string
                  example_changeJogMode (fun l r o => eq_refl)
                  264 example_object)).
Defined.

Lemma headphone_press_led_witness :
  device_writes
    (EvdevDriver.actions_of
       (EvdevDriver.getNextEvent_EV_KEY example_keys example_write_ok "error"
          example_changeJogMode 268 1 example_object))
  = [(-1, 7, 3)].
Proof.
  exact (proj1 (proj2 (headphone_press_led example_keys eq_refl
                         example_write_ok "error"%string
                         example_changeJogMode example_object))).
Defined.

(** ** The thread of the implementation over libdjconsole *)

Section RunFacts.
Context {Rotary : Type} {rotary : RotaryOps Rotary}
  {buffer : LibDjConsoleRun.RotaryBufferOps Rotary}.

Ltac turn_step :=
  cbv [bind get assign ret double_of_int sendEvent emit]; members;
  cbn [Z.eqb negb orb andb fst snd];
  change (inject_Z 0) with 0%Q.

Ltac rotary_call :=
  match goal with
  | |- context [Rotary_filter ?r ?x] =>
      destruct (Rotary_filter r x) as [? ?]
  | |- context [LibDjConsoleRun.Rotary_fillBuffer ?r ?x] =>
      destruct (LibDjConsoleRun.Rotary_fillBuffer r x) as [? ?]
  end.

(** One turn of the loop, in closed form. *)
Lemma run_turn_run (lf rf : bool) (s : HerculesLinux Rotary) :
  let L := if m_iJogLeft s =? 0
           then Rotary_filter (m_pRotaryLeft s) 0%Q
           else LibDjConsoleRun.Rotary_fillBuffer (m_pRotaryLeft s)
                  (double_of_int (m_iJogLeft s)) in
  let R := if m_iJogRight s =? 0
           then Rotary_filter (m_pRotaryRight s) 0%Q
           else LibDjConsoleRun.Rotary_fillBuffer (m_pRotaryRight s)
                  (double_of_int (m_iJogRight s)) in
  let lp := negb (m_iJogLeft s =? 0) || lf in
  let rp := negb (m_iJogRight s =? 0) || rf in
  LibDjConsoleRun.run_turn lf rf s
  = ((lp && nonzero (snd L), rp && nonzero (snd R)),
     set_m_iJogRight 0
       (set_m_iJogLeft 0
         (set_m_pRotaryRight (fst R) (set_m_pRotaryLeft (fst L) s))),
     (if nonzero (snd L) || lp then [SendEvent (snd L) LeftJog] else [])
     ++ (if nonzero (snd R) || rp then [SendEvent (snd R) RightJog] else [])).
Proof.
  cbv zeta. unfold LibDjConsoleRun.run_turn, nonzero.
  unfold LibDjConsoleRun.m_pRotaryLeft_fillBuffer,
    LibDjConsoleRun.m_pRotaryRight_fillBuffer,
    Evdev.m_pRotaryLeft_filter, Evdev.m_pRotaryRight_filter.
  destruct s; turn_step.
  destruct (Rotary_filter m_pRotaryLeft0 0%Q) as [fl yl] eqn:EFL.
  destruct (Rotary_filter m_pRotaryRight0 0%Q) as [fr yr] eqn:EFR.
  destruct (LibDjConsoleRun.Rotary_fillBuffer m_pRotaryLeft0
              (inject_Z m_iJogLeft0)) as [bl zl] eqn:EBL.
  destruct (LibDjConsoleRun.Rotary_fillBuffer m_pRotaryRight0
              (inject_Z m_iJogRight0)) as [br zr] eqn:EBR.
  destruct (Z.eqb_spec m_iJogLeft0 0) as [->|NL];
    [|apply Z.eqb_neq in NL];
    (destruct (Z.eqb_spec m_iJogRight0 0) as [->|NR];
     [|apply Z.eqb_neq in NR]);
    repeat (turn_step; rewrite ?EFL, ?EFR, ?EBL, ?EBR, ?NL, ?NR);
    repeat match goal with
    | |- context [Qeq_bool ?y 0] => destruct (Qeq_bool y 0)
    end;
    destruct lf, rf; reflexivity.
Qed.

(** X22. Turns of the loop with both accumulators at 0 (no jog event in
    between): each jog control receives the non-zero outputs its rotary
    gives when fed 0 and, if motion was being processed, also the first
    zero; the accumulators stay 0. *)
Theorem idle_turns_send_until_zero (n : nat) (lf rf : bool)
  (s : HerculesLinux Rotary) :
  m_iJogLeft s = 0 -> m_iJogRight s = 0 ->
  let r := LibDjConsoleRun.run_turns n lf rf s in
  left_jog_values (trace_of r)
  = (if lf then until_zero (idle_outputs (m_pRotaryLeft s) n)
     else filter nonzero (idle_outputs (m_pRotaryLeft s) n))
  /\ right_jog_values (trace_of r)
     = (if rf then until_zero (idle_outputs (m_pRotaryRight s) n)
        else filter nonzero (idle_outputs (m_pRotaryRight s) n))
  /\ m_iJogLeft (state_after r) = 0
  /\ m_iJogRight (state_after r) = 0.
Proof.
  cbv zeta. revert lf rf s. induction n as [|n IH]; intros lf rf s HL HR.
  - destruct lf, rf; repeat split; assumption.
  - cbn [LibDjConsoleRun.run_turns idle_outputs]. unfold bind.
    rewrite run_turn_run. rewrite HL, HR. cbn [Z.eqb negb orb].
    destruct s; members.
    destruct (Rotary_filter m_pRotaryLeft0 0%Q) as [fl yl].
    destruct (Rotary_filter m_pRotaryRight0 0%Q) as [fr yr].
    cbn [fst snd].
    match goal with |- context [LibDjConsoleRun.run_turns n ?a ?b ?s1] =>
      specialize (IH a b s1 eq_refl eq_refl);
      destruct (LibDjConsoleRun.run_turns n a b s1) as [[fl2 s2] t2] end.
    revert IH. unfold trace_of, state_after. cbn [fst snd]. members.
    intros (IL & IR & I1 & I2).
    rewrite !left_jog_values_app, !right_jog_values_app, IL, IR.
    cbn [until_zero filter]. unfold nonzero.
    split; [|split; [|split; assumption]].
    + destruct (Qeq_bool yl 0), (Qeq_bool yr 0), lf, rf; reflexivity.
    + destruct (Qeq_bool yl 0), (Qeq_bool yr 0), lf, rf; reflexivity.
Qed.

(** X23. A turn that finds motion in the left accumulator hands it to
    [fillBuffer], clears the accumulator, and sends the output to the left
    jog control whatever it is; motion counts as being processed
    afterwards exactly when that output is not zero. *)
Theorem motion_turn_sends (lf rf : bool) (s : HerculesLinux Rotary) :
  m_iJogLeft s <> 0 ->
  let r := LibDjConsoleRun.run_turn lf rf s in
  let y := snd (LibDjConsoleRun.Rotary_fillBuffer (m_pRotaryLeft s)
                  (double_of_int (m_iJogLeft s))) in
  left_jog_values (trace_of r) = [y]
  /\ m_iJogLeft (state_after r) = 0
  /\ fst (fst (fst r)) = nonzero y.
Proof.
  intros HL. cbv zeta. rewrite run_turn_run.
  apply Z.eqb_neq in HL. rewrite HL. cbn [negb orb andb].
  unfold trace_of, state_after. cbn [fst snd].
  rewrite orb_true_r, left_jog_values_app.
  split; [|split; [destruct s; reflexivity | reflexivity]].
  destruct (nonzero _ || _); reflexivity.
Qed.
End RunFacts.

Lemma idle_turns_send_until_zero_witness :
  left_jog_values
    (trace_of (LibDjConsoleRun.run_turns 3 true false example_base))
  = [(0 # 64)%Q].
Proof.
  exact (proj1 (idle_turns_send_until_zero 3 true false example_base
                  eq_refl eq_refl)).
Defined.

Lemma motion_turn_sends_witness :
  left_jog_values
    (trace_of
       (LibDjConsoleRun.run_turn false false (set_m_iJogLeft 128 example_base)))
  = [(128 # 64)%Q].
Proof.
  assert (m_iJogLeft (set_m_iJogLeft 128 example_base) <> 0) as N
    by (simpl; lia).
  exact (proj1 (motion_turn_sends false false
                  (set_m_iJogLeft 128 example_base) N)).
Defined.

(** ** The original implementation: the loop of [run] *)

Section RunLoop.
Context {Rotary : Type} {rotary : RotaryOps Rotary}.
Variable c : EvdevDriver.Constants.
Variable write_ok : Z -> Z -> Z -> bool.
Variable strerror : string.
Variable changeJogMode : Z -> Z -> EvdevDriver.D (Rotary := Rotary) unit.

Lemma device_writes_outputs (out : list Output) :
  device_writes (map EvdevDriver.Out out) = [].
Proof. induction out as [|x r IH]; [reflexivity | exact IH]. Qed.

(** A handler of the first part touches neither the other members nor the
    device. *)
Lemma lift_frame {A : Type} (m : M (Rotary := Rotary) A)
  (o : EvdevDriver.Object Rotary) :
  let r := EvdevDriver.lift m o in
  EvdevDriver.members (EvdevDriver.object_after r) = EvdevDriver.members o
  /\ EvdevDriver.sqlOpenDevs (EvdevDriver.object_after r)
     = EvdevDriver.sqlOpenDevs o
  /\ device_writes (EvdevDriver.actions_of r) = [].
Proof.
  cbv zeta. unfold EvdevDriver.lift.
  destruct (m (EvdevDriver.handler_members o)) as [[a h] out].
  unfold EvdevDriver.object_after, EvdevDriver.actions_of. cbn [fst snd].
  repeat split. apply device_writes_outputs.
Qed.

(** So does [getNextEvent] on anything but a key event. *)
Lemma getNextEvent_frame (v : Z) (ev : option (Z * Z * Z))
  (o : EvdevDriver.Object Rotary) :
  is_key_event v ev = false ->
  let r := EvdevDriver.getNextEvent c write_ok strerror changeJogMode v ev o in
  EvdevDriver.members (EvdevDriver.object_after r) = EvdevDriver.members o
  /\ EvdevDriver.sqlOpenDevs (EvdevDriver.object_after r)
     = EvdevDriver.sqlOpenDevs o
  /\ device_writes (EvdevDriver.actions_of r) = [].
Proof.
  unfold is_key_event, EvdevDriver.getNextEvent. cbv zeta.
  destruct (v <=? 0); cbn [negb andb]; [intros _; apply lift_frame|].
  destruct ev as [[[ev_type ev_code] ev_value]|]; [|intros _; repeat split].
  intros K. cbn [switch]. rewrite K.
  destruct (ev_type =? EvdevDriver.EV_ABS); [apply lift_frame | repeat split].
Qed.

(** One turn of the loop on anything but a key event. *)
Lemma run_turn_frame (v : Z) (ev : option (Z * Z * Z))
  (p : EvdevDriver.RunProxies) (o : EvdevDriver.Object Rotary) :
  is_switch (EvdevDriver.LeftBtnPlayProxy p) = true ->
  is_switch (EvdevDriver.RightBtnPlayProxy p) = true ->
  is_switch (EvdevDriver.LeftBtnLoopProxy p) = true ->
  is_switch (EvdevDriver.RightBtnLoopProxy p) = true ->
  is_key_event v ev = false ->
  let m := EvdevDriver.members o in
  let r := EvdevDriver.run_turn c write_ok strerror changeJogMode v ev p o in
  EvdevDriver.members (EvdevDriver.object_after r)
  = EvdevDriver.set_m_bLoopRight (Qeq_bool (EvdevDriver.RightBtnLoopProxy p) 1)
      (EvdevDriver.set_m_bLoopLeft (Qeq_bool (EvdevDriver.LeftBtnLoopProxy p) 1)
        (EvdevDriver.set_m_bPlayRight (Qeq_bool (EvdevDriver.RightBtnPlayProxy p) 1)
          (EvdevDriver.set_m_bPlayLeft (Qeq_bool (EvdevDriver.LeftBtnPlayProxy p) 1)
             m)))
  /\ device_writes (EvdevDriver.actions_of r)
     = led_change (EvdevDriver.m_iFd m) (EvdevDriver.kiHerculesLedLeftPlay c)
         (EvdevDriver.m_bPlayLeft m)
         (Qeq_bool (EvdevDriver.LeftBtnPlayProxy p) 1)
       ++ led_change (EvdevDriver.m_iFd m) (EvdevDriver.kiHerculesLedRightPlay c)
            (EvdevDriver.m_bPlayRight m)
            (Qeq_bool (EvdevDriver.RightBtnPlayProxy p) 1)
       ++ led_change (EvdevDriver.m_iFd m) (EvdevDriver.kiHerculesLedLeftCueBtn c)
            (EvdevDriver.m_bLoopLeft m)
            (Qeq_bool (EvdevDriver.LeftBtnLoopProxy p) 1)
       ++ led_change (EvdevDriver.m_iFd m) (EvdevDriver.kiHerculesLedRightCueBtn c)
            (EvdevDriver.m_bLoopRight m)
            (Qeq_bool (EvdevDriver.RightBtnLoopProxy p) 1).
Proof.
  intros H1 H2 H3 H4 K. cbv zeta.
  unfold EvdevDriver.run_turn, EvdevDriver.and_then.
  pose proof (getNextEvent_frame v ev o K) as F. cbv zeta in F.
  destruct (EvdevDriver.getNextEvent c write_ok strerror changeJogMode v ev o)
    as [[[] o1] t1].
  unfold EvdevDriver.object_after, EvdevDriver.actions_of in F.
  cbn [fst snd] in F. destruct F as (Fm & _ & Fw).
  pose proof (sync_leds_pass c write_ok strerror p o1 H1 H2 H3 H4) as S.
  cbv zeta in S.
  destruct (EvdevDriver.sync_leds c write_ok strerror p o1) as [[[] o2] t2].
  unfold EvdevDriver.object_after, EvdevDriver.actions_of in *.
  cbn [fst snd] in *. destruct S as [-> S].
  rewrite device_writes_app, Fw, S, Fm. split; reflexivity.
Qed.

Lemma leds_synced_fixed (p : EvdevDriver.RunProxies) (fd l1 l2 l3 l4 : Z)
  (m : EvdevDriver.Members) :
  leds_synced p m ->
  EvdevDriver.set_m_bLoopRight (Qeq_bool (EvdevDriver.RightBtnLoopProxy p) 1)
    (EvdevDriver.set_m_bLoopLeft (Qeq_bool (EvdevDriver.LeftBtnLoopProxy p) 1)
      (EvdevDriver.set_m_bPlayRight (Qeq_bool (EvdevDriver.RightBtnPlayProxy p) 1)
        (EvdevDriver.set_m_bPlayLeft (Qeq_bool (EvdevDriver.LeftBtnPlayProxy p) 1)
           m))) = m
  /\ led_change fd l1 (EvdevDriver.m_bPlayLeft m)
       (Qeq_bool (EvdevDriver.LeftBtnPlayProxy p) 1)
     ++ led_change fd l2 (EvdevDriver.m_bPlayRight m)
          (Qeq_bool (EvdevDriver.RightBtnPlayProxy p) 1)
     ++ led_change fd l3 (EvdevDriver.m_bLoopLeft m)
          (Qeq_bool (EvdevDriver.LeftBtnLoopProxy p) 1)
     ++ led_change fd l4 (EvdevDriver.m_bLoopRight m)
          (Qeq_bool (EvdevDriver.RightBtnLoopProxy p) 1) = [].
Proof.
  unfold leds_synced, led_change. destruct m. cbn.
  intros (-> & -> & -> & ->). rewrite !eqb_reflx. split; reflexivity.
Qed.

(** Turns on objects whose LED members equal the proxies write nothing. *)
Lemma run_synced (events : list (Z * option (Z * Z * Z)))
  (p : EvdevDriver.RunProxies) (o : EvdevDriver.Object Rotary) :
  is_switch (EvdevDriver.LeftBtnPlayProxy p) = true ->
  is_switch (EvdevDriver.RightBtnPlayProxy p) = true ->
  is_switch (EvdevDriver.LeftBtnLoopProxy p) = true ->
  is_switch (EvdevDriver.RightBtnLoopProxy p) = true ->
  Forall (fun e => is_key_event (fst e) (snd e) = false) events ->
  leds_synced p (EvdevDriver.members o) ->
  let r := EvdevDriver.run c write_ok strerror changeJogMode
             (map (fun e => (fst e, snd e, p)) events) o in
  device_writes (EvdevDriver.actions_of r) = []
  /\ EvdevDriver.members (EvdevDriver.object_after r) = EvdevDriver.members o.
Proof.
  intros H1 H2 H3 H4 Hq. cbv zeta. revert o.
  induction Hq as [|[v ev] rest K _ IH]; intros o S; [split; reflexivity|].
  cbn [map EvdevDriver.run fst snd]. unfold EvdevDriver.and_then.
  pose proof (run_turn_frame v ev p o H1 H2 H3 H4 K) as T. cbv zeta in T.
  destruct (EvdevDriver.run_turn c write_ok strerror changeJogMode v ev p o)
    as [[[] o1] t1].
  unfold EvdevDriver.object_after, EvdevDriver.actions_of in T.
  cbn [fst snd] in T. destruct T as [Tm Tw].
  destruct (leds_synced_fixed p (EvdevDriver.m_iFd (EvdevDriver.members o))
              (EvdevDriver.kiHerculesLedLeftPlay c)
              (EvdevDriver.kiHerculesLedRightPlay c)
              (EvdevDriver.kiHerculesLedLeftCueBtn c)
              (EvdevDriver.kiHerculesLedRightCueBtn c) _ S) as [E1 E2].
  rewrite E1 in Tm. rewrite E2 in Tw.
  assert (leds_synced p (EvdevDriver.members o1)) as S1 by (now rewrite Tm).
  specialize (IH o1 S1).
  destruct (EvdevDriver.run c write_ok strerror changeJogMode _ o1)
    as [[[] o2] t2].
  unfold EvdevDriver.object_after, EvdevDriver.actions_of in *.
  cbn [fst snd] in *. destruct IH as [IHw IHm].
  rewrite device_writes_app, Tw, IHw, IHm, Tm. split; reflexivity.
Qed.

(** X24. The loop of [run] over time-outs and events other than key
    events, with the four proxies steady at 0 or 1: the first turn writes
    the LEDs that differ from their proxies, and no later turn writes to
    the device; the LED members equal the proxies from the first turn
    on. *)
Theorem steady_proxies_write_once (e : Z * option (Z * Z * Z))
  (events : list (Z * option (Z * Z * Z)))
  (p : EvdevDriver.RunProxies) (o : EvdevDriver.Object Rotary) :
  is_switch (EvdevDriver.LeftBtnPlayProxy p) = true ->
  is_switch (EvdevDriver.RightBtnPlayProxy p) = true ->
  is_switch (EvdevDriver.LeftBtnLoopProxy p) = true ->
  is_switch (EvdevDriver.RightBtnLoopProxy p) = true ->
  Forall (fun e => is_key_event (fst e) (snd e) = false) (e :: events) ->
  let m := EvdevDriver.members o in
  let r := EvdevDriver.run c write_ok strerror changeJogMode
             (map (fun e => (fst e, snd e, p)) (e :: events)) o in
  device_writes (EvdevDriver.actions_of r)
  = led_change (EvdevDriver.m_iFd m) (EvdevDriver.kiHerculesLedLeftPlay c)
      (EvdevDriver.m_bPlayLeft m)
      (Qeq_bool (EvdevDriver.LeftBtnPlayProxy p) 1)
    ++ led_change (EvdevDriver.m_iFd m) (EvdevDriver.kiHerculesLedRightPlay c)
         (EvdevDriver.m_bPlayRight m)
         (Qeq_bool (EvdevDriver.RightBtnPlayProxy p) 1)
    ++ led_change (EvdevDriver.m_iFd m) (EvdevDriver.kiHerculesLedLeftCueBtn c)
         (EvdevDriver.m_bLoopLeft m)
         (Qeq_bool (EvdevDriver.LeftBtnLoopProxy p) 1)
    ++ led_change (EvdevDriver.m_iFd m) (EvdevDriver.kiHerculesLedRightCueBtn c)
         (EvdevDriver.m_bLoopRight m)
         (Qeq_bool (EvdevDriver.RightBtnLoopProxy p) 1)
  /\ leds_synced p (EvdevDriver.members (EvdevDriver.object_after r)).
Proof.
  intros H1 H2 H3 H4 Hq. cbv zeta. inversion Hq as [|x l K Hrest]; subst.
  destruct e as [v ev]. cbn [map EvdevDriver.run fst snd] in *.
  unfold EvdevDriver.and_then.
  pose proof (run_turn_frame v ev p o H1 H2 H3 H4 K) as T. cbv zeta in T.
  destruct (EvdevDriver.run_turn c write_ok strerror changeJogMode v ev p o)
    as [[[] o1] t1].
  unfold EvdevDriver.object_after, EvdevDriver.actions_of in T.
  cbn [fst snd] in T. destruct T as [Tm Tw].
  assert (leds_synced p (EvdevDriver.members o1)) as S1.
  { rewrite Tm. destruct (EvdevDriver.members o). repeat split. }
  pose proof (run_synced events p o1 H1 H2 H3 H4 Hrest S1) as R.
  cbv zeta in R.
  destruct (EvdevDriver.run c write_ok strerror changeJogMode _ o1)
    as [[[] o2] t2].
  unfold EvdevDriver.object_after, EvdevDriver.actions_of in *.
  cbn [fst snd] in *. destruct R as [Rw Rm].
  rewrite device_writes_app, Tw, Rw, Rm, app_nil_r. split; [reflexivity|].
  exact S1.
Qed.
End RunLoop.

Lemma steady_proxies_write_once_witness :
  device_writes
    (EvdevDriver.actions_of
       (EvdevDriver.run example_keys example_write_ok "error"
          example_changeJogMode
          (map (fun e => (fst e, snd e, EvdevDriver.mkRunProxies 1%Q 0%Q 0%Q 0%Q))
             [(0, None); (1, Some (EvdevDriver.EV_ABS, 4, 200)); (0, None)])
          example_object))
  = [(-1, 3, 3)].
Proof.
  refine (proj1 (steady_proxies_write_once example_keys example_write_ok
                   "error"%string example_changeJogMode (0, None)
                   [(1, Some (EvdevDriver.EV_ABS, 4, 200)); (0, None)]
                   (EvdevDriver.mkRunProxies 1%Q 0%Q 0%Q 0%Q) example_object
                   eq_refl eq_refl eq_refl eq_refl _)).
  repeat constructor.
Defined.
